(** * PodTranscript: transcript extraction and search, verified against the code

    A shallow embedding of [FileParser] (the multi-format transcript
    extractor) and [SearchEngine] (matching, ranking, highlighting), with
    the pieces of the JavaScript platform they call: strings, numbers,
    dynamic values, regular expressions, the DOM and the array sort.

    Layout: the platform ([JS], [RegExp], [DOM]), the data model, the two
    classes, sample inputs and the vocabulary of the statements, and
    then the lemmas and theorems. *)

From Stdlib Require Import String Ascii List Bool Arith ZArith QArith Lia Lqa.
From Stdlib Require Import DecimalString DecimalNat Sorted Permutation.
Import ListNotations.

Set Warnings "-register-all".

Close Scope Q_scope.
Local Open Scope list_scope.
Local Open Scope string_scope.
Local Open Scope nat_scope.

(* ================================================================== *)
(** * The JavaScript platform *)
(* ================================================================== *)

(** ** Completion records

    A JavaScript computation returns a value, throws, or fails to
    terminate.  [Throw] carries the [message] of the thrown [Error];
    [Diverge] is what a loop that runs out of fuel is mapped to. *)

Inductive Outcome (A : Type) : Type :=
| Ret (a : A)
| Throw (message : string)
| Diverge.

Arguments Ret {A} a.
Arguments Throw {A} message.
Arguments Diverge {A}.

Definition obind {A B} (m : Outcome A) (k : A -> Outcome B) : Outcome B :=
  match m with
  | Ret a => k a
  | Throw e => Throw e
  | Diverge => Diverge
  end.

Declare Scope outcome_scope.
Delimit Scope outcome_scope with outcome.
Notation "x <- m ;; k" := (obind m (fun x => k))
  (at level 61, m at next level, right associativity) : outcome_scope.

Module JS.

(** ** Code units

    A JavaScript string is a sequence of UTF-16 code units.  The model
    keeps the code units below 256 (the Latin-1 range), which is what
    [ascii] holds; the case mappings and the white space set below are
    the platform's, restricted to that range. *)

Definition code (c : ascii) : nat := nat_of_ascii c.

Definition between (lo hi : nat) (c : ascii) : bool :=
  (lo <=? code c) && (code c <=? hi).

(** WhiteSpace and LineTerminator: TAB, LF, VT, FF, CR, SP, NBSP. *)
Definition isWhiteSpace (c : ascii) : bool :=
  between 9 13 c || (code c =? 32) || (code c =? 160).

(** [A-Z], and U+00C0..U+00DE without the multiplication sign. *)
Definition isUpper (c : ascii) : bool :=
  between 65 90 c || (between 192 222 c && negb (code c =? 215)).

(** [a-z], and U+00E0..U+00FE without the division sign. *)
Definition isLower (c : ascii) : bool :=
  between 97 122 c || (between 224 254 c && negb (code c =? 247)).

Definition toLowerChar (c : ascii) : ascii :=
  if isUpper c then ascii_of_nat (code c + 32) else c.

Definition toUpperChar (c : ascii) : ascii :=
  if isLower c then ascii_of_nat (code c - 32) else c.

Definition isDigit (c : ascii) : bool := between 48 57 c.

(** [\w]: [A-Za-z0-9_]. *)
Definition isWordChar (c : ascii) : bool :=
  between 65 90 c || between 97 122 c || isDigit c || (code c =? 95).

Definition LF : ascii := "010"%char.
Definition DQUOTE : ascii := "034"%char.

(** ** Strings *)

Fixpoint map_string (f : ascii -> ascii) (s : string) : string :=
  match s with
  | EmptyString => EmptyString
  | String c s' => String (f c) (map_string f s')
  end.

(** [String.prototype.toLowerCase], on the code units that the model
    keeps: there it maps code unit by code unit and keeps the length.
    Beyond them the method depends on the context and can change the
    length (a final sigma, U+0130). *)
Definition toLowerCase (s : string) : string := map_string toLowerChar s.

Fixpoint trimStart (s : string) : string :=
  match s with
  | EmptyString => EmptyString
  | String c s' => if isWhiteSpace c then trimStart s' else s
  end.

Fixpoint trimEnd (s : string) : string :=
  match s with
  | EmptyString => EmptyString
  | String c s' =>
      match trimEnd s' with
      | EmptyString => if isWhiteSpace c then EmptyString else String c EmptyString
      | t => String c t
      end
  end.

(** [String.prototype.trim] *)
Definition trim (s : string) : string := trimEnd (trimStart s).

Definition isEmpty (s : string) : bool :=
  match s with EmptyString => true | _ => false end.

(** [String.prototype.startsWith] *)
Fixpoint startsWith (s sub : string) {struct sub} : bool :=
  match sub with
  | EmptyString => true
  | String a sub' =>
      match s with
      | EmptyString => false
      | String b s' => Ascii.eqb a b && startsWith s' sub'
      end
  end.

(** [String.prototype.includes] *)
Fixpoint includes (s sub : string) : bool :=
  if startsWith s sub then true
  else match s with
       | EmptyString => false
       | String _ s' => includes s' sub
       end.

(** [String.prototype.indexOf(sub, pos)]; [None] stands for [-1]. *)
Fixpoint indexOf (s sub : string) (pos : nat) : option nat :=
  match pos with
  | 0 => if startsWith s sub then Some 0
         else match s with
              | EmptyString => None
              | String _ s' => option_map S (indexOf s' sub 0)
              end
  | S p => match s with
           | EmptyString => if isEmpty sub then Some 0 else None
           | String _ s' => option_map S (indexOf s' sub p)
           end
  end.

Fixpoint rev_string_onto (s acc : string) : string :=
  match s with
  | EmptyString => acc
  | String c s' => rev_string_onto s' (String c acc)
  end.

Definition rev_string (s : string) : string := rev_string_onto s EmptyString.

(** [String.prototype.endsWith] *)
Definition endsWith (s suffix : string) : bool :=
  startsWith (rev_string s) (rev_string suffix).

(** [String.prototype.split] with a one-code-unit separator: the pieces
    between the separators, empty pieces included, so that the empty
    string splits into one empty piece. *)
Fixpoint split (sep : ascii) (s : string) : list string :=
  match s with
  | EmptyString => [EmptyString]
  | String c s' =>
      if Ascii.eqb c sep then EmptyString :: split sep s'
      else match split sep s' with
           | [] => [String c EmptyString]
           | piece :: rest => String c piece :: rest
           end
  end.

(** Decimal rendering of an array index or a length inside a template
    literal. *)
Definition natToString (n : nat) : string :=
  NilEmpty.string_of_uint (Nat.to_uint n).

(** ** Numbers

    [number] values are kept exact: a rational, the two infinities or
    NaN.  Rounding to binary64 and the sign of zero are not modelled;
    the code only multiplies small array indices by five, adds thirty,
    subtracts to compare and tests for zero, and all of these agree
    with the exact values. *)

Inductive number : Type :=
| NaN
| NegInf
| Fin (q : Q)
| PosInf.

Definition ofNat (n : nat) : number := Fin (inject_Z (Z.of_nat n)).

Definition numAdd (a b : number) : number :=
  match a, b with
  | NaN, _ | _, NaN => NaN
  | PosInf, NegInf | NegInf, PosInf => NaN
  | PosInf, _ | _, PosInf => PosInf
  | NegInf, _ | _, NegInf => NegInf
  | Fin x, Fin y => Fin (Qred (x + y))
  end.

Definition numNeg (a : number) : number :=
  match a with
  | NaN => NaN
  | NegInf => PosInf
  | PosInf => NegInf
  | Fin x => Fin (Qopp x)
  end.

Definition numSub (a b : number) : number := numAdd a (numNeg b).

Definition isNaN (a : number) : bool :=
  match a with NaN => true | _ => false end.

(** [a > 0] *)
Definition numPositive (a : number) : bool :=
  match a with
  | PosInf => true
  | Fin q => match Qcompare q 0 with Gt => true | _ => false end
  | _ => false
  end.

(** ToBoolean on a number: zero and NaN are falsy. *)
Definition numTruthy (a : number) : bool :=
  match a with
  | NaN => false
  | Fin q => negb (Qeq_bool q 0)
  | _ => true
  end.


(** ** Dynamic values

    What [JSON.parse] returns and what the [any]-typed code passes
    around.  An object is its own enumerable properties in enumeration
    order; [JSON.parse] leaves no duplicate key. *)

Inductive value : Type :=
| Undefined
| Null
| Bool (b : bool)
| Num (n : number)
| Str (s : string)
| Arr (items : list value)
| Obj (fields : list (string * value)).

(** ToBoolean *)
Definition truthy (v : value) : bool :=
  match v with
  | Undefined | Null => false
  | Bool b => b
  | Num n => numTruthy n
  | Str s => negb (isEmpty s)
  | Arr _ | Obj _ => true
  end.

(** [a || b] on values that are already evaluated. *)
Definition or (a b : value) : value := if truthy a then a else b.

Fixpoint lookup (fields : list (string * value)) (key : string) : option value :=
  match fields with
  | [] => None
  | (k, v) :: rest => if String.eqb k key then Some v else lookup rest key
  end.

(** Property read [v.key] for the property names the code uses; none of
    them lives on a prototype, so a primitive or an array has none of
    them, and reading a property of [undefined] or [null] throws. *)
Definition get (v : value) (key : string) : Outcome value :=
  match v with
  | Undefined | Null =>
      Throw ("Cannot read properties of " ++
             (match v with Null => "null" | _ => "undefined" end) ++
             " (reading '" ++ key ++ "')")
  | Obj fields =>
      match lookup fields key with
      | Some x => Ret x
      | None => Ret Undefined
      end
  | _ => Ret Undefined
  end.

(** [Array.isArray] *)
Definition isArray (v : value) : bool :=
  match v with Arr _ => true | _ => false end.

(** [typeof v === 'string'] *)
Definition isString (v : value) : bool :=
  match v with Str _ => true | _ => false end.

(** [typeof v === 'object']: objects, arrays and [null]. *)
Definition typeofObject (v : value) : bool :=
  match v with Obj _ | Arr _ | Null => true | _ => false end.

Fixpoint indexed_from {A} (i : nat) (l : list A) : list (nat * A) :=
  match l with
  | [] => []
  | x :: l' => (i, x) :: indexed_from (S i) l'
  end.

Fixpoint chars (s : string) : list string :=
  match s with
  | EmptyString => []
  | String c s' => String c EmptyString :: chars s'
  end.

(** [Object.keys] throws on [undefined] and [null]. *)
Definition objectKeys (v : value) : Outcome (list string) :=
  match v with
  | Undefined | Null => Throw "Cannot convert undefined or null to object"
  | Obj fields => Ret (map fst fields)
  | Arr items => Ret (map (fun p => natToString (fst p)) (indexed_from 0 items))
  | Str s => Ret (map (fun p => natToString (fst p)) (indexed_from 0 (chars s)))
  | _ => Ret []
  end.

(** [Object.entries] *)
Definition objectEntries (v : value) : Outcome (list (string * value)) :=
  match v with
  | Undefined | Null => Throw "Cannot convert undefined or null to object"
  | Obj fields => Ret fields
  | Arr items =>
      Ret (map (fun p => (natToString (fst p), snd p)) (indexed_from 0 items))
  | Str s =>
      Ret (map (fun p => (natToString (fst p), Str (snd p)))
               (indexed_from 0 (chars s)))
  | _ => Ret []
  end.

(** ** [parseFloat]

    [parseFloat(v)] converts [v] to a string and reads the longest
    prefix that is a StrDecimalLiteral, after leading white space. *)

Definition digitValue (c : ascii) : Z := Z.of_nat (code c - 48).

(** Reads a run of decimal digits: the value accumulated onto [acc],
    the number of digits read, and what follows. *)
Fixpoint readDigits (s : string) (acc : Z) (n : nat) : Z * nat * string :=
  match s with
  | EmptyString => (acc, n, s)
  | String c s' =>
      if isDigit c then readDigits s' (10 * acc + digitValue c)%Z (S n)
      else (acc, n, s)
  end.

(** ExponentPart: [e] or [E], an optional sign, at least one digit. *)
Definition readExponent (s : string) : Z :=
  match s with
  | String c r =>
      if Ascii.eqb c "e" || Ascii.eqb c "E" then
        let '(sign, r') :=
          match r with
          | String "+" t => (1%Z, t)
          | String "-" t => ((-1)%Z, t)
          | _ => (1%Z, r)
          end in
        let '(v, n, _) := readDigits r' 0%Z 0 in
        if n =? 0 then 0%Z else (sign * v)%Z
      else 0%Z
  | EmptyString => 0%Z
  end.

(** The unsigned part: digits, an optional fraction, an optional
    exponent; at least one digit before the exponent. *)
Definition readDecimal (s : string) : option Q :=
  let '(i, ni, r1) := readDigits s 0%Z 0 in
  let '(m, nf, r2) :=
    match r1 with
    | String "." r => readDigits r i 0
    | _ => (i, 0, r1)
    end in
  if ni + nf =? 0 then None
  else Some (Qred (inject_Z m * Qpower (10 # 1) (readExponent r2 - Z.of_nat nf))).

Definition parseFloatString (s : string) : number :=
  let t := trimStart s in
  let '(negative, body) :=
    match t with
    | String "+" r => (false, r)
    | String "-" r => (true, r)
    | _ => (false, t)
    end in
  if startsWith body "Infinity" then (if negative then NegInf else PosInf)
  else match readDecimal body with
       | Some q => Fin (if negative then Qopp q else q)
       | None => NaN
       end.

(** ToString completes normally unless an object met on the way carries
    an own [toString] property: a parsed JSON value is never callable,
    and [Object.prototype.valueOf] returns no primitive. *)
Fixpoint stringifiable (v : value) : bool :=
  match v with
  | Obj fields =>
      match lookup fields "toString" with Some _ => false | None => true end
  | Arr items => forallb stringifiable items
  | _ => true
  end.

(** A number prints to a literal that reads back as itself; an array
    prints its elements separated by commas, so that only its first
    element can be read as a number; a plain object prints as
    [[object Object]]. *)
Fixpoint parseFloat (v : value) : Outcome number :=
  match v with
  | Num n => Ret n
  | Str s => Ret (parseFloatString s)
  | Undefined | Null | Bool _ => Ret NaN
  | Arr items =>
      if forallb stringifiable items then
        match items with
        | [] => Ret NaN
        | x :: _ => parseFloat x
        end
      else Throw "Cannot convert object to primitive value"
  | Obj fields =>
      if stringifiable v then Ret NaN
      else Throw "Cannot convert object to primitive value"
  end.

(** ** [Array.prototype.sort]

    The sort is stable and calls the comparator on pairs of elements;
    [a] stays before [b] unless [comparefn(a, b) > 0] (a NaN result
    counts as zero).  For a consistent comparator every stable sort
    gives the same array; the insertion sort below is the one used. *)

Section Sort.
Context {A : Type} (comparefn : A -> A -> Outcome number).

Fixpoint insertSorted (x : A) (l : list A) : Outcome (list A) :=
  match l with
  | [] => Ret [x]
  | y :: l' =>
      (c <- comparefn x y ;;
       if numPositive c
       then (r <- insertSorted x l' ;; Ret (y :: r))
       else Ret (x :: y :: l'))%outcome
  end.

Fixpoint sort (l : list A) : Outcome (list A) :=
  match l with
  | [] => Ret []
  | x :: l' => (s <- sort l' ;; insertSorted x s)%outcome
  end.
End Sort.

End JS.

(** ** Regular expressions

    The fragment of the pattern language that the code writes: single
    characters and classes, [?] and [+] on them, [^], [$], [\b] and one
    capturing group.  A regular expression literal of the source is
    given as its syntax tree; a pattern built at run time with
    [new RegExp(source, flags)] goes through [compile], which accepts
    the fragment only; [SearchEngine.escapeRegex] keeps every source the
    code builds inside it (lemmas [compile_group] and [compile_wholeWord]
    below). *)

Module RegExp.
Import JS.

Inductive cclass : Type :=
| CLit (c : ascii)
| CDigit                                        (* \d *)
| CWord                                         (* \w *)
| CSet (negated : bool) (ranges : list (ascii * ascii)).

Inductive node : Type :=
| NChar (k : cclass)
| NOpt (k : cclass)                             (* k? *)
| NPlus (k : cclass)                            (* k+ *)
| NBol                                          (* ^ *)
| NEol                                          (* $ *)
| NWordB                                        (* \b *)
| NOpen                                         (* ( *)
| NClose.                                       (* ) *)

Definition pattern : Type := list node.

Record regex : Type := mkRegex {
  source : pattern;
  global : bool;
  ignoreCase : bool
}.

Definition inRange (a : ascii) (r : ascii * ascii) : bool :=
  (code (fst r) <=? code a) && (code a <=? code (snd r)).

(** Canonicalize of the [i] flag: the upper-case mapping. *)
Definition canonicalize (c : ascii) : ascii := toUpperChar c.

Definition charMatches (ic : bool) (k : cclass) (a : ascii) : bool :=
  match k with
  | CLit c =>
      if ic then Ascii.eqb (canonicalize a) (canonicalize c) else Ascii.eqb a c
  | CDigit => isDigit a
  | CWord => isWordChar a
  | CSet negated ranges => xorb negated (existsb (inRange a) ranges)
  end.

Definition isWordAt (c : option ascii) : bool :=
  match c with Some a => isWordChar a | None => false end.

Definition peek (s : string) : option ascii :=
  match s with String a _ => Some a | EmptyString => None end.

(** Group 1 while matching: where it opened, and its span once closed;
    positions count from the start of the match. *)
Definition captures : Type := (option nat * option (nat * nat))%type.

(** Backtracking match of [p] at one position: [prev] is the code unit
    before it, [s] the text from it on, [pos] the number of code units
    consumed so far.  Gives the length of the match and group 1. *)
Fixpoint matchHere (ic : bool) (p : pattern)
  : option ascii -> string -> nat -> captures -> option (nat * captures) :=
  match p with
  | [] => fun _ _ pos cp => Some (pos, cp)
  | n :: rest =>
      let k := matchHere ic rest in
      match n with
      | NChar c => fun _ s pos cp =>
          match s with
          | String a s' => if charMatches ic c a then k (Some a) s' (S pos) cp else None
          | EmptyString => None
          end
      | NOpt c => fun prev s pos cp =>
          let taken :=
            match s with
            | String a s' => if charMatches ic c a then k (Some a) s' (S pos) cp else None
            | EmptyString => None
            end in
          match taken with
          | Some r => Some r
          | None => k prev s pos cp
          end
      | NPlus c =>
          fix plus (prev : option ascii) (s : string) (pos : nat) (cp : captures)
            {struct s} : option (nat * captures) :=
            match s with
            | String a s' =>
                if charMatches ic c a then
                  match plus (Some a) s' (S pos) cp with
                  | Some r => Some r
                  | None => k (Some a) s' (S pos) cp
                  end
                else None
            | EmptyString => None
            end
      | NBol => fun prev s pos cp =>
          match prev with None => k prev s pos cp | Some _ => None end
      | NEol => fun prev s pos cp =>
          match s with EmptyString => k prev s pos cp | String _ _ => None end
      | NWordB => fun prev s pos cp =>
          if xorb (isWordAt prev) (isWordAt (peek s)) then k prev s pos cp else None
      | NOpen => fun prev s pos cp => k prev s pos (Some pos, snd cp)
      | NClose => fun prev s pos cp =>
          k prev s pos
            (fst cp, match fst cp with Some b => Some (b, pos) | None => snd cp end)
      end
  end.

Record matchResult : Type := mkMatch {
  matchLength : nat;
  matched : string;                 (* $& *)
  group1 : option string            (* $1; None when group 1 took no part *)
}.

Definition hasGroup (p : pattern) : bool :=
  existsb (fun n => match n with NOpen => true | _ => false end) p.

Definition matchAt (re : regex) (prev : option ascii) (s : string) : option matchResult :=
  match matchHere (ignoreCase re) (source re) prev s 0 (None, None) with
  | Some (len, cp) =>
      Some (mkMatch len (String.substring 0 len s)
              (match snd cp with
               | Some (b, e) => Some (String.substring b (e - b) s)
               | None => None
               end))
  | None => None
  end.

(** [RegExp.prototype.test] on a regular expression that was just
    created ([lastIndex] is 0): is there a match anywhere? *)
Fixpoint testFrom (re : regex) (prev : option ascii) (s : string) : bool :=
  match matchAt re prev s with
  | Some _ => true
  | None =>
      match s with
      | EmptyString => false
      | String a s' => testFrom re (Some a) s'
      end
  end.

Definition test (re : regex) (s : string) : bool := testFrom re None s.

(** The successive matches of a global regular expression, left to
    right and without overlap: [skip] code units of the last match are
    still to be passed; an empty match advances by one code unit. *)
Fixpoint matchesFrom (re : regex) (prev : option ascii) (s : string) (skip : nat)
  : list matchResult :=
  match s with
  | EmptyString =>
      match skip, matchAt re prev s with
      | 0, Some m => [m]
      | _, _ => []
      end
  | String a s' =>
      match skip with
      | S k => matchesFrom re (Some a) s' k
      | 0 =>
          match matchAt re prev s with
          | Some m => m :: matchesFrom re (Some a) s' (pred (matchLength m))
          | None => matchesFrom re (Some a) s' 0
          end
      end
  end.

(** [String.prototype.match] with a global regular expression: the
    matches, or [null] ([None]) when there is none. *)
Definition matchAll (re : regex) (s : string) : option (list string) :=
  match matchesFrom re None s 0 with
  | [] => None
  | ms => Some (map matched ms)
  end.

(** GetSubstitution for the replacement patterns [$$], [$&] and [$1];
    the templates of the code use no other. *)
Fixpoint expand (withGroup : bool) (template : string) (m : matchResult) : string :=
  match template with
  | EmptyString => EmptyString
  | String "$" (String "$" t) => String "$" (expand withGroup t m)
  | String "$" (String "&" t) => matched m ++ expand withGroup t m
  | String "$" (String "1" t) =>
      if withGroup
      then match group1 m with Some g => g | None => EmptyString end
           ++ expand withGroup t m
      else String "$" (String "1" (expand withGroup t m))
  | String c t => String c (expand withGroup t m)
  end.

Fixpoint replaceFrom (re : regex) (template : string)
  (prev : option ascii) (s : string) (skip : nat) : string :=
  match s with
  | EmptyString =>
      match skip, matchAt re prev s with
      | 0, Some m => expand (hasGroup (source re)) template m
      | _, _ => EmptyString
      end
  | String a s' =>
      match skip with
      | S k => replaceFrom re template (Some a) s' k
      | 0 =>
          match matchAt re prev s with
          | Some m =>
              expand (hasGroup (source re)) template m ++
              match matchLength m with
              | 0 => String a (replaceFrom re template (Some a) s' 0)
              | S k => replaceFrom re template (Some a) s' k
              end
          | None => String a (replaceFrom re template (Some a) s' 0)
          end
      end
  end.

Fixpoint dropString (n : nat) (s : string) : string :=
  match n, s with
  | S k, String _ s' => dropString k s'
  | _, _ => s
  end.

(** Without the [g] flag only the first match is replaced. *)
Fixpoint replaceFirst (re : regex) (template : string)
  (prev : option ascii) (s : string) : string :=
  match matchAt re prev s with
  | Some m =>
      expand (hasGroup (source re)) template m ++ dropString (matchLength m) s
  | None =>
      match s with
      | EmptyString => EmptyString
      | String a s' => String a (replaceFirst re template (Some a) s')
      end
  end.

(** [String.prototype.replace(re, template)] *)
Definition replace (s : string) (re : regex) (template : string) : string :=
  if global re then replaceFrom re template None s 0
  else replaceFirst re template None s.

(** *** [new RegExp(source, flags)] *)

(** SyntaxCharacter *)
Definition isSyntaxChar (c : ascii) : bool :=
  existsb (Ascii.eqb c)
    ["^"; "$"; "\"; "."; "*"; "+"; "?"; "("; ")"; "["; "]"; "{"; "}"; "|"]%char.

(** What may follow a backslash: a class escape, or an identity escape
    of a syntax character or of [/]. *)
Definition escapeClass (e : ascii) : option cclass :=
  if Ascii.eqb e "d" then Some CDigit
  else if Ascii.eqb e "w" then Some CWord
  else if isSyntaxChar e || Ascii.eqb e "/" then Some (CLit e)
  else None.

Definition consNode (n : node) (r : option pattern) : option pattern :=
  option_map (cons n) r.

Definition isPlus (c : ascii) : bool := Ascii.eqb c "+".
Definition isQuestion (c : ascii) : bool := Ascii.eqb c "?".

Fixpoint parsePattern (s : string) : option pattern :=
  match s with
  | EmptyString => Some []
  | String c s1 =>
      if Ascii.eqb c "\" then
        match s1 with
        | EmptyString => None
        | String e s2 =>
            if Ascii.eqb e "b" then consNode NWordB (parsePattern s2)
            else match escapeClass e with
                 | Some k =>
                     match s2 with
                     | String q t =>
                         if isPlus q then consNode (NPlus k) (parsePattern t)
                         else if isQuestion q then consNode (NOpt k) (parsePattern t)
                         else consNode (NChar k) (parsePattern s2)
                     | EmptyString => consNode (NChar k) (parsePattern s2)
                     end
                 | None => None
                 end
        end
      else if Ascii.eqb c "(" then consNode NOpen (parsePattern s1)
      else if Ascii.eqb c ")" then consNode NClose (parsePattern s1)
      else if Ascii.eqb c "^" then consNode NBol (parsePattern s1)
      else if Ascii.eqb c "$" then consNode NEol (parsePattern s1)
      else if isSyntaxChar c then None
      else match s1 with
           | String q t =>
               if isPlus q then consNode (NPlus (CLit c)) (parsePattern t)
               else if isQuestion q then consNode (NOpt (CLit c)) (parsePattern t)
               else consNode (NChar (CLit c)) (parsePattern s1)
           | EmptyString => consNode (NChar (CLit c)) (parsePattern s1)
           end
  end.

(** One group at most, opened before it is closed. *)
Fixpoint wellGrouped (opened closed : bool) (p : pattern) : bool :=
  match p with
  | [] => Bool.eqb opened closed
  | NOpen :: rest => negb opened && wellGrouped true closed rest
  | NClose :: rest => opened && negb closed && wellGrouped opened true rest
  | _ :: rest => wellGrouped opened closed rest
  end.

Definition compile (src : string) : option pattern :=
  match parsePattern src with
  | Some p => if wellGrouped false false p then Some p else None
  | None => None
  end.

Definition hasFlag (flags : string) (f : ascii) : bool :=
  includes flags (String f EmptyString).

(** The constructor: a source outside the fragment is a SyntaxError. *)
Definition RegExp (src flags : string) : Outcome regex :=
  match compile src with
  | Some p => Ret (mkRegex p (hasFlag flags "g") (hasFlag flags "i"))
  | None => Throw ("Invalid regular expression: /" ++ src ++ "/")
  end.

End RegExp.

(** ** The DOM

    What [DOMParser.parseFromString(content, 'text/xml')] returns: a
    tree of elements and text.  A document is the node whose children
    are the top-level nodes; a parse failure shows as a [parsererror]
    element in it. *)

Module DOM.

Inductive node : Type :=
| Element (tagName : string) (children : list node)
| Text (data : string).

(** The nodes below [n], in document order. *)
Fixpoint descendants (n : node) : list node :=
  match n with
  | Text _ => []
  | Element _ children =>
      (fix below (l : list node) : list node :=
         match l with
         | [] => []
         | c :: l' => (c :: descendants c) ++ below l'
         end)%list children
  end.

Definition isElementNamed (tags : list string) (n : node) : bool :=
  match n with
  | Element t _ => existsb (String.eqb t) tags
  | Text _ => false
  end.

(** [scope.querySelectorAll('a, b')] for a list of type selectors. *)
Definition querySelectorAll (scope : node) (tags : list string) : list node :=
  filter (isElementNamed tags) (descendants scope).

(** [scope.querySelector('a')]: the first match, or [null]. *)
Definition querySelector (scope : node) (tag : string) : option node :=
  hd_error (querySelectorAll scope [tag]).

(** [node.textContent] *)
Fixpoint textContent (n : node) : string :=
  match n with
  | Text data => data
  | Element _ children =>
      (fix concat (l : list node) : string :=
         match l with
         | [] => EmptyString
         | c :: l' => textContent c ++ concat l'
         end) children
  end.

End DOM.

(* ================================================================== *)
(** * The data model ([types/transcript]) *)
(* ================================================================== *)

(** At run time the optional and the [any]-typed fields hold whatever
    the input held, so they are dynamic values; a missing optional
    field is [undefined]. *)

Module Segment.
Record t : Type := mk {
  id : string;
  text : string;
  timestamp : JS.number;
  speaker : JS.value;
  confidence : JS.value
}.
End Segment.
Definition TranscriptSegment : Type := Segment.t.

Module Episode.
Record t : Type := mk {
  id : string;
  title : JS.value;
  podcastTitle : JS.value;
  duration : JS.value;
  publishDate : JS.value;
  description : JS.value;
  transcript : list TranscriptSegment
}.
End Episode.
Definition Episode : Type := Episode.t.

Module Result.
Record t : Type := mk {
  segmentId : string;
  episodeId : string;
  text : string;
  timestamp : JS.number;
  highlightedText : string
}.
End Result.
Definition SearchResult : Type := Result.t.

Record FileProcessingResult : Type := mkResult {
  episodes : list Episode;
  errors : list string
}.

(** [for]/[forEach] with a body that may throw. *)
Fixpoint foldOutcome {A S : Type} (body : S -> A -> Outcome S) (l : list A) (acc : S)
  : Outcome S :=
  match l with
  | [] => Ret acc
  | x :: l' => (acc' <- body acc x ;; foldOutcome body l' acc')%outcome
  end.

(* ================================================================== *)
(** * [SearchEngine] ([utils/searchEngine.ts]) *)
(* ================================================================== *)

Module SearchEngine.
Import JS RegExp.
Local Open Scope outcome_scope.

(** *** The arrays of the program

    [search] sorts an array in place, so arrays are kept in a store and
    named by their address: the array handed to [setEpisodes] and held
    in [this.episodes], and the [results] array of each call.  An
    episode and its transcript are part of the array that holds it. *)

Definition address : Type := nat.

Inductive cell : Type :=
| EpisodeArray (items : list Episode)
| ResultArray (items : list SearchResult).

(** The store, and the one private field of the object. *)
Record state : Type := mkState {
  heap : list cell;
  this_episodes : address
}.

Definition Mem (A : Type) : Type := state -> Outcome A * state.

Definition ret {A} (a : A) : Mem A := fun st => (Ret a, st).

Definition bind {A B} (m : Mem A) (k : A -> Mem B) : Mem B :=
  fun st =>
    match m st with
    | (Ret a, st') => k a st'
    | (Throw e, st') => (Throw e, st')
    | (Diverge, st') => (Diverge, st')
    end.

Definition lift {A} (o : Outcome A) : Mem A := fun st => (o, st).

Declare Scope mem_scope.
Delimit Scope mem_scope with mem.
Notation "x <- m ;; k" := (bind m (fun x => k))
  (at level 61, m at next level, right associativity) : mem_scope.

Definition update (a : address) (c : cell) (h : list cell) : list cell :=
  (firstn a h ++ c :: skipn (S a) h)%list.

(** The array literal [[]]: a fresh array. *)
Definition newResults : Mem address :=
  fun st => (Ret (List.length (heap st)),
             mkState (heap st ++ [ResultArray []])%list (this_episodes st)).

(** The elements of [this.episodes], for [forEach] and [find]. *)
Definition readEpisodes : Mem (list Episode) :=
  fun st =>
    match nth_error (heap st) (this_episodes st) with
    | Some (EpisodeArray items) => (Ret items, st)
    | _ => (Throw "this.episodes is not an array of episodes", st)
    end.

(** [results.push(r)] *)
Definition push (results : address) (r : SearchResult) : Mem unit :=
  fun st =>
    match nth_error (heap st) results with
    | Some (ResultArray items) =>
        (Ret tt,
         mkState (update results (ResultArray (items ++ [r])%list) (heap st))
                 (this_episodes st))
    | _ => (Throw "results.push is not a function", st)
    end.

(** [results.sort(comparefn)]: the array at [results] is overwritten
    with its elements in sorted order. *)
Definition sortInPlace (results : address)
  (comparefn : SearchResult -> SearchResult -> Outcome number) : Mem unit :=
  fun st =>
    match nth_error (heap st) results with
    | Some (ResultArray items) =>
        match sort comparefn items with
        | Ret sorted =>
            (Ret tt,
             mkState (update results (ResultArray sorted) (heap st))
                     (this_episodes st))
        | Throw e => (Throw e, st)
        | Diverge => (Diverge, st)
        end
    | _ => (Throw "results.sort is not a function", st)
    end.

Fixpoint forEach {A} (l : list A) (body : A -> Mem unit) : Mem unit :=
  match l with
  | [] => ret tt
  | x :: l' => (_ <- body x ;; forEach l' body)%mem
  end.

(** *** The class *)

Record options : Type := mkOptions {
  caseSensitive : option bool;
  wholeWords : option bool
}.

(** An optional flag used as a condition: [undefined] is falsy. *)
Definition on (flag : option bool) : bool :=
  match flag with Some b => b | None => false end.

(** [new SearchEngine()]: the field starts as a fresh empty array. *)
Definition construct (h : list cell) : state :=
  mkState (h ++ [EpisodeArray []])%list (List.length h).

(** [setEpisodes] keeps the reference it is given; it copies nothing. *)
Definition setEpisodes (episodes : address) : Mem unit :=
  fun st => (Ret tt, mkState (heap st) episodes).

(** [/[.*+?^${}()|[\]\\]/g] *)
Definition metacharacters : regex :=
  mkRegex
    [NChar (CSet false
       (map (fun c => (c, c))
          ["."; "*"; "+"; "?"; "^"; "$"; "{"; "}"; "("; ")"; "|"; "["; "]"; "\"]%char))]
    true false.

Definition escapeRegex (str : string) : string :=
  replace str metacharacters "\$&".

Definition matchesQuery (text query : string) (wholeWords : option bool)
  : Outcome bool :=
  if on wholeWords then
    regex <- RegExp ("\b" ++ escapeRegex query ++ "\b") "gi" ;;
    Ret (test regex text)
  else Ret (includes text query).

(** The [while] loop of [countMatches]; it does not end on an empty
    [searchQuery], which is what running out of [fuel] stands for. *)
Fixpoint countLoop (fuel : nat) (searchText searchQuery : string) (pos count : nat)
  : Outcome nat :=
  match fuel with
  | 0 => Diverge
  | S fuel' =>
      match indexOf searchText searchQuery pos with
      | None => Ret count
      | Some found =>
          countLoop fuel' searchText searchQuery
            (found + String.length searchQuery) (S count)
      end
  end.

Definition countMatches (text query : string) (wholeWords : option bool)
  : Outcome nat :=
  let searchText := toLowerCase text in
  let searchQuery := toLowerCase query in
  if on wholeWords then
    regex <- RegExp ("\b" ++ escapeRegex searchQuery ++ "\b") "gi" ;;
    match matchAll regex searchText with
    | Some matches => Ret (List.length matches)
    | None => Ret 0
    end
  else countLoop (S (String.length searchText)) searchText searchQuery 0 0.

Definition markOpen : string :=
  "<mark class=" ++ String DQUOTE "bg-yellow-200 dark:bg-yellow-600 px-1 rounded"
  ++ String DQUOTE ">".
Definition markClose : string := "</mark>".

Definition highlightMatches (text query : string) (caseSensitive : option bool)
  : Outcome string :=
  if isEmpty (trim query) then Ret text
  else
    let flags := if on caseSensitive then "g" else "gi" in
    let escapedQuery := escapeRegex query in
    regex <- RegExp ("(" ++ escapedQuery ++ ")") flags ;;
    Ret (replace text regex (markOpen ++ "$1" ++ markClose)).

(** The comparator handed to [results.sort]. *)
Definition byRelevance (searchQuery : string) (opts : options) (a b : SearchResult)
  : Outcome number :=
  aMatches <- countMatches (Result.text a) searchQuery (wholeWords opts) ;;
  bMatches <- countMatches (Result.text b) searchQuery (wholeWords opts) ;;
  if negb (aMatches =? bMatches)
  then Ret (numSub (ofNat bMatches) (ofNat aMatches))
  else Ret (numSub (Result.timestamp a) (Result.timestamp b)).

(** [search] returns the address of the array it built. *)
Definition search (query : string) (opts : options) : Mem address :=
  (if isEmpty (trim query) then newResults
   else
     results <- newResults ;;
     let searchQuery := if on (caseSensitive opts) then query else toLowerCase query in
     episodes <- readEpisodes ;;
     _ <- forEach episodes (fun episode =>
       forEach (Episode.transcript episode) (fun segment =>
         let text := if on (caseSensitive opts)
                     then Segment.text segment
                     else toLowerCase (Segment.text segment) in
         hit <- lift (matchesQuery text searchQuery (wholeWords opts)) ;;
         if hit then
           highlighted <- lift (highlightMatches (Segment.text segment) query
                                  (caseSensitive opts)) ;;
           push results
             (Result.mk (Segment.id segment) (Episode.id episode)
                (Segment.text segment) (Segment.timestamp segment) highlighted)
         else ret tt)) ;;
     _ <- sortInPlace results (byRelevance searchQuery opts) ;;
     ret results)%mem.

Definition getEpisodeById (episodeId : string) : Mem (option Episode) :=
  (episodes <- readEpisodes ;;
   ret (find (fun episode => String.eqb (Episode.id episode) episodeId) episodes))%mem.

Definition getSegmentById (episodeId segmentId : string)
  : Mem (option TranscriptSegment) :=
  (episode <- getEpisodeById episodeId ;;
   ret (match episode with
        | Some e =>
            find (fun segment => String.eqb (Segment.id segment) segmentId)
                 (Episode.transcript e)
        | None => None
        end))%mem.

End SearchEngine.

(* ================================================================== *)
(** * [FileParser] (the file processor) *)
(* ================================================================== *)

(** ** Effects

    The parser reads files, asks the clock and the random generator,
    and catches exceptions.  A computation threads the [World]: how
    many times the clock or the generator were asked, and the names of
    the files and archive entries whose contents were read so far. *)

Record World : Type := mkWorld {
  ticks : nat;
  reads : list string
}.

Definition Eff (A : Type) : Type := World -> Outcome A * World.

Definition ret {A} (a : A) : Eff A := fun w => (Ret a, w).

Definition bind {A B} (m : Eff A) (k : A -> Eff B) : Eff B :=
  fun w =>
    match m w with
    | (Ret a, w') => k a w'
    | (Throw e, w') => (Throw e, w')
    | (Diverge, w') => (Diverge, w')
    end.

(** A pure computation that may throw, run for its completion. *)
Definition lift {A} (o : Outcome A) : Eff A := fun w => (o, w).

(** [try { body } catch (error) { handler(error.message) }] *)
Definition tryCatch {A} (body : Eff A) (handler : string -> Eff A) : Eff A :=
  fun w =>
    match body w with
    | (Throw e, w') => handler e w'
    | r => r
    end.

Declare Scope eff_scope.
Delimit Scope eff_scope with eff.
Notation "x <- m ;; k" := (bind m (fun x => k))
  (at level 61, m at next level, right associativity) : eff_scope.

(** What the browser and the libraries provide.  The clock and the
    generator answer by the number of questions asked before. *)
Record Platform : Type := mkPlatform {
  JSON_parse : string -> Outcome JS.value;
  DOMParser_parseFromString : string -> DOM.node;     (* the document *)
  Date_now : nat -> nat;
  Math_random_toString36 : nat -> string;
  Date_toISOString : nat -> string
}.

(** An entry of [contents.files] after [JSZip.loadAsync]. *)
Record ZipEntry : Type := mkEntry {
  dir : bool;
  entryText : Outcome string                  (* zipEntry.async('text') *)
}.

(** A [File] as the code sees it: its attributes, what [file.text()]
    resolves to, and what [JSZip.loadAsync(file)] makes of its bytes
    (the entries by name, in enumeration order). *)
Module File.
Record t : Type := mk {
  name : string;
  size : nat;
  type : string;
  text : Outcome string;
  archive : Outcome (list (string * ZipEntry))
}.
End File.
Definition File : Type := File.t.

Module FileParser.
Import JS.

(** *** Pure helpers of the class *)

Definition looksLikeTranscript (content : string) : bool :=
  let transcriptIndicators :=
    ["transcript"; "speaker"; "timestamp"; "time"; "text"; "dialogue";
     "conversation"] in
  let lowerContent := toLowerCase content in
  let indicatorCount :=
    List.length (filter (fun indicator => includes lowerContent indicator)
                        transcriptIndicators) in
  2 <=? indicatorCount.

(** [/^https?:\/\//], [/^\d+$/], [/^[A-Z_]+$/], [/^\w+\.\w+$/] *)
Definition metadataPatterns : list RegExp.regex :=
  let lit c := RegExp.NChar (RegExp.CLit c) in
  map (fun p => RegExp.mkRegex p false false)
    [ [RegExp.NBol; lit "h"; lit "t"; lit "t"; lit "p";
       RegExp.NOpt (RegExp.CLit "s"); lit ":"; lit "/"; lit "/"]%char;
      [RegExp.NBol; RegExp.NPlus RegExp.CDigit; RegExp.NEol];
      [RegExp.NBol;
       RegExp.NPlus (RegExp.CSet false [("A", "Z"); ("_", "_")]%char);
       RegExp.NEol];
      [RegExp.NBol; RegExp.NPlus RegExp.CWord; lit "."%char;
       RegExp.NPlus RegExp.CWord; RegExp.NEol] ].

Definition looksLikeTranscriptText (text : string) : bool :=
  negb (existsb (fun pattern => RegExp.test pattern text) metadataPatterns)
  && (3 <? List.length (split " " text)).

(** [/\.[^/.]+$/] *)
Definition extensionPattern : RegExp.regex :=
  RegExp.mkRegex
    [RegExp.NChar (RegExp.CLit ".");
     RegExp.NPlus (RegExp.CSet true [("/", "/"); (".", ".")]%char);
     RegExp.NEol]
    false false.

Definition stripExtension (filename : string) : string :=
  RegExp.replace filename extensionPattern "".

Definition segmentId (index : nat) : string := "segment-" ++ natToString index.

(** The chain [a.k1 || a.k2 || ... || last]. *)
Fixpoint firstTruthy (v : value) (keys : list string) (last : value) : Outcome value :=
  match keys with
  | [] => Ret last
  | key :: keys' =>
      (x <- get v key ;;
       if truthy x then Ret x else firstTruthy v keys' last)%outcome
  end.

(** The chain [a.k1 || a.k2 || ... || a.kn], ending on a property. *)
Fixpoint orProps (v : value) (keys : list string) : Outcome value :=
  match keys with
  | [] => Ret Undefined
  | [key] => get v key
  | key :: keys' =>
      (x <- get v key ;;
       if truthy x then Ret x else orProps v keys')%outcome
  end.

(** The callback of [transcriptData.forEach] in [extractSegments]: the
    segment normalizer.  [None] when nothing is pushed. *)
Definition normalizeSegment (segment : value) (index : nat)
  : Outcome (option TranscriptSegment) :=
  (parts <-
     (match segment with
      | Str s => Ret (Str s, ofNat (index * 5), Undefined)
      | Obj _ | Arr _ =>
          text <- firstTruthy segment
                    ["text"; "content"; "transcript"; "body"; "message"]
                    (Str "") ;;
          stamp <- firstTruthy segment ["timestamp"; "time"; "start"; "startTime"]
                     (Num (ofNat (index * 5))) ;;
          timestamp <- parseFloat stamp ;;
          speaker <- firstTruthy segment ["speaker"; "name"; "author"] Undefined ;;
          Ret (text, timestamp, speaker)
      | _ => Ret (Str "", ofNat 0, Undefined)
      end) ;;
   let '(text, timestamp, speaker) := parts in
   if truthy text then
     match text with
     | Str s =>
         if isEmpty (trim s) then Ret None
         else
           confidence <- get segment "confidence" ;;
           Ret (Some (Segment.mk (segmentId index) (trim s) timestamp speaker
                        confidence))
     | _ => Throw "text.trim is not a function"
     end
   else Ret None)%outcome.

Fixpoint normalizeFrom (index : nat) (items : list value)
  : Outcome (list TranscriptSegment) :=
  match items with
  | [] => Ret []
  | segment :: items' =>
      (pushed <- normalizeSegment segment index ;;
       rest <- normalizeFrom (S index) items' ;;
       Ret (match pushed with Some seg => seg :: rest | None => rest end))%outcome
  end.

Definition extractSegments (data : value) : Outcome (list TranscriptSegment) :=
  (transcriptData <-
     firstTruthy data
       ["transcript"; "segments"; "lines"; "transcriptSegments"; "items"]
       (Arr []) ;;
   match transcriptData with
   | Arr items => normalizeFrom 0 items
   | _ => Ret []
   end)%outcome.

Definition calculateDuration (segments : list TranscriptSegment) : number :=
  match List.rev segments with
  | [] => ofNat 0
  | lastSegment :: _ => numAdd (Segment.timestamp lastSegment) (ofNat 30)
  end.

(** A segment object built by the class, handed on as [any]. *)
Definition segmentValue (seg : TranscriptSegment) : value :=
  Obj [("id", Str (Segment.id seg));
       ("text", Str (Segment.text seg));
       ("timestamp", Num (Segment.timestamp seg));
       ("speaker", Segment.speaker seg);
       ("confidence", Segment.confidence seg)].

Section WithPlatform.
Context (platform : Platform).
Local Open Scope eff_scope.

(** One question to the clock or to the generator. *)
Definition ask {A} (oracle : nat -> A) : Eff A :=
  fun w => (Ret (oracle (ticks w)), mkWorld (S (ticks w)) (reads w)).

(** [await file.text()] *)
Definition readText (file : File) : Eff string :=
  fun w => (File.text file, mkWorld (ticks w) (reads w ++ [File.name file])%list).

(** [await zip.loadAsync(file)] *)
Definition loadAsync (file : File) : Eff (list (string * ZipEntry)) :=
  fun w => (File.archive file, mkWorld (ticks w) (reads w ++ [File.name file])%list).

(** [await zipEntry.async('text')] *)
Definition readEntry (filename : string) (zipEntry : ZipEntry) : Eff string :=
  fun w => (entryText zipEntry, mkWorld (ticks w) (reads w ++ [filename])%list).

Definition generateId : Eff string :=
  now <- ask (Date_now platform) ;;
  random <- ask (Math_random_toString36 platform) ;;
  ret ("episode-" ++ natToString now ++ "-" ++ String.substring 2 9 random).

(** [new Date().toISOString()] *)
Definition isoNow : Eff string := ask (Date_toISOString platform).

(** [v || new Date().toISOString()] *)
Definition orNow (v : value) : Eff value :=
  if truthy v then ret v else (now <- isoNow ;; ret (Str now)).

Definition createEpisodeFromText (content filename : string) : Eff Episode :=
  let lines :=
    filter (fun line => 0 <? String.length (trim line)) (split LF content) in
  let segments :=
    flat_map (fun entry =>
      let '(index, line) := entry in
      let trimmedLine := trim line in
      if 10 <? String.length trimmedLine
      then [Segment.mk (segmentId index) trimmedLine (ofNat (index * 5))
              Undefined Undefined]
      else []) (indexed_from 0 lines) in
  id <- generateId ;;
  publishDate <- isoNow ;;
  ret (Episode.mk id (Str (stripExtension filename)) (Str "Imported Podcast")
         (Num (ofNat (List.length segments * 5))) (Str publishDate) Undefined
         segments).

Definition createEpisodeFromSegments (segments : value) (filename : string)
  : Eff (option Episode) :=
  transcriptSegments <- lift (extractSegments (Obj [("segments", segments)])) ;;
  if List.length transcriptSegments =? 0 then ret None
  else
    id <- generateId ;;
    publishDate <- isoNow ;;
    ret (Some (Episode.mk id (Str (stripExtension filename)) (Str "Imported Podcast")
                 (Num (calculateDuration transcriptSegments)) (Str publishDate)
                 Undefined transcriptSegments)).

Definition extractEpisodeFromData (data : value) (filename : string)
  : Eff (option Episode) :=
  _ <- lift (objectKeys data) ;;
  segments <- lift (extractSegments data) ;;
  if List.length segments =? 0 then ret None
  else
    id <- generateId ;;
    title <- lift (firstTruthy data ["title"; "episodeTitle"; "name"] (Str filename)) ;;
    podcastTitle <- lift (firstTruthy data ["podcastTitle"; "showTitle"; "podcast"]
                            (Str "Unknown Podcast")) ;;
    duration <- lift (firstTruthy data ["duration"]
                        (Num (calculateDuration segments))) ;;
    date <- lift (firstTruthy data ["publishDate"; "date"; "pubDate"] Undefined) ;;
    publishDate <- orNow date ;;
    description <- lift (orProps data ["description"; "summary"]) ;;
    ret (Some (Episode.mk id title podcastTitle duration publishDate
                 description segments)).

Definition extractApplePodcastEpisode (data : value) (filename : string)
  : Eff (option Episode) :=
  episodeData <- lift (firstTruthy data ["MTEpisode"; "episode"] data) ;;
  transcriptData <-
    lift (orProps episodeData
            ["transcript"; "transcriptSegments"; "segments"; "lines"]) ;;
  if negb (truthy transcriptData) then ret None
  else
    segments <- lift (extractSegments (Obj [("segments", transcriptData)])) ;;
    if List.length segments =? 0 then ret None
    else
      id <- generateId ;;
      title <- lift (firstTruthy episodeData ["title"; "name"] (Str filename)) ;;
      podcastTitle <- lift (firstTruthy episodeData
                              ["podcastTitle"; "showTitle"; "podcast"]
                              (Str "Unknown Podcast")) ;;
      duration <- lift (firstTruthy episodeData ["duration"]
                          (Num (calculateDuration segments))) ;;
      date <- lift (firstTruthy episodeData ["publishDate"; "date"; "pubDate"]
                      Undefined) ;;
      publishDate <- orNow date ;;
      description <- lift (orProps episodeData ["description"; "summary"]) ;;
      ret (Some (Episode.mk id title podcastTitle duration publishDate
                   description segments)).

(** The last loop of [parseJsonContent]: the first property whose value
    is a non-empty array of segment-like objects decides. *)
Fixpoint scanEntries (entries : list (string * value)) (filename : string)
  : Eff (option Episode) :=
  match entries with
  | [] => ret None
  | (key, value) :: entries' =>
      match value with
      | Arr (firstItem :: _) =>
          if typeofObject firstItem then
            hint <- lift (orProps firstItem ["text"; "content"]) ;;
            if truthy hint then createEpisodeFromSegments value filename
            else scanEntries entries' filename
          else scanEntries entries' filename
      | _ => scanEntries entries' filename
      end
  end.

Definition parseJsonContent (content filename : string) : Eff (option Episode) :=
  tryCatch
    (data <- lift (JSON_parse platform content) ;;
     _ <- lift (objectKeys data) ;;
     apple <- lift (orProps data ["MTEpisode"; "episode"]) ;;
     if truthy apple then extractApplePodcastEpisode data filename
     else
       episodes <- lift (get data "episodes") ;;
       multiple <-
         (match episodes with
          | Arr items => extractEpisodeFromData (nth 0 items Undefined) filename
          | _ => ret None
          end) ;;
       match multiple with
       | Some episode => ret (Some episode)
       | None =>
           single <- lift (orProps data ["transcript"; "segments"; "lines"]) ;;
           if truthy single then extractEpisodeFromData data filename
           else
             let scan := entries <- lift (objectEntries data) ;;
                         scanEntries entries filename in
             match data with
             | Arr (first :: _) =>
                 asSegment <- lift (orProps first ["text"; "content"]) ;;
                 if truthy asSegment then createEpisodeFromSegments data filename
                 else
                   asEpisode <- lift (orProps first ["transcript"; "segments"]) ;;
                   if truthy asEpisode then extractEpisodeFromData first filename
                   else scan
             | _ => scan
             end
       end)
    (fun _ => ret None).

(** The values assigned to [segmentData], latest first. *)
Definition pairUp (keys values : list DOM.node) : list (string * value) :=
  fold_left (fun segmentData kv =>
    let key := toLowerCase (DOM.textContent (fst kv)) in
    let value := DOM.textContent (snd kv) in
    if negb (isEmpty key) && negb (isEmpty value)
    then (key, Str value) :: segmentData
    else segmentData) (combine keys values) [].

(** The primary strategy of [extractTranscriptFromPlist]: the [dict]
    elements that carry a text-like key. *)
Definition dictSegments (xmlDoc : DOM.node) : Outcome (list TranscriptSegment) :=
  foldOutcome (fun segments entry =>
    let '(dictIndex, dict) := entry in
    let keys := DOM.querySelectorAll dict ["key"] in
    let values := DOM.querySelectorAll dict ["string"; "real"; "integer"] in
    let segmentData := Obj (pairUp keys values) in
    (text <- orProps segmentData ["text"; "content"; "transcript"] ;;
     if truthy text then
       stamp <- firstTruthy segmentData ["timestamp"; "time"]
                  (Num (ofNat (dictIndex * 5))) ;;
       timestamp <- parseFloat stamp ;;
       speaker <- orProps segmentData ["speaker"; "name"] ;;
       Ret (segments ++
              [Segment.mk (segmentId dictIndex)
                 (match text with Str s => s | _ => EmptyString end)
                 timestamp speaker Undefined])%list
     else Ret segments)%outcome)
    (indexed_from 0 (DOM.querySelectorAll xmlDoc ["dict"])) [].

(** Its fallback: the [string] elements that look like spoken text. *)
Definition stringSegments (accept : string -> bool) (xmlDoc : DOM.node)
  : list TranscriptSegment :=
  flat_map (fun entry =>
    let '(index, element) := entry in
    let text := trim (DOM.textContent element) in
    if negb (isEmpty text) && (20 <? String.length text) && accept text
    then [Segment.mk (segmentId index) text (ofNat (index * 5)) Undefined Undefined]
    else [])
    (indexed_from 0 (DOM.querySelectorAll xmlDoc ["string"])).

Definition extractTranscriptFromPlist (xmlDoc : DOM.node)
  : Outcome (option (list TranscriptSegment)) :=
  (structured <- dictSegments xmlDoc ;;
   let segments :=
     if List.length structured =? 0
     then stringSegments looksLikeTranscriptText xmlDoc
     else structured in
   Ret (if 0 <? List.length segments then Some segments else None))%outcome.

Definition parsePlistContent (content filename : string) : Eff (option Episode) :=
  tryCatch
    (let xmlDoc := DOMParser_parseFromString platform content in
     match DOM.querySelector xmlDoc "parsererror" with
     | Some _ => ret None
     | None =>
         transcriptData <- lift (extractTranscriptFromPlist xmlDoc) ;;
         match transcriptData with
         | Some segments =>
             createEpisodeFromSegments (Arr (map segmentValue segments)) filename
         | None =>
             let textSegments := stringSegments (fun _ => true) xmlDoc in
             if 0 <? List.length textSegments
             then createEpisodeFromSegments (Arr (map segmentValue textSegments))
                    filename
             else ret None
         end
     end)
    (fun _ => ret None).

Definition processJsonFile (file : File) : Eff (option Episode) :=
  content <- readText file ;;
  parseJsonContent content (File.name file).

Definition processPlistFile (file : File) : Eff (option Episode) :=
  content <- readText file ;;
  parsePlistContent content (File.name file).

Definition processGenericFile (file : File) : Eff (option Episode) :=
  tryCatch
    (content <- readText file ;;
     fromJson <- tryCatch (parseJsonContent content (File.name file))
                   (fun _ => ret None) ;;
     match fromJson with
     | Some episode => ret (Some episode)
     | None =>
         fromPlist <- tryCatch (parsePlistContent content (File.name file))
                        (fun _ => ret None) ;;
         match fromPlist with
         | Some episode => ret (Some episode)
         | None =>
             if (100 <? String.length content) && looksLikeTranscript content
             then episode <- createEpisodeFromText content (File.name file) ;;
                  ret (Some episode)
             else ret None
         end
     end)
    (fun _ => ret None).

Definition pushEpisode (result : FileProcessingResult) (episode : option Episode)
  : FileProcessingResult :=
  match episode with
  | Some e => mkResult (episodes result ++ [e])%list (errors result)
  | None => result
  end.

Definition pushError (result : FileProcessingResult) (message : string)
  : FileProcessingResult :=
  mkResult (episodes result) (errors result ++ [message])%list.

(** One archive entry; every failure inside it becomes an error. *)
Definition processZipEntry (result : FileProcessingResult)
  (entry : string * ZipEntry) : Eff FileProcessingResult :=
  let '(filename, zipEntry) := entry in
  if dir zipEntry then ret result
  else
    tryCatch
      (content <- readEntry filename zipEntry ;;
       if endsWith filename ".json" then
         episode <- parseJsonContent content filename ;;
         ret (pushEpisode result episode)
       else if endsWith filename ".plist" || endsWith filename ".xml" then
         episode <- parsePlistContent content filename ;;
         ret (pushEpisode result episode)
       else if includes filename "transcript" || looksLikeTranscript content then
         episode <- createEpisodeFromText content filename ;;
         if 0 <? List.length (Episode.transcript episode)
         then ret (pushEpisode result (Some episode))
         else ret result
       else ret result)
      (fun message =>
         ret (pushError result ("Error processing " ++ filename ++ ": " ++ message))).

Fixpoint foldEff {A S : Type} (body : S -> A -> Eff S) (l : list A) (acc : S) : Eff S :=
  match l with
  | [] => ret acc
  | x :: l' => acc' <- body acc x ;; foldEff body l' acc'
  end.

Definition processZipFile (file : File) : Eff FileProcessingResult :=
  let result := mkResult [] [] in
  tryCatch
    (contents <- loadAsync file ;;
     foldEff processZipEntry contents result)
    (fun message => ret (pushError result ("Error reading ZIP file: " ++ message))).

(** The body of the loop of [processFiles], with its [try]/[catch]. *)
Definition processFile (result : FileProcessingResult) (file : File)
  : Eff FileProcessingResult :=
  let name := File.name file in
  tryCatch
    (if String.eqb (File.type file) "" && (File.size file =? 0) then
       ret (pushError result
              ("Cannot process directory " ++ String DQUOTE name ++
               String DQUOTE ". Please select individual files instead."))
     else if endsWith name ".zip" then
       zipResult <- processZipFile file ;;
       ret (mkResult (episodes result ++ episodes zipResult)%list
                     (errors result ++ errors zipResult)%list)
     else if endsWith name ".json" then
       episode <- processJsonFile file ;;
       ret (pushEpisode result episode)
     else if endsWith name ".plist" || endsWith name ".xml" then
       episode <- processPlistFile file ;;
       ret (pushEpisode result episode)
     else if endsWith name ".sqlite" || endsWith name ".db" then
       ret (pushError result
              ("SQLite files (" ++ name ++ ") cannot be processed in the browser. "
               ++ "Please look for JSON or PLIST files in the podcast data folder."))
     else if includes name "transcript" || includes name "Transcript" then
       episode <- processGenericFile file ;;
       ret (pushEpisode result episode)
     else
       episode <- processGenericFile file ;;
       ret (pushEpisode result episode))
    (fun message =>
       ret (pushError result ("Error processing " ++ name ++ ": " ++ message))).

Definition processFiles (files : list File) : Eff FileProcessingResult :=
  foldEff processFile files (mkResult [] []).

End WithPlatform.
End FileParser.

(** ** Sample inputs *)

(** The document a browser returns for a payload that is not XML. *)
Definition parserErrorDocument : DOM.node :=
  DOM.Element "#document"
    [DOM.Element "parsererror" [DOM.Text "error on line 1 at column 1"]].

(** A platform for payloads that are neither JSON nor XML: both parsers
    reject what they are given. *)
Definition plainTextPlatform : Platform :=
  mkPlatform
    (fun _ => Throw "Unexpected token")
    (fun _ => parserErrorDocument)
    (fun tick => 1000 + tick)
    (fun _ => "0.4fzyo82mvyr")
    (fun _ => "2024-05-01T10:00:00.000Z").

Definition freshWorld : World := mkWorld 0 [].

Fixpoint unlines (lines : list string) : string :=
  match lines with
  | [] => EmptyString
  | [line] => line
  | line :: rest => line ++ String JS.LF (unlines rest)
  end.

(** Twelve lines of nine characters: 119 characters in all, with the
    keywords [time] and [text]. *)
Definition shortLines : string := unlines (repeat "time text" 12).


Definition textFile (name content : string) : File :=
  File.mk name (String.length content) "text/plain" (Ret content)
    (Throw "Can't find end of central directory").

(** A parser that knows the listed payloads and rejects the others. *)
Definition parserFor (known : list (string * DOM.node)) (content : string) : DOM.node :=
  match find (fun entry => String.eqb (fst entry) content) known with
  | Some entry => snd entry
  | None => parserErrorDocument
  end.

Definition xmlPlatform (known : list (string * DOM.node)) : Platform :=
  mkPlatform
    (fun _ => Throw "Unexpected token <")
    (parserFor known)
    (fun tick => 1000 + tick)
    (fun _ => "0.4fzyo82mvyr")
    (fun _ => "2024-05-01T10:00:00.000Z").

(** A property list whose only string is the address of a feed. *)
Definition feedSource : string :=
  "<plist><dict><key>feedUrl</key><string>https://example.com/feeds/episode-42.mp3</string></dict></plist>".

Definition feedDocument : DOM.node :=
  DOM.Element "#document"
    [DOM.Element "plist"
       [DOM.Element "dict"
          [DOM.Element "key" [DOM.Text "feedUrl"];
           DOM.Element "string"
             [DOM.Text "https://example.com/feeds/episode-42.mp3"]]]].

(** A property list with one sentence and one address. *)
Definition notesDocument : DOM.node :=
  DOM.Element "#document"
    [DOM.Element "plist"
       [DOM.Element "array"
          [DOM.Element "string" [DOM.Text "  Welcome back to the show everyone  "];
           DOM.Element "string"
             [DOM.Text "https://example.com/feeds/episode-42.mp3"]]]].

Definition segmentOf (id text : string) (timestamp : JS.number) : TranscriptSegment :=
  Segment.mk id text timestamp JS.Undefined JS.Undefined.

Definition episodeOf (id : string) (segments : list TranscriptSegment) : Episode :=
  Episode.mk id (JS.Str "Episode") (JS.Str "Podcast") (JS.Num (JS.ofNat 60))
    (JS.Str "2024-05-01T10:00:00.000Z") JS.Undefined segments.

(** An engine that was given [corpus], in a store that holds nothing
    else. *)
Definition engineWith (corpus : list Episode) : SearchEngine.state :=
  SearchEngine.mkState [SearchEngine.EpisodeArray corpus] 0.

(** Two episodes about a fox. *)
Definition foxCorpus : list Episode :=
  [episodeOf "A" [segmentOf "segment-0" "The quick brown fox" (JS.ofNat 10)];
   episodeOf "B" [segmentOf "segment-0" "Quick, quick: a Quick fox" (JS.ofNat 5);
                  segmentOf "segment-1" "Nothing here" (JS.ofNat 0)]].

(** Three segments with the same text; the second one was given a
    timestamp that [parseFloat] could not read. *)
Definition untimedCorpus : list Episode :=
  [episodeOf "A" [segmentOf "segment-0" "x" (JS.ofNat 2);
                  segmentOf "segment-1" "x" JS.NaN;
                  segmentOf "segment-2" "x" (JS.ofNat 1)]].

Definition defaults : SearchEngine.options := SearchEngine.mkOptions None None.
Definition exactCase : SearchEngine.options := SearchEngine.mkOptions (Some true) None.

(** ** Vocabulary of the statements *)

(** What [segment.key] evaluates to on a record. *)
Definition prop (fields : list (string * JS.value)) (key : string) : JS.value :=
  match JS.lookup fields key with
  | Some x => x
  | None => JS.Undefined
  end.

(** The value of [segment.k1 || ... || last] on a record. *)
Fixpoint firstOf (fields : list (string * JS.value)) (keys : list string)
  (last : JS.value) : JS.value :=
  match keys with
  | [] => last
  | key :: keys' =>
      if JS.truthy (prop fields key) then prop fields key
      else firstOf fields keys' last
  end.

Definition textAliases : list string :=
  ["text"; "content"; "transcript"; "body"; "message"].
Definition timestampAliases : list string :=
  ["timestamp"; "time"; "start"; "startTime"].
Definition speakerAliases : list string := ["speaker"; "name"; "author"].

Definition emptyResult : FileProcessingResult := mkResult [] [].

Definition mergeResults (a b : FileProcessingResult) : FileProcessingResult :=
  mkResult (episodes a ++ episodes b)%list (errors a ++ errors b)%list.

Definition mapOutcome {A B} (f : A -> B) (o : Outcome A) : Outcome B :=
  match o with
  | Ret a => Ret (f a)
  | Throw e => Throw e
  | Diverge => Diverge
  end.

(** The error pushed for a database file. *)
Definition sqliteMessage (name : string) : string :=
  "SQLite files (" ++ name ++ ") cannot be processed in the browser. "
  ++ "Please look for JSON or PLIST files in the podcast data folder.".

(** No metadata pattern of [looksLikeTranscriptText] matches. *)
Definition noMetadata (text : string) : Prop :=
  forall pattern, In pattern FileParser.metadataPatterns ->
                  RegExp.test pattern text = false.

(** A segment object that the normalizer keeps. *)
Definition wellFormed (seg : TranscriptSegment) : Prop :=
  JS.trim (Segment.text seg) = Segment.text seg /\ Segment.text seg <> EmptyString.

Definition startsClean (s : string) : Prop :=
  match s with
  | EmptyString => True
  | String c _ => JS.isWhiteSpace c = false
  end.

(** *** Highlighting, said directly *)

(** The query read as a pattern: its code units, one by one. *)
Definition literal (query : string) : RegExp.pattern :=
  map (fun c => RegExp.NChar (RegExp.CLit c)) (list_ascii_of_string query).

(** Escaping, said directly: a backslash before each syntax character. *)
Fixpoint escapeChars (s : string) : string :=
  match s with
  | EmptyString => EmptyString
  | String c s' =>
      if RegExp.isSyntaxChar c
      then String "\" (String c (escapeChars s'))
      else String c (escapeChars s')
  end.

(** [query] occurs at the start of [s]: code unit by code unit, up to
    case when [ic] is set. *)
Fixpoint occursAt (ic : bool) (query s : string) : bool :=
  match query with
  | EmptyString => true
  | String c query' =>
      match s with
      | EmptyString => false
      | String a s' =>
          RegExp.charMatches ic (RegExp.CLit c) a && occursAt ic query' s'
      end
  end.

(** A text cut into the code units left alone and the spans wrapped. *)
Inductive piece : Type :=
| Plain (c : ascii)
| Marked (span : string).

(** The occurrences of [query] in [s], left to right and without
    overlap; [skip] code units belong to the span just found. *)
Fixpoint occurrences (ic : bool) (query s : string) (skip : nat) : list piece :=
  match s with
  | EmptyString => []
  | String a s' =>
      match skip with
      | S k => occurrences ic query s' k
      | 0 =>
          if occursAt ic query s
          then Marked (String.substring 0 (String.length query) s)
                 :: occurrences ic query s' (String.length query - 1)
          else Plain a :: occurrences ic query s' 0
      end
  end.

(** The pieces with the markup around each span ... *)
Fixpoint render (pieces : list piece) : string :=
  match pieces with
  | [] => EmptyString
  | Plain c :: rest => String c (render rest)
  | Marked span :: rest =>
      SearchEngine.markOpen ++ span ++ SearchEngine.markClose ++ render rest
  end.

(** ... and with the markup taken away again. *)
Fixpoint erase (pieces : list piece) : string :=
  match pieces with
  | [] => EmptyString
  | Plain c :: rest => String c (erase rest)
  | Marked span :: rest => span ++ erase rest
  end.

(** The pieces of a highlighted text: nothing is wrapped for a blank
    query. *)
Definition highlightPieces (text query : string) (caseSensitive : option bool)
  : list piece :=
  if JS.isEmpty (JS.trim query)
  then map Plain (list_ascii_of_string text)
  else occurrences (negb (SearchEngine.on caseSensitive)) query text 0.

(** What follows an escaped query in a source must not be a quantifier. *)
Definition noQuantifierAhead (s : string) : Prop :=
  match s with
  | EmptyString => True
  | String c _ => RegExp.isPlus c = false /\ RegExp.isQuestion c = false
  end.

(** *** Search results, said directly *)

(** The value a call returns, zero when it does not return. *)
Definition returned (o : Outcome nat) : nat :=
  match o with Ret n => n | _ => 0 end.

Definition holds (o : Outcome bool) : bool :=
  match o with Ret b => b | _ => false end.

(** The query as [search] compares it. *)
Definition searchQueryOf (query : string) (opts : SearchEngine.options) : string :=
  if SearchEngine.on (SearchEngine.caseSensitive opts) then query
  else JS.toLowerCase query.

(** The match count that ranks a result. *)
Definition relevance (query : string) (opts : SearchEngine.options) (r : SearchResult)
  : nat :=
  returned (SearchEngine.countMatches (Result.text r) (searchQueryOf query opts)
              (SearchEngine.wholeWords opts)).

(** The number the comparator returns. *)
Definition rank (query : string) (opts : SearchEngine.options) (a b : SearchResult)
  : JS.number :=
  if negb (relevance query opts a =? relevance query opts b)
  then JS.numSub (JS.ofNat (relevance query opts b)) (JS.ofNat (relevance query opts a))
  else JS.numSub (Result.timestamp a) (Result.timestamp b).



(** The results of one segment and of a corpus, before sorting. *)
Definition segmentHits (query : string) (opts : SearchEngine.options)
  (episode : Episode) (segment : TranscriptSegment) : list SearchResult :=
  let text := if SearchEngine.on (SearchEngine.caseSensitive opts)
              then Segment.text segment
              else JS.toLowerCase (Segment.text segment) in
  if holds (SearchEngine.matchesQuery text (searchQueryOf query opts)
              (SearchEngine.wholeWords opts))
  then [Result.mk (Segment.id segment) (Episode.id episode) (Segment.text segment)
          (Segment.timestamp segment)
          (render (occurrences (negb (SearchEngine.on (SearchEngine.caseSensitive opts)))
                     query (Segment.text segment) 0))]
  else [].

Definition hits (query : string) (opts : SearchEngine.options)
  (corpus : list Episode) : list SearchResult :=
  flat_map (fun episode =>
              flat_map (segmentHits query opts episode) (Episode.transcript episode))
           corpus.

(** *** The normalizer, said directly *)

(** The text that the normalizer resolves for an element of the
    transcript array: the element itself when it is a string, the first
    truthy alias of a record, the empty string otherwise. *)
Definition resolvedText (item : JS.value) : JS.value :=
  match item with
  | JS.Str s => JS.Str s
  | JS.Obj fields => firstOf fields textAliases (JS.Str "")
  | _ => JS.Str ""
  end.

(** The text of the segment that an element gives, if it gives one. *)
Definition keptText (item : JS.value) : list string :=
  match resolvedText item with
  | JS.Str s => if JS.isEmpty (JS.trim s) then [] else [JS.trim s]
  | _ => []
  end.

(** The positions, counted from [index], of the elements that give a
    segment. *)
Fixpoint keptPositions (index : nat) (items : list JS.value) : list nat :=
  match items with
  | [] => []
  | item :: items' =>
      match keptText item with
      | [] => keptPositions (S index) items'
      | _ => index :: keptPositions (S index) items'
      end
  end.

(** The array that [extractSegments] walks for a record. *)
Definition transcriptItems (fields : list (string * JS.value)) : list JS.value :=
  match firstOf fields
          ["transcript"; "segments"; "lines"; "transcriptSegments"; "items"]
          (JS.Arr []) with
  | JS.Arr items => items
  | _ => []
  end.

Definition hasTranscript (episode : Episode) : Prop :=
  Episode.transcript episode <> [].

(** *** Invariants of the emitted episodes *)

(** Trimmed, non-empty texts under pairwise distinct ids. *)
Definition soundTranscript (segs : list TranscriptSegment) : Prop :=
  Forall wellFormed segs /\ NoDup (map Segment.id segs).

Definition sound (episode : Episode) : Prop :=
  soundTranscript (Episode.transcript episode).

(** What a detector may hand back: nothing, or an episode with a sound
    transcript that is not empty. *)
Definition soundDraft (draft : option Episode) : Prop :=
  match draft with
  | Some episode => hasTranscript episode /\ sound episode
  | None => True
  end.

Definition optionally {A} (P : A -> Prop) (o : option A) : Prop :=
  match o with Some a => P a | None => True end.

(** Every value that a computation can return satisfies [P]. *)
Definition returnsOnly {A} (P : A -> Prop) (m : Eff A) : Prop :=
  forall w a w', m w = (Ret a, w') -> P a.

(** The promise was rejected. *)
Definition rejected {A} (o : Outcome A) : bool :=
  match o with Throw _ => true | _ => false end.

(** *** More sample inputs *)

(** A platform whose JSON parser knows the listed payloads. *)
Definition jsonPlatform (known : list (string * JS.value)) : Platform :=
  mkPlatform
    (fun content =>
       match find (fun entry => String.eqb (fst entry) content) known with
       | Some entry => Ret (snd entry)
       | None => Throw "Unexpected token"
       end)
    (fun _ => parserErrorDocument)
    (fun tick => 1000 + tick)
    (fun _ => "0.4fzyo82mvyr")
    (fun _ => "2024-05-01T10:00:00.000Z").

(** The payload [{"title": "Pilot", "segments": [{"text": " Hello there ",
    "start": "1.5"}, "  ", {"content": "Good evening"}]}], and what
    [JSON.parse] makes of it. *)
Definition pilotSource : string := "{pilot}".
Definition pilotData : JS.value :=
  JS.Obj [("title", JS.Str "Pilot");
          ("segments",
           JS.Arr [JS.Obj [("text", JS.Str " Hello there "); ("start", JS.Str "1.5")];
                   JS.Str "  ";
                   JS.Obj [("content", JS.Str "Good evening")]])].

Definition pilotPlatform : Platform := jsonPlatform [(pilotSource, pilotData)].

Definition jsonFile (name content : string) : File :=
  File.mk name (String.length content) "application/json" (Ret content)
    (Throw "Can't find end of central directory").

(** An archive with a folder, a JSON entry and an entry that cannot be
    read. *)
Definition pilotArchive : File :=
  File.mk "export.zip" 2048 "application/zip" (Throw "not a text file")
    (Ret [("shows/", mkEntry true (Ret ""));
          ("shows/pilot.json", mkEntry false (Ret pilotSource));
          ("shows/broken.json", mkEntry false (Throw "Corrupted zip"))]).

(** *** The routes of [processFiles] *)

Inductive route : Type :=
  Placeholder | Archive | Json | Plist | Database | Generic.

(** Which branch of the loop of [processFiles] takes a file. *)
Definition routeOf (file : File) : route :=
  let name := File.name file in
  if String.eqb (File.type file) "" && (File.size file =? 0) then Placeholder
  else if JS.endsWith name ".zip" then Archive
  else if JS.endsWith name ".json" then Json
  else if JS.endsWith name ".plist" || JS.endsWith name ".xml" then Plist
  else if JS.endsWith name ".sqlite" || JS.endsWith name ".db" then Database
  else Generic.

(** The world after the contents of [name] were asked for. *)
Definition afterRead (name : string) (w : World) : World :=
  mkWorld (ticks w) (reads w ++ [name])%list.

(** A file whose contents cannot be read. *)
Definition unreadable (name message : string) : File :=
  File.mk name 512 "application/octet-stream" (Throw message) (Throw message).

(** *** File names *)

(** What may stand in an extension: anything but a dot and a slash. *)
Definition extensionChar (c : ascii) : bool :=
  negb (Ascii.eqb c "/" || Ascii.eqb c ".").

(** An extension, without its dot. *)
Definition isExtension (ext : string) : bool :=
  negb (JS.isEmpty ext) && forallb extensionChar (list_ascii_of_string ext).

(** The class [[^/.]] and the end [[^/.]+$] of the pattern of
    [stripExtension]. *)
Definition extensionClass : RegExp.cclass :=
  RegExp.CSet true [("/", "/"); (".", ".")]%char.
Definition extensionTail : RegExp.pattern :=
  [RegExp.NPlus extensionClass; RegExp.NEol].

(** *** Search, said directly *)

(** What a search is to find: nothing for a blank query. *)
Definition expected (query : string) (opts : SearchEngine.options)
  (corpus : list Episode) : list SearchResult :=
  if JS.isEmpty (JS.trim query) then [] else hits query opts corpus.

(** The state after a call of [search] that built [items]. *)
Definition searched (st : SearchEngine.state) (items : list SearchResult)
  : SearchEngine.state :=
  SearchEngine.mkState
    (SearchEngine.heap st ++ [SearchEngine.ResultArray items])%list
    (SearchEngine.this_episodes st).

(** Two timestamps that compare equal. *)
Definition sameTime (a b : JS.number) : bool :=
  match a, b with
  | JS.Fin x, JS.Fin y => Qeq_bool x y
  | JS.NegInf, JS.NegInf | JS.PosInf, JS.PosInf => true
  | _, _ => false
  end.

(** Two results that the comparator of [search] does not tell apart. *)
Definition ties (query : string) (opts : SearchEngine.options)
  (a b : SearchResult) : bool :=
  (relevance query opts a =? relevance query opts b)
  && sameTime (Result.timestamp a) (Result.timestamp b).

(** Ids that name one episode, and in it one segment. *)
Definition uniqueIds (corpus : list Episode) : Prop :=
  NoDup (map Episode.id corpus)
  /\ Forall (fun episode => NoDup (map Segment.id (Episode.transcript episode)))
            corpus.

(** The pattern of a whole-word search for [query]. *)
Definition wholeWord (query : string) : RegExp.regex :=
  RegExp.mkRegex (RegExp.NWordB :: literal query ++ [RegExp.NWordB])%list true true.

(** The payload [{"episodes": [], "transcript": ["Hello there"]}]. *)
Definition emptyFeedFields : list (string * JS.value) :=
  [("episodes", JS.Arr []); ("transcript", JS.Arr [JS.Str "Hello there"])].
Definition emptyFeedPlatform : Platform :=
  jsonPlatform [("{feed}", JS.Obj emptyFeedFields)].

(** *** What is read *)

(** A computation that asks for no contents, however it ends. *)
Definition quiet {A} (m : Eff A) : Prop :=
  forall w o w', m w = (o, w') -> reads w' = reads w.

(** A computation that asks for the contents [names], in this order,
    however it ends ... *)
Definition reading {A} (names : list string) (m : Eff A) : Prop :=
  forall w o w', m w = (o, w') -> reads w' = (reads w ++ names)%list.

(** ... and one that has done so when it returns. *)
Definition returning {A} (names : list string) (m : Eff A) : Prop :=
  forall w a w', m w = (Ret a, w') -> reads w' = (reads w ++ names)%list.

(** The entries of an archive whose text is asked for: all but the
    folders. *)
Definition entryRead (entry : string * ZipEntry) : list string :=
  if dir (snd entry) then [] else [fst entry].

Definition readsOf (file : File) : list string :=
  match routeOf file with
  | Placeholder | Database => []
  | Archive =>
      File.name file ::
      match File.archive file with
      | Ret entries => flat_map entryRead entries
      | _ => []
      end
  | Json | Plist | Generic => [File.name file]
  end.

(** The payload [{"MTEpisode": {"title": "Pilot"}, "transcript":
    ["Hello there"]}]: an envelope without a transcript of its own. *)
Definition envelopeFields : list (string * JS.value) :=
  [("MTEpisode", JS.Obj [("title", JS.Str "Pilot")]);
   ("transcript", JS.Arr [JS.Str "Hello there"])].
Definition envelopePlatform : Platform :=
  jsonPlatform [("{envelope}", JS.Obj envelopeFields)].

(** Two episodes with a segment that says the same at the same time,
    and a better match between them. *)
Definition twinCorpus : list Episode :=
  [episodeOf "A" [segmentOf "segment-0" "A fox" (JS.ofNat 10);
                  segmentOf "segment-1" "fox, fox" (JS.ofNat 20)];
   episodeOf "B" [segmentOf "segment-0" "A Fox" (JS.ofNat 10)]].


(** Three lines of a show; the third one is declared at time 0. *)
Definition zeroTimeRecords : list JS.value :=
  [JS.Obj [("text", JS.Str "Welcome back everyone")];
   JS.Obj [("text", JS.Str "Here is the second line")];
   JS.Obj [("text", JS.Str "And this is the third"); ("time", JS.Str "0")]].

(** The same lines as a property list ... *)
Definition zeroTimeDocument : DOM.node :=
  DOM.Element "#document"
    [DOM.Element "plist"
       [DOM.Element "array"
          [DOM.Element "dict"
             [DOM.Element "key" [DOM.Text "text"];
              DOM.Element "string" [DOM.Text "Welcome back everyone"]];
           DOM.Element "dict"
             [DOM.Element "key" [DOM.Text "text"];
              DOM.Element "string" [DOM.Text "Here is the second line"]];
           DOM.Element "dict"
             [DOM.Element "key" [DOM.Text "text"];
              DOM.Element "string" [DOM.Text "And this is the third"];
              DOM.Element "key" [DOM.Text "time"];
              DOM.Element "string" [DOM.Text "0"]]]]].

(** ... on a platform that parses the payload [<show/>] into it, and
    the payload [{show}] into the same lines as JSON. *)
Definition zeroTimePlatform : Platform :=
  mkPlatform
    (fun content =>
       if String.eqb content "{show}"
       then Ret (JS.Obj [("segments", JS.Arr zeroTimeRecords)])
       else Throw "Unexpected token <")
    (parserFor [("<show/>", zeroTimeDocument)])
    (fun tick => 1000 + tick)
    (fun _ => "0.4fzyo82mvyr")
    (fun _ => "2024-05-01T10:00:00.000Z").

(** ** Checks of the platform model *)

Example parseFloat_reads_prefix :
  JS.parseFloatString "  12.5e1 seconds" = JS.Fin (125 # 1)
  /\ JS.parseFloatString "-.5" = JS.Fin (-1 # 2)
  /\ JS.parseFloatString "7." = JS.Fin (7 # 1)
  /\ JS.parseFloatString "-Infinity" = JS.NegInf
  /\ JS.parseFloatString "." = JS.NaN
  /\ JS.parseFloatString "" = JS.NaN
  /\ JS.parseFloatString "soon" = JS.NaN.
Proof. repeat split. Qed.

Example parseFloat_of_values :
  JS.parseFloat (JS.Arr [JS.Str "3"; JS.Num (JS.ofNat 4)]) = Ret (JS.Fin (3 # 1))
  /\ JS.parseFloat (JS.Obj [("seconds", JS.Num (JS.ofNat 4))]) = Ret JS.NaN
  /\ JS.parseFloat (JS.Bool true) = Ret JS.NaN.
Proof. repeat split. Qed.

Example strings_behave :
  JS.split " " "a  b" = ["a"; ""; "b"]
  /\ JS.split JS.LF "" = [""]
  /\ JS.trim (String JS.LF "  a b  ") = "a b"
  /\ JS.endsWith "library.db" ".db" = true
  /\ JS.endsWith "db" ".db" = false
  /\ JS.indexOf "abcabc" "bc" 2 = Some 4
  /\ JS.includes "Transcript" "transcript" = false
  /\ JS.toLowerCase "Speaker A" = "speaker a".
Proof. repeat split. Qed.

Example metadata_patterns_behave :
  map (fun text => map (fun pattern => RegExp.test pattern text)
                       FileParser.metadataPatterns)
      ["http://a"; "https://a"; "see https://a"; "2024"; "20 24"; "MAX_SIZE";
       "Max"; "cover.jpg"; "a.b.c"; "Hello there."]
  = [[true; false; false; false]; [true; false; false; false];
     [false; false; false; false]; [false; true; false; false];
     [false; false; false; false]; [false; false; true; false];
     [false; false; false; false]; [false; false; false; true];
     [false; false; false; false]; [false; false; false; false]].
Proof. reflexivity. Qed.

Example stripExtension_behaves :
  FileParser.stripExtension "episode.42.json" = "episode.42"
  /\ FileParser.stripExtension "notes" = "notes"
  /\ FileParser.stripExtension "a.b/c" = "a.b/c".
Proof. repeat split. Qed.

Example escapeRegex_behaves :
  SearchEngine.escapeRegex "a.b (c) \d+" = "a\.b \(c\) \\d\+".
Proof. reflexivity. Qed.

Example wholeWords_behave :
  SearchEngine.matchesQuery "a quick fox" "quick" (Some true) = Ret true
  /\ SearchEngine.matchesQuery "a quickly fox" "quick" (Some true) = Ret false
  /\ SearchEngine.matchesQuery "a quickly fox" "quick" None = Ret true
  /\ SearchEngine.countMatches "Quick, quick: a Quick fox" "quick" None = Ret 3
  /\ SearchEngine.countMatches "quick quickly" "quick" (Some true) = Ret 1
  /\ SearchEngine.countMatches "aaaa" "aa" None = Ret 2.
Proof. repeat split. Qed.

(** The segments of [untimedCorpus] are what the normalizer makes of a
    transcript whose second timestamp is not a number. *)
Example untimedCorpus_extracted :
  FileParser.extractSegments
    (JS.Obj [("transcript",
              JS.Arr [JS.Obj [("text", JS.Str "x"); ("timestamp", JS.Num (JS.ofNat 2))];
                      JS.Obj [("text", JS.Str "x"); ("timestamp", JS.Str "soon")];
                      JS.Obj [("text", JS.Str "x"); ("timestamp", JS.Num (JS.ofNat 1))]])])
  = Ret (flat_map Episode.transcript untimedCorpus).
Proof. reflexivity. Qed.

(** ** Strings *)

Section Strings.
Import JS.

Lemma trimStart_clean s : startsClean (trimStart s).
Proof.
  induction s as [|c s IH]; cbn; [exact I|].
  destruct (isWhiteSpace c) eqn:E; [exact IH | exact E].
Qed.

Lemma trimStart_of_clean s : startsClean s -> trimStart s = s.
Proof. destruct s as [|c s]; cbn; [reflexivity|]. intros ->. reflexivity. Qed.

Lemma trimEnd_clean s : startsClean s -> startsClean (trimEnd s).
Proof.
  destruct s as [|c s]; cbn; [exact (fun H => H)|]. intros Hc.
  destruct (trimEnd s); [rewrite Hc|]; exact Hc.
Qed.

Lemma trimEnd_idempotent s : trimEnd (trimEnd s) = trimEnd s.
Proof.
  induction s as [|c s IH]; [reflexivity|].
  cbn [trimEnd]. destruct (trimEnd s) as [|d t] eqn:E.
  - destruct (isWhiteSpace c) eqn:Hc; cbn; [reflexivity|]. rewrite Hc. reflexivity.
  - cbn [trimEnd]. cbn [trimEnd] in IH. rewrite IH. reflexivity.
Qed.

Lemma trim_idempotent s : trim (trim s) = trim s.
Proof.
  unfold trim.
  rewrite (trimStart_of_clean (trimEnd (trimStart s))).
  - apply trimEnd_idempotent.
  - apply trimEnd_clean, trimStart_clean.
Qed.

Lemma isEmpty_false s : isEmpty s = false <-> s <> EmptyString.
Proof. destruct s; cbn; split; intros H; try discriminate; try reflexivity; contradiction. Qed.

Lemma toLowerCase_length s : String.length (toLowerCase s) = String.length s.
Proof.
  unfold toLowerCase. induction s as [|c s IH]; cbn; [reflexivity|].
  rewrite IH. reflexivity.
Qed.

End Strings.

(* ================================================================== *)
(** * Lemmas and theorems *)
(* ================================================================== *)

(** ** The segment normalizer *)

Section Normalizer.
Import JS FileParser.

Lemma get_obj fields key : get (Obj fields) key = Ret (prop fields key).
Proof. unfold get, prop. destruct (lookup fields key); reflexivity. Qed.

Lemma firstTruthy_obj fields keys last :
  firstTruthy (Obj fields) keys last = Ret (firstOf fields keys last).
Proof.
  induction keys as [|key keys IH]; [reflexivity|].
  cbn [firstTruthy firstOf]. rewrite get_obj. cbn [obind].
  destruct (truthy (prop fields key)); [reflexivity | exact IH].
Qed.

(** The normalizer on a record, with the alias chains evaluated. *)
Lemma normalizeSegment_obj fields index :
  normalizeSegment (Obj fields) index =
  obind (parseFloat (firstOf fields timestampAliases (Num (ofNat (index * 5)))))
    (fun timestamp =>
       match firstOf fields textAliases (Str "") with
       | Str s =>
           if isEmpty s then Ret None
           else if isEmpty (trim s) then Ret None
           else Ret (Some (Segment.mk (segmentId index) (trim s) timestamp
                             (firstOf fields speakerAliases Undefined)
                             (prop fields "confidence")))
       | other =>
           if truthy other then Throw "text.trim is not a function" else Ret None
       end).
Proof.
  unfold normalizeSegment.
  rewrite !firstTruthy_obj. cbn [obind].
  fold textAliases timestampAliases speakerAliases.
  destruct (parseFloat _) as [timestamp| |]; cbn [obind]; try reflexivity.
  destruct (firstOf fields textAliases (Str "")) as [| |b|n|s|items|fs];
    cbn [truthy]; try reflexivity.
  destruct s as [|c s]; cbn [isEmpty negb]; [reflexivity|].
  destruct (isEmpty (trim (String c s))); [reflexivity|].
  rewrite get_obj. reflexivity.
Qed.




(** The normalizer on a segment object of the class: the text stays,
    a falsy timestamp is replaced by [index * 5], a falsy speaker by
    [undefined]. *)
Lemma normalizeSegment_segmentValue seg index :
  trim (Segment.text seg) = Segment.text seg ->
  Segment.text seg <> EmptyString ->
  normalizeSegment (segmentValue seg) index =
  Ret (Some (Segment.mk (segmentId index) (Segment.text seg)
               (if numTruthy (Segment.timestamp seg)
                then Segment.timestamp seg else ofNat (index * 5))
               (if truthy (Segment.speaker seg)
                then Segment.speaker seg else Undefined)
               (Segment.confidence seg))).
Proof.
  destruct seg as [id text timestamp speaker confidence];
    cbn [Segment.id Segment.text Segment.timestamp Segment.speaker
         Segment.confidence].
  intros Htrim Htext.
  unfold segmentValue;
    cbn [Segment.id Segment.text Segment.timestamp Segment.speaker
         Segment.confidence].
  rewrite normalizeSegment_obj.
  set (fields := [("id", Str id); ("text", Str text); ("timestamp", Num timestamp);
                  ("speaker", speaker); ("confidence", confidence)]).
  assert (Hts : parseFloat (firstOf fields timestampAliases (Num (ofNat (index * 5))))
                = Ret (if numTruthy timestamp then timestamp else ofNat (index * 5))).
  { cbn. destruct (numTruthy timestamp); reflexivity. }
  assert (Htx : firstOf fields textAliases (Str "") = Str text).
  { cbn. destruct text; [contradiction | reflexivity]. }
  assert (Hsp : firstOf fields speakerAliases Undefined
                = if truthy speaker then speaker else Undefined).
  { cbn. destruct (truthy speaker); reflexivity. }
  rewrite Hts, Htx, Hsp, Htrim. cbn [obind].
  destruct text as [|c text]; [contradiction|]. reflexivity.
Qed.

End Normalizer.




(** ** Normalizing a normalized segment again *)

(** C9 fails on the code.  The third line of a show is declared at time
    0.  The normalizer reads the string ["0"] as the number 0, which is
    what the structured-data path returns.  The property-list path
    hands the segments it has built to the normalizer a second time,
    and there the number 0 is falsy in
    [segment.timestamp || ... || index * 5]: the segment comes out
    timed 10, five times its position.  The same shows on the
    normalizer alone: the normalized segment, normalized again at the
    same position, has another timestamp. *)
Theorem C9_zero_timestamp_lost :
  let seg := Segment.mk "segment-2" "And this is the third" (JS.ofNat 0)
               JS.Undefined JS.Undefined in
  (FileParser.normalizeSegment
     (JS.Obj [("text", JS.Str "And this is the third"); ("time", JS.Str "0")]) 2
   = Ret (Some seg)
   /\ wellFormed seg
   /\ exists seg',
        FileParser.normalizeSegment (FileParser.segmentValue seg) 2 = Ret (Some seg')
        /\ Segment.text seg' = Segment.text seg
        /\ Segment.timestamp seg' = JS.ofNat 10
        /\ Segment.timestamp seg' <> Segment.timestamp seg)
  /\ (exists episode w',
        FileParser.parseJsonContent zeroTimePlatform "{show}" "show.json" freshWorld
        = (Ret (Some episode), w')
        /\ map Segment.timestamp (Episode.transcript episode)
           = [JS.ofNat 0; JS.ofNat 5; JS.ofNat 0])
  /\ (exists segments episode w',
        FileParser.extractTranscriptFromPlist zeroTimeDocument = Ret (Some segments)
        /\ map Segment.timestamp segments = [JS.ofNat 0; JS.ofNat 5; JS.ofNat 0]
        /\ FileParser.parsePlistContent zeroTimePlatform "<show/>" "show.plist"
             freshWorld
           = (Ret (Some episode), w')
        /\ map Segment.text (Episode.transcript episode) = map Segment.text segments
        /\ map Segment.timestamp (Episode.transcript episode)
           = [JS.ofNat 0; JS.ofNat 5; JS.ofNat 10]).
Proof.
  cbv zeta. split; [|split].
  - split; [reflexivity|]. split; [split; [reflexivity | discriminate]|].
    eexists. split; [reflexivity|]. split; [reflexivity|].
    split; [reflexivity | discriminate].
  - eexists. eexists. split; reflexivity.
  - eexists. eexists. eexists. split; [reflexivity|]. split; [reflexivity|].
    split; [reflexivity|]. split; reflexivity.
Qed.

(** ** The batch processor *)

Section Batch.
Import JS FileParser.
Context (platform : Platform).

Lemma mergeResults_empty_r a : mergeResults a emptyResult = a.
Proof. destruct a; unfold mergeResults; cbn. rewrite !app_nil_r. reflexivity. Qed.

Lemma mergeResults_assoc a b c :
  mergeResults a (mergeResults b c) = mergeResults (mergeResults a b) c.
Proof. unfold mergeResults; cbn. rewrite !app_assoc. reflexivity. Qed.

Lemma pushEpisode_merge acc episode :
  pushEpisode acc episode = mergeResults acc (pushEpisode emptyResult episode).
Proof.
  destruct acc, episode; unfold mergeResults; cbn; rewrite !app_nil_r; reflexivity.
Qed.

Lemma pushError_merge acc message :
  pushError acc message = mergeResults acc (pushError emptyResult message).
Proof. destruct acc; unfold mergeResults, pushError; cbn. rewrite app_nil_r. reflexivity. Qed.

(** A step of the loop only appends to the result it is given. *)
Lemma processFile_appends acc file w :
  processFile platform acc file w =
  let '(o, w') := processFile platform emptyResult file w in
  (mapOutcome (mergeResults acc) o, w').
Proof.
  unfold processFile, tryCatch.
  destruct (String.eqb (File.type file) "" && (File.size file =? 0)).
  { unfold ret. cbn [mapOutcome]. rewrite pushError_merge. reflexivity. }
  destruct (endsWith (File.name file) ".zip").
  { unfold bind, ret.
    destruct (processZipFile platform file w) as [[r|e|] w']; cbn [mapOutcome];
      try reflexivity.
    rewrite pushError_merge. reflexivity. }
  assert (Hpush : forall (m : Eff (option Episode)),
    match bind m (fun episode => ret (pushEpisode acc episode)) w with
    | (Throw e, w') =>
        ret (pushError acc ("Error processing " ++ File.name file ++ ": " ++ e)) w'
    | r => r
    end =
    let '(o, w') :=
      match bind m (fun episode => ret (pushEpisode emptyResult episode)) w with
      | (Throw e, w') =>
          ret (pushError emptyResult
                 ("Error processing " ++ File.name file ++ ": " ++ e)) w'
      | r => r
      end in
    (mapOutcome (mergeResults acc) o, w')).
  { intros m. unfold bind, ret.
    destruct (m w) as [[r|e|] w']; cbn [mapOutcome]; try reflexivity.
    - rewrite pushEpisode_merge. reflexivity.
    - rewrite pushError_merge. reflexivity. }
  destruct (endsWith (File.name file) ".json"); [apply Hpush|].
  destruct (endsWith (File.name file) ".plist" || endsWith (File.name file) ".xml");
    [apply Hpush|].
  destruct (endsWith (File.name file) ".sqlite" || endsWith (File.name file) ".db").
  { unfold ret. cbn [mapOutcome]. rewrite pushError_merge. reflexivity. }
  destruct (includes (File.name file) "transcript"
            || includes (File.name file) "Transcript"); apply Hpush.
Qed.

Lemma foldEff_appends files : forall acc w,
  foldEff (processFile platform) files acc w =
  let '(o, w') := foldEff (processFile platform) files emptyResult w in
  (mapOutcome (mergeResults acc) o, w').
Proof.
  induction files as [|file files IH]; intros acc w.
  - cbn. rewrite mergeResults_empty_r. reflexivity.
  - cbn [foldEff]. unfold bind.
    rewrite (processFile_appends acc).
    destruct (processFile platform emptyResult file w) as [[r|e|] w1]; cbn;
      try reflexivity.
    rewrite (IH (mergeResults acc r)), (IH r).
    destruct (foldEff (processFile platform) files emptyResult w1) as [[r2|e|] w2];
      cbn; try reflexivity.
    rewrite mergeResults_assoc. reflexivity.
Qed.

Lemma foldEff_app {A S} (body : S -> A -> Eff S) l1 : forall l2 acc w,
  foldEff body (l1 ++ l2)%list acc w =
  bind (foldEff body l1 acc) (foldEff body l2) w.
Proof.
  induction l1 as [|x l1 IH]; intros l2 acc w; [reflexivity|].
  cbn [app foldEff]. unfold bind.
  destruct (body acc x w) as [[a|e|] w1]; try reflexivity.
  rewrite IH. reflexivity.
Qed.

(** A name with a database extension has none of the extensions that
    are tried before it. *)
Lemma database_extension name :
  endsWith name ".sqlite" || endsWith name ".db" = true ->
  endsWith name ".zip" = false /\ endsWith name ".json" = false /\
  endsWith name ".plist" = false /\ endsWith name ".xml" = false.
Proof.
  unfold endsWith. generalize (rev_string name) as r. intros r.
  change (rev_string ".sqlite") with "etilqs.".
  change (rev_string ".db") with "bd.".
  change (rev_string ".zip") with "piz.".
  change (rev_string ".json") with "nosj.".
  change (rev_string ".plist") with "tsilp.".
  change (rev_string ".xml") with "lmx.".
  destruct r as [|c r]; [discriminate|].
  cbn [startsWith].
  destruct (Ascii.eqb_spec "e" c) as [<-|He]; [intros _; repeat split; reflexivity|].
  destruct (Ascii.eqb_spec "b" c) as [<-|Hb]; [intros _; repeat split; reflexivity|].
  discriminate.
Qed.

(** The database branch: one error, no episode, and the world as it
    was, so that nothing was read. *)
Lemma processFile_database acc file w :
  String.eqb (File.type file) "" && (File.size file =? 0) = false ->
  endsWith (File.name file) ".sqlite" || endsWith (File.name file) ".db" = true ->
  processFile platform acc file w =
  (Ret (pushError acc (sqliteMessage (File.name file))), w).
Proof.
  intros Hdir Hdb.
  destruct (database_extension _ Hdb) as (Hzip & Hjson & Hplist & Hxml).
  unfold processFile. rewrite Hdir, Hzip, Hjson, Hplist, Hxml, Hdb.
  reflexivity.
Qed.

Lemma includes_here s post : includes (s ++ post) s = true.
Proof.
  assert (H : startsWith (s ++ post) s = true).
  { induction s as [|c s IH]; [reflexivity|].
    cbn. rewrite Ascii.eqb_refl. exact IH. }
  destruct (s ++ post); cbn [includes]; rewrite H; reflexivity.
Qed.

Lemma includes_middle pre s post : includes (pre ++ s ++ post) s = true.
Proof.
  induction pre as [|c pre IH]; [exact (includes_here s post)|].
  cbn [append includes]. rewrite IH.
  destruct (startsWith _ _); reflexivity.
Qed.

Lemma string_app_assoc (a b c : string) : (a ++ b) ++ c = a ++ (b ++ c).
Proof. induction a as [|x a IH]; cbn; [reflexivity|]. rewrite IH. reflexivity. Qed.

(** The message names the file and says what cannot be done. *)
Lemma sqliteMessage_names_file name :
  includes (sqliteMessage name) name = true /\
  startsWith (sqliteMessage name) "SQLite files" = true /\
  includes (sqliteMessage name) "cannot be processed" = true.
Proof.
  split; [apply (includes_middle "SQLite files (")|].
  split; [reflexivity|].
  assert (E : sqliteMessage name =
              ("SQLite files (" ++ name ++ ") ") ++ "cannot be processed" ++
              " in the browser. Please look for JSON or PLIST files in the podcast data folder.").
  { unfold sqliteMessage. rewrite !string_app_assoc. reflexivity. }
  rewrite E. apply includes_middle.
Qed.

End Batch.

(** ** Files on the generic path *)

Section Generic.
Import JS FileParser.
Context (platform : Platform).

Lemma parseJsonContent_not_json content filename message w :
  JSON_parse platform content = Throw message ->
  parseJsonContent platform content filename w = (Ret None, w).
Proof.
  intros H. unfold parseJsonContent, tryCatch, bind, lift. rewrite H. reflexivity.
Qed.

Lemma parsePlistContent_parsererror content filename errorNode w :
  DOM.querySelector (DOMParser_parseFromString platform content) "parsererror"
  = Some errorNode ->
  parsePlistContent platform content filename w = (Ret None, w).
Proof.
  intros H. unfold parsePlistContent, tryCatch. cbv zeta. rewrite H. reflexivity.
Qed.



End Generic.




(** ** Database files *)

(** C8, as amended.  A file whose name ends in [.sqlite] or [.db], and
    that is not taken for a directory (its type is not empty or its
    size is not zero), adds no episode and exactly one error, which
    names the file and says that SQLite files cannot be processed; the
    world is left as it was, so the contents were not read; and the
    files before and after it in the batch give what they give without
    it. *)
Theorem C8_database_file :
  forall (platform : Platform) (before after : list File) (file : File)
         (w w1 w2 : World) (r1 r2 : FileProcessingResult),
    JS.endsWith (File.name file) ".sqlite" || JS.endsWith (File.name file) ".db" = true ->
    String.eqb (File.type file) "" && (File.size file =? 0) = false ->
    FileParser.processFiles platform before w = (Ret r1, w1) ->
    FileParser.processFiles platform after w1 = (Ret r2, w2) ->
    FileParser.processFile platform emptyResult file w1
    = (Ret (mkResult [] [sqliteMessage (File.name file)]), w1)
    /\ JS.includes (sqliteMessage (File.name file)) (File.name file) = true
    /\ JS.startsWith (sqliteMessage (File.name file)) "SQLite files" = true
    /\ JS.includes (sqliteMessage (File.name file)) "cannot be processed" = true
    /\ FileParser.processFiles platform (before ++ file :: after) w
       = (Ret (mkResult (episodes r1 ++ episodes r2)
                        (errors r1 ++ sqliteMessage (File.name file) :: errors r2)),
          w2).
Proof.
  intros platform before after file w w1 w2 r1 r2 Hdb Hdir Hbefore Hafter.
  split; [apply (processFile_database platform emptyResult file w1 Hdir Hdb)|].
  destruct (sqliteMessage_names_file (File.name file)) as (Hname & Hstart & Hcannot).
  repeat (split; [assumption|]).
  unfold FileParser.processFiles in *. fold emptyResult in *.
  rewrite foldEff_app. unfold bind at 1. rewrite Hbefore.
  cbn [FileParser.foldEff]. unfold bind at 1.
  rewrite (processFile_database platform r1 file w1 Hdir Hdb).
  rewrite foldEff_appends, Hafter. cbn [mapOutcome].
  unfold mergeResults, FileParser.pushError; cbn [episodes errors].
  rewrite <- app_assoc. reflexivity.
Qed.

(** A batch of three: a text file, a database, a directory. *)
Lemma C8_database_file_witness :
  let db := File.mk "library.db" 4096 "" (Throw "NotReadableError")
              (Throw "NotReadableError") in
  let folder := File.mk "Podcasts" 0 "" (Throw "NotReadableError")
                  (Throw "NotReadableError") in
  FileParser.processFiles plainTextPlatform
    [textFile "notes.txt" "hello"; db; folder] freshWorld
  = (Ret (mkResult []
            [sqliteMessage "library.db";
             "Cannot process directory " ++ String JS.DQUOTE "Podcasts" ++
             String JS.DQUOTE ". Please select individual files instead."]),
     mkWorld 0 ["notes.txt"]).
Proof.
  cbv zeta.
  exact (proj2 (proj2 (proj2 (proj2
    (C8_database_file plainTextPlatform [textFile "notes.txt" "hello"]
       [File.mk "Podcasts" 0 "" (Throw "NotReadableError") (Throw "NotReadableError")]
       (File.mk "library.db" 4096 "" (Throw "NotReadableError")
          (Throw "NotReadableError"))
       freshWorld (mkWorld 0 ["notes.txt"]) (mkWorld 0 ["notes.txt"])
       emptyResult _ eq_refl eq_refl eq_refl eq_refl))))).
Defined.

(** C8 as stated fails: an empty database file whose type the browser
    does not know is taken for a directory, and the one error it adds
    does not mention SQLite. *)
Lemma C8_counterexample :
  let file := File.mk "library.sqlite" 0 "" (Ret "") (Throw "empty") in
  exists message,
    FileParser.processFiles plainTextPlatform [file] freshWorld
    = (Ret (mkResult [] [message]), freshWorld)
    /\ JS.endsWith (File.name file) ".sqlite" = true
    /\ JS.includes message "SQLite" = false
    /\ message <> sqliteMessage (File.name file).
Proof.
  cbv zeta. eexists. split; [reflexivity|].
  split; [reflexivity|]. split; [reflexivity|]. discriminate.
Qed.

(** ** Episodes without segments *)

(** The drafts built from parsed segments are never empty. *)
Lemma createEpisodeFromSegments_nonempty platform segments filename w episode w' :
  FileParser.createEpisodeFromSegments platform segments filename w
  = (Ret (Some episode), w') ->
  Episode.transcript episode <> [].
Proof.
  unfold FileParser.createEpisodeFromSegments, bind, lift.
  destruct (FileParser.extractSegments _) as [segs| |]; try discriminate.
  destruct segs as [|seg segs]; cbn; [discriminate|].
  intros H. injection H as <- _. discriminate.
Qed.

(** C1 at a failing input.  A text file of twelve short lines that
    name two keywords is neither JSON nor XML, passes the free-text
    test, and yields no segment, since no line is longer than ten
    characters; [processGenericFile] returns the draft all the same and
    [processFiles] puts an episode with an empty transcript in the
    result.  The same payload as an archive entry is dropped, by the
    length test that [processZipFile] has and [processGenericFile]
    lacks. *)
Theorem C1_empty_transcript_emitted :
  exists episode w,
    FileParser.processFiles plainTextPlatform [textFile "notes.txt" shortLines]
      freshWorld
    = (Ret (mkResult [episode] []), w)
    /\ Episode.transcript episode = []
    /\ FileParser.processZipFile plainTextPlatform
         (File.mk "notes.zip" 200 "application/zip" (Throw "NotReadableError")
            (Ret [("notes.txt", mkEntry false (Ret shortLines))]))
         freshWorld
       = (Ret (mkResult [] []), mkWorld 3 ["notes.zip"; "notes.txt"]).
Proof.
  eexists. eexists. split; [vm_compute; reflexivity|].
  split; reflexivity.
Qed.

(** ** The property-list detector *)

Section Plist.
Import JS FileParser.

Lemma In_indexed_from {A} (l : list A) : forall k i x,
  In (i, x) (indexed_from k l) -> In x l.
Proof.
  induction l as [|y l IH]; intros k i x; cbn; [exact (fun H => H)|].
  intros [H|H]; [left; congruence | right; exact (IH _ _ _ H)].
Qed.

Lemma indexed_from_In {A} (l : list A) : forall k x,
  In x l -> exists i, In (i, x) (indexed_from k l).
Proof.
  induction l as [|y l IH]; intros k x; cbn; [intros []|].
  intros [->|H]; [exists k; left; reflexivity|].
  destruct (IH (S k) x H) as [i Hi]. exists i. right. exact Hi.
Qed.

(** Which texts the string scan keeps, for any acceptance test. *)
Lemma stringSegments_texts accept xmlDoc text :
  In text (map Segment.text (stringSegments accept xmlDoc)) <->
  exists leaf,
    In leaf (DOM.querySelectorAll xmlDoc ["string"])
    /\ text = trim (DOM.textContent leaf)
    /\ 20 < String.length text
    /\ accept text = true.
Proof.
  unfold stringSegments. rewrite in_map_iff. split.
  - intros [seg [Htext Hin]]. apply in_flat_map in Hin.
    destruct Hin as [[index leaf] [Hleaf Hseg]].
    exists leaf. split; [exact (In_indexed_from _ _ _ _ Hleaf)|].
    destruct (negb (isEmpty (trim (DOM.textContent leaf)))); [|destruct Hseg].
    cbn [andb] in Hseg.
    destruct (20 <? String.length (trim (DOM.textContent leaf))) eqn:Hlen;
      [|destruct Hseg].
    cbn [andb] in Hseg.
    destruct (accept (trim (DOM.textContent leaf))) eqn:Hacc; [|destruct Hseg].
    destruct Hseg as [<-|[]]. cbn in Htext. subst text.
    split; [reflexivity|]. split; [apply Nat.ltb_lt; exact Hlen | exact Hacc].
  - intros [leaf (Hleaf & -> & Hlen & Hacc)].
    destruct (indexed_from_In _ 0 _ Hleaf) as [index Hindex].
    exists (Segment.mk (segmentId index) (trim (DOM.textContent leaf))
              (ofNat (index * 5)) Undefined Undefined).
    split; [reflexivity|].
    apply in_flat_map. exists (index, leaf). split; [exact Hindex|].
    apply Nat.ltb_lt in Hlen. rewrite Hlen, Hacc.
    destruct (trim (DOM.textContent leaf)); [discriminate|]. left. reflexivity.
Qed.

Lemma stringSegments_wellFormed accept xmlDoc :
  Forall wellFormed (stringSegments accept xmlDoc).
Proof.
  apply Forall_forall. intros seg Hin. unfold stringSegments in Hin.
  apply in_flat_map in Hin. destruct Hin as [[index leaf] [_ Hseg]].
  destruct (isEmpty (trim (DOM.textContent leaf))) eqn:Hempty; [destruct Hseg|].
  cbn [negb andb] in Hseg.
  destruct ((20 <? String.length (trim (DOM.textContent leaf)))
            && accept (trim (DOM.textContent leaf))); [|destruct Hseg].
  destruct Hseg as [<-|[]]. split; cbn.
  - apply trim_idempotent.
  - apply isEmpty_false. exact Hempty.
Qed.

(** What [looksLikeTranscriptText] tests. *)
Lemma looksLikeTranscriptText_spec text :
  looksLikeTranscriptText text = true <->
  noMetadata text /\ 3 < List.length (split " " text).
Proof.
  unfold looksLikeTranscriptText, noMetadata.
  rewrite andb_true_iff, negb_true_iff, Nat.ltb_lt.
  split; intros [Hpat Hwords]; (split; [|exact Hwords]).
  - intros pattern Hin.
    destruct (RegExp.test pattern text) eqn:E; [|reflexivity].
    assert (Hex : existsb (fun p => RegExp.test p text) metadataPatterns = true)
      by (apply existsb_exists; exists pattern; split; assumption).
    congruence.
  - destruct (existsb _ metadataPatterns) eqn:E; [|reflexivity].
    apply existsb_exists in E. destruct E as [pattern [Hin Htest]].
    rewrite (Hpat pattern Hin) in Htest. discriminate.
Qed.

Lemma extractSegments_segments items :
  extractSegments (Obj [("segments", Arr items)]) = normalizeFrom 0 items.
Proof. reflexivity. Qed.

(** Segment objects of the class all come out of the normalizer, with
    their texts. *)
Lemma normalizeFrom_segmentValues segs : forall index,
  Forall wellFormed segs ->
  exists segs',
    normalizeFrom index (map segmentValue segs) = Ret segs'
    /\ map Segment.text segs' = map Segment.text segs.
Proof.
  induction segs as [|seg segs IH]; intros index Hwf.
  - exists []. split; reflexivity.
  - inversion Hwf as [|? ? [Htrim Htext] Hrest]; subst.
    destruct (IH (S index) Hrest) as [segs' [Hnorm Htexts]].
    cbn [map normalizeFrom].
    rewrite (normalizeSegment_segmentValue seg index Htrim Htext), Hnorm.
    cbn [obind]. eexists. split; [reflexivity|].
    cbn. rewrite Htexts. reflexivity.
Qed.

Lemma createEpisodeFromSegments_segmentValues platform segs filename w :
  Forall wellFormed segs -> segs <> [] ->
  exists episode w',
    createEpisodeFromSegments platform (Arr (map segmentValue segs)) filename w
    = (Ret (Some episode), w')
    /\ map Segment.text (Episode.transcript episode) = map Segment.text segs.
Proof.
  intros Hwf Hne.
  destruct (normalizeFrom_segmentValues segs 0 Hwf) as [segs' [Hnorm Htexts]].
  unfold createEpisodeFromSegments, bind, lift.
  rewrite extractSegments_segments, Hnorm.
  destruct segs' as [|seg' segs'].
  - destruct segs; [contradiction | discriminate].
  - cbn. eexists. eexists. split; [reflexivity|]. exact Htexts.
Qed.

End Plist.

(** C6, as amended.  When the scan of the [dict] elements yields no
    segment: (1) [extractTranscriptFromPlist] returns the [string]
    leaves that pass its filter, and a leaf passes exactly when its
    trimmed text is longer than 20 characters, splits on spaces into
    at least 4 pieces and matches none of the four metadata patterns;
    (2) when no leaf passes, [parsePlistContent] falls back a second
    time and takes every [string] leaf whose trimmed text is longer
    than 20 characters, without that filter. *)
Theorem C6_plist_fallback :
  forall (xmlDoc : DOM.node),
    FileParser.dictSegments xmlDoc = Ret [] ->
    FileParser.extractTranscriptFromPlist xmlDoc
    = Ret (match FileParser.stringSegments FileParser.looksLikeTranscriptText xmlDoc with
           | [] => None
           | segments => Some segments
           end)
    /\
    (forall text,
        In text (map Segment.text
                   (FileParser.stringSegments FileParser.looksLikeTranscriptText xmlDoc))
        <->
        exists leaf,
          In leaf (DOM.querySelectorAll xmlDoc ["string"])
          /\ text = JS.trim (DOM.textContent leaf)
          /\ 20 < String.length text
          /\ 3 < List.length (JS.split " " text)
          /\ noMetadata text)
    /\
    (forall platform content filename w,
        DOMParser_parseFromString platform content = xmlDoc ->
        DOM.querySelector xmlDoc "parsererror" = None ->
        FileParser.stringSegments FileParser.looksLikeTranscriptText xmlDoc = [] ->
        FileParser.stringSegments (fun _ => true) xmlDoc <> [] ->
        exists episode w',
          FileParser.parsePlistContent platform content filename w
          = (Ret (Some episode), w')
          /\ map Segment.text (Episode.transcript episode)
             = map Segment.text (FileParser.stringSegments (fun _ => true) xmlDoc)).
Proof.
  intros xmlDoc Hdict. split; [|split].
  - unfold FileParser.extractTranscriptFromPlist. rewrite Hdict. cbn [obind].
    cbn [List.length Nat.eqb].
    destruct (FileParser.stringSegments _ xmlDoc); reflexivity.
  - intros text. rewrite stringSegments_texts.
    split; intros [leaf (Hleaf & Htext & Hlen & Hrest)]; exists leaf;
      (split; [exact Hleaf|]); (split; [exact Htext|]); (split; [exact Hlen|]).
    + apply looksLikeTranscriptText_spec in Hrest. destruct Hrest. split; assumption.
    + apply looksLikeTranscriptText_spec. destruct Hrest. split; assumption.
  - intros platform content filename w Hparse Hok Hnone Hsome.
    destruct (createEpisodeFromSegments_segmentValues platform
                (FileParser.stringSegments (fun _ => true) xmlDoc) filename w
                (stringSegments_wellFormed _ _) Hsome)
      as [episode [w' [Hep Htexts]]].
    exists episode, w'. split; [|exact Htexts].
    unfold FileParser.parsePlistContent, tryCatch. cbv zeta.
    rewrite Hparse, Hok. unfold bind, lift.
    unfold FileParser.extractTranscriptFromPlist.
    rewrite Hdict. cbn [obind List.length Nat.eqb]. rewrite Hnone.
    cbn [List.length Nat.ltb Nat.leb].
    destruct (FileParser.stringSegments (fun _ => true) xmlDoc) eqn:E;
      [contradiction|].
    cbn [List.length Nat.ltb Nat.leb]. rewrite Hep. reflexivity.
Qed.

(** A document with a sentence and an address: the sentence passes the
    filter, the address does not. *)
Lemma C6_plist_fallback_witness :
  FileParser.extractTranscriptFromPlist notesDocument
  = Ret (Some [Segment.mk "segment-0" "Welcome back to the show everyone"
                 (JS.ofNat 0) JS.Undefined JS.Undefined]).
Proof.
  exact (proj1 (C6_plist_fallback notesDocument eq_refl)).
Defined.

(** C6 as stated fails in [parsePlistContent]: the only string of the
    property list is an address, which the filter rejects (it matches
    the URL pattern and is one word), and it becomes the one segment of
    the episode. *)
Lemma C6_counterexample :
  let url := "https://example.com/feeds/episode-42.mp3" in
  exists episode w seg,
    FileParser.dictSegments feedDocument = Ret []
    /\ FileParser.parsePlistContent (xmlPlatform [(feedSource, feedDocument)])
         feedSource "feed.plist" freshWorld = (Ret (Some episode), w)
    /\ Episode.transcript episode = [seg]
    /\ Segment.text seg = url
    /\ FileParser.looksLikeTranscriptText url = false
    /\ existsb (fun pattern => RegExp.test pattern url) FileParser.metadataPatterns = true
    /\ List.length (JS.split " " url) = 1.
Proof.
  cbv zeta. eexists. eexists. eexists.
  split; [reflexivity|]. split; [vm_compute; reflexivity|].
  repeat split.
Qed.

(** ** Escaping and the patterns the search builds *)

Section Escaping.
Import JS RegExp SearchEngine.

Lemma metacharacters_class a :
  charMatches false
    (CSet false
       (map (fun c => (c, c))
          ["."; "*"; "+"; "?"; "^"; "$"; "{"; "}"; "("; ")"; "|"; "["; "]"; "\"]%char))
    a = isSyntaxChar a.
Proof.
  destruct a as [[] [] [] [] [] [] [] []]; vm_compute; reflexivity.
Qed.

Lemma append_empty_r (s : string) : s ++ "" = s.
Proof. induction s as [|c s IH]; cbn; [reflexivity|]. rewrite IH. reflexivity. Qed.

Lemma substring_zero s : String.substring 0 0 s = EmptyString.
Proof. destruct s; reflexivity. Qed.

Lemma expand_escape withGroup m : expand withGroup "\$&" m = String "\" (matched m).
Proof. cbn. rewrite append_empty_r. reflexivity. Qed.

Lemma replaceFrom_metacharacters s : forall prev,
  replaceFrom metacharacters "\$&" prev s 0 = escapeChars s.
Proof.
  induction s as [|a s IH]; intros prev; [reflexivity|].
  cbn [replaceFrom escapeChars].
  unfold matchAt. cbn [metacharacters source ignoreCase matchHere].
  rewrite metacharacters_class.
  destruct (isSyntaxChar a).
  - rewrite expand_escape. cbn [matchLength matched snd String.substring].
    rewrite substring_zero, (IH (Some a)). reflexivity.
  - rewrite (IH (Some a)). reflexivity.
Qed.

(** [escapeRegex] puts a backslash before each syntax character. *)
Lemma escapeRegex_spec s : escapeRegex s = escapeChars s.
Proof. unfold escapeRegex, replace. cbn [global metacharacters]. apply replaceFrom_metacharacters. Qed.

Lemma isSyntaxChar_cases c :
  isSyntaxChar c = true ->
  In c ["^"; "$"; "\"; "."; "*"; "+"; "?"; "("; ")"; "["; "]"; "{"; "}"; "|"]%char.
Proof.
  unfold isSyntaxChar. intros H. apply existsb_exists in H.
  destruct H as [x [Hin Heq]]. apply Ascii.eqb_eq in Heq. subst x. exact Hin.
Qed.

Lemma escapeChars_ahead q rest :
  noQuantifierAhead rest -> noQuantifierAhead (escapeChars q ++ rest).
Proof.
  destruct q as [|c q]; [exact (fun H => H)|]. intros _.
  cbn [escapeChars].
  destruct (isSyntaxChar c) eqn:E; cbn [append noQuantifierAhead];
    [split; reflexivity|].
  unfold isSyntaxChar in E. cbn [existsb] in E.
  repeat (apply orb_false_elim in E; destruct E as [? E]).
  unfold isPlus, isQuestion. split; assumption.
Qed.

Lemma parsePattern_escaped_char c rest :
  isSyntaxChar c = true -> noQuantifierAhead rest ->
  parsePattern (String "\" (String c rest))
  = consNode (NChar (CLit c)) (parsePattern rest).
Proof.
  intros Hc Hrest. apply isSyntaxChar_cases in Hc.
  cbn in Hc.
  repeat (destruct Hc as [<-|Hc]); try contradiction;
    destruct rest as [|q t]; try reflexivity;
    destruct Hrest as [Hp Hq];
    cbn [parsePattern Ascii.eqb Bool.eqb escapeClass]; cbn -[parsePattern isPlus isQuestion];
    rewrite Hp, Hq; reflexivity.
Qed.

Lemma parsePattern_plain_char c rest :
  isSyntaxChar c = false -> noQuantifierAhead rest ->
  parsePattern (String c rest)
  = consNode (NChar (CLit c)) (parsePattern rest).
Proof.
  intros Hc Hrest.
  assert (H := Hc). unfold isSyntaxChar in H. cbn [existsb] in H.
  repeat (apply orb_false_elim in H; destruct H as [? H]).
  cbn [parsePattern].
  repeat match goal with
         | E : Ascii.eqb c ?x = false |- context [Ascii.eqb c ?x] => rewrite E
         end.
  rewrite Hc.
  destruct rest as [|q t]; [reflexivity|].
  destruct Hrest as [Hp Hq]. rewrite Hp, Hq. reflexivity.
Qed.

(** An escaped query parses into the query itself, read literally. *)
Lemma parsePattern_escaped q : forall rest,
  noQuantifierAhead rest ->
  parsePattern (escapeChars q ++ rest)
  = option_map (app (literal q)) (parsePattern rest).
Proof.
  induction q as [|c q IH]; intros rest Hrest.
  - cbn. destruct (parsePattern rest); reflexivity.
  - cbn [escapeChars]. destruct (isSyntaxChar c) eqn:Hc.
    + cbn [append].
      rewrite (parsePattern_escaped_char c _ Hc (escapeChars_ahead q rest Hrest)).
      rewrite (IH rest Hrest). destruct (parsePattern rest); reflexivity.
    + cbn [append].
      rewrite (parsePattern_plain_char c _ Hc (escapeChars_ahead q rest Hrest)).
      rewrite (IH rest Hrest). destruct (parsePattern rest); reflexivity.
Qed.

Lemma wellGrouped_literal q tail : forall opened closed,
  wellGrouped opened closed (literal q ++ tail)%list = wellGrouped opened closed tail.
Proof.
  unfold literal. induction (list_ascii_of_string q) as [|c l IH]; intros o c'.
  - reflexivity.
  - cbn. apply IH.
Qed.

(** The source of the highlighting pattern compiles to one group
    around the literal query. *)
Lemma compile_group q :
  compile ("(" ++ escapeRegex q ++ ")") = Some (NOpen :: literal q ++ [NClose])%list.
Proof.
  unfold compile. rewrite escapeRegex_spec.
  change ("(" ++ escapeChars q ++ ")") with (String "(" (escapeChars q ++ ")")).
  cbn [parsePattern Ascii.eqb Bool.eqb].
  rewrite (parsePattern_escaped q ")"); [|split; reflexivity].
  cbn [parsePattern Ascii.eqb Bool.eqb consNode option_map].
  cbn [wellGrouped negb andb]. rewrite wellGrouped_literal. reflexivity.
Qed.

(** The source of the whole-word pattern compiles to the literal query
    between two word boundaries. *)
Lemma compile_wholeWord q :
  compile ("\b" ++ escapeRegex q ++ "\b") = Some (NWordB :: literal q ++ [NWordB])%list.
Proof.
  unfold compile. rewrite escapeRegex_spec.
  change ("\b" ++ escapeChars q ++ "\b")
    with (String "\" (String "b" (escapeChars q ++ "\b"))).
  cbn [parsePattern Ascii.eqb Bool.eqb].
  rewrite (parsePattern_escaped q "\b"); [|split; reflexivity].
  cbn [parsePattern Ascii.eqb Bool.eqb consNode option_map].
  cbn [wellGrouped]. rewrite wellGrouped_literal. reflexivity.
Qed.

End Escaping.

(** ** Highlighting *)

Section Highlighting.
Import JS RegExp SearchEngine.

Lemma matchHere_literal_group ic q : forall prev s pos opened closed,
  matchHere ic (literal q ++ [NClose])%list prev s pos (Some opened, closed)
  = if occursAt ic q s
    then Some (pos + String.length q,
               (Some opened, Some (opened, pos + String.length q)))
    else None.
Proof.
  induction q as [|c q IH]; intros prev s pos opened closed.
  - cbn. rewrite Nat.add_0_r. reflexivity.
  - change (literal (String c q)) with (NChar (CLit c) :: literal q).
    cbn [app matchHere occursAt String.length].
    destruct s as [|a s]; [reflexivity|].
    destruct (charMatches ic (CLit c) a); [|reflexivity].
    cbn [andb]. rewrite IH. rewrite <- plus_n_Sm. reflexivity.
Qed.

(** The highlighting pattern matches where the query occurs, and its
    group is the whole match. *)
Lemma matchAt_group ic g q prev s :
  matchAt (mkRegex (NOpen :: literal q ++ [NClose])%list g ic) prev s
  = if occursAt ic q s
    then Some (mkMatch (String.length q)
                 (String.substring 0 (String.length q) s)
                 (Some (String.substring 0 (String.length q) s)))
    else None.
Proof.
  unfold matchAt. cbn [source ignoreCase matchHere snd].
  rewrite matchHere_literal_group.
  destruct (occursAt ic q s); [|reflexivity].
  cbn [snd Nat.add]. rewrite Nat.sub_0_r. reflexivity.
Qed.

Lemma expand_mark m :
  expand true (markOpen ++ "$1" ++ markClose) m
  = markOpen ++ match group1 m with Some g => g | None => EmptyString end ++ markClose.
Proof. reflexivity. Qed.

(** Replacing with the pattern of the query wraps its occurrences. *)
Lemma replaceFrom_occurrences ic q s : forall prev skip,
  q <> EmptyString ->
  replaceFrom (mkRegex (NOpen :: literal q ++ [NClose])%list true ic)
    (markOpen ++ "$1" ++ markClose) prev s skip
  = render (occurrences ic q s skip).
Proof.
  induction s as [|a s IH]; intros prev skip Hq.
  - cbn [replaceFrom occurrences render]. rewrite matchAt_group.
    destruct q as [|c q]; [contradiction|]. destruct skip; reflexivity.
  - cbn [replaceFrom occurrences]. destruct skip as [|k]; [|apply IH; exact Hq].
    rewrite matchAt_group.
    destruct (occursAt ic q (String a s)); cbn [render].
    + rewrite expand_mark. cbn [group1 matchLength].
      destruct q as [|c q]; [contradiction|].
      cbn [String.length Nat.sub]. rewrite Nat.sub_0_r.
      rewrite (IH (Some a) (String.length q) Hq).
      rewrite !string_app_assoc. reflexivity.
    + rewrite (IH (Some a) 0 Hq). reflexivity.
Qed.

Lemma trim_nonempty query : isEmpty (trim query) = false -> query <> EmptyString.
Proof. intros H ->. discriminate. Qed.

(** [highlightMatches] never throws, and wraps the occurrences of the
    query: exact ones when [caseSensitive] is set, up to case
    otherwise. *)
Lemma highlightMatches_spec text query caseSensitive :
  isEmpty (trim query) = false ->
  highlightMatches text query caseSensitive
  = Ret (render (occurrences (negb (on caseSensitive)) query text 0)).
Proof.
  intros Hq. unfold highlightMatches, RegExp. rewrite Hq, compile_group.
  cbn [obind]. unfold replace.
  destruct (on caseSensitive); cbn [negb].
  - change (hasFlag "g" "g") with true. change (hasFlag "g" "i") with false.
    cbn [global]. rewrite replaceFrom_occurrences by (apply trim_nonempty; exact Hq).
    reflexivity.
  - change (hasFlag "gi" "g") with true. change (hasFlag "gi" "i") with true.
    cbn [global]. rewrite replaceFrom_occurrences by (apply trim_nonempty; exact Hq).
    reflexivity.
Qed.

Lemma take_drop n : forall s,
  String.substring 0 n s ++ dropString n s = s.
Proof.
  induction n as [|n IH]; intros s.
  - rewrite substring_zero. destruct s; reflexivity.
  - destruct s as [|a s]; [reflexivity|]. cbn. rewrite IH. reflexivity.
Qed.

(** Taking the markup away gives back what the scan started from. *)
Lemma erase_occurrences ic q s : forall skip,
  q <> EmptyString ->
  erase (occurrences ic q s skip) = dropString skip s.
Proof.
  induction s as [|a s IH]; intros skip Hq.
  - destruct skip; reflexivity.
  - cbn [occurrences]. destruct skip as [|k]; [|cbn [dropString]; apply IH; exact Hq].
    destruct (occursAt ic q (String a s)); cbn [erase dropString].
    + rewrite (IH _ Hq). destruct q as [|c q]; [contradiction|].
      cbn [String.length Nat.sub String.substring append].
      rewrite Nat.sub_0_r, take_drop. reflexivity.
    + rewrite (IH 0 Hq). destruct s; reflexivity.
Qed.

(** Each wrapped span is an occurrence of the query, of its length. *)
Lemma occursAt_take ic q : forall s,
  occursAt ic q s = true ->
  occursAt ic q (String.substring 0 (String.length q) s) = true
  /\ String.length (String.substring 0 (String.length q) s) = String.length q.
Proof.
  induction q as [|c q IH]; intros s H.
  - rewrite substring_zero. split; reflexivity.
  - destruct s as [|a s]; [discriminate|].
    cbn [occursAt] in H. apply andb_true_iff in H. destruct H as [Ha Hs].
    destruct (IH s Hs) as [H1 H2].
    cbn [String.length String.substring occursAt]. rewrite Ha, H1, H2.
    split; reflexivity.
Qed.

Lemma occurrences_marked ic q s : forall skip span,
  In (Marked span) (occurrences ic q s skip) ->
  occursAt ic q span = true /\ String.length span = String.length q.
Proof.
  induction s as [|a s IH]; intros skip span Hin; [destruct Hin|].
  cbn [occurrences] in Hin. destruct skip as [|k]; [|exact (IH _ _ Hin)].
  destruct (occursAt ic q (String a s)) eqn:E.
  - destruct Hin as [Heq|Hin]; [|exact (IH _ _ Hin)].
    injection Heq as <-. exact (occursAt_take ic q (String a s) E).
  - destruct Hin as [Heq|Hin]; [discriminate | exact (IH _ _ Hin)].
Qed.

(** Without the [i] flag an occurrence is the query itself. *)
Lemma occursAt_exact q : forall span,
  occursAt false q span = true -> String.length span = String.length q -> span = q.
Proof.
  induction q as [|c q IH]; intros span H Hlen.
  - destruct span; [reflexivity | discriminate].
  - destruct span as [|a span]; [discriminate|].
    cbn [occursAt charMatches] in H. apply andb_true_iff in H. destruct H as [Ha Hs].
    apply Ascii.eqb_eq in Ha. subst a. f_equal.
    apply IH; [exact Hs|]. cbn in Hlen. congruence.
Qed.

End Highlighting.

(** ** Sorting *)

Section Sorting.
Import JS.
Context {A : Type}.
Variable comparefn : A -> A -> Outcome number.
Variable cmp : A -> A -> number.
Hypothesis comparefn_returns : forall a b, comparefn a b = Ret (cmp a b).

(** With a comparator that returns, the sort returns a permutation. *)
Lemma insertSorted_permutation x l :
  exists l', insertSorted comparefn x l = Ret l' /\ Permutation (x :: l) l'.
Proof.
  induction l as [|y l IH].
  - exists [x]. split; [reflexivity | apply Permutation_refl].
  - cbn [insertSorted]. rewrite comparefn_returns. cbn [obind].
    destruct (numPositive (cmp x y)).
    + destruct IH as [l' [-> Hperm]]. cbn [obind].
      exists (y :: l'). split; [reflexivity|].
      apply perm_trans with (y :: x :: l); [apply perm_swap|].
      apply perm_skip. exact Hperm.
    + eexists. split; [reflexivity | apply Permutation_refl].
Qed.

Lemma sort_permutation l :
  exists l', sort comparefn l = Ret l' /\ Permutation l l'.
Proof.
  induction l as [|x l IH].
  - exists []. split; [reflexivity | apply perm_nil].
  - cbn [sort]. destruct IH as [s [-> Hperm]]. cbn [obind].
    destruct (insertSorted_permutation x s) as [l' [-> Hins]].
    exists l'. split; [reflexivity|].
    apply perm_trans with (x :: s); [apply perm_skip; exact Hperm | exact Hins].
Qed.

(** With a comparator that orders the elements at hand, the result is
    sorted. *)
Variable R : A -> A -> Prop.
Variable good : A -> Prop.
Hypothesis not_after : forall x y,
  good x -> good y -> numPositive (cmp x y) = false -> R x y.
Hypothesis after : forall x y,
  good x -> good y -> numPositive (cmp x y) = true -> R y x.
Hypothesis R_trans : forall x y z,
  good x -> good y -> good z -> R x y -> R y z -> R x z.



End Sorting.

(** ** Numbers *)

Section Numbers.
Import JS.

Lemma Qcompare_Qred q r : Qcompare (Qred q) r = Qcompare q r.
Proof. apply Qcompare_comp; [apply Qred_correct | reflexivity]. Qed.





End Numbers.

(** ** Matching and counting *)

Section Counting.
Import JS RegExp SearchEngine.

Lemma startsWith_length sub : forall s,
  startsWith s sub = true -> String.length sub <= String.length s.
Proof.
  induction sub as [|c sub IH]; intros s H; [cbn; lia|].
  destruct s as [|a s]; [discriminate|].
  cbn in H. apply andb_true_iff in H. destruct H as [_ H].
  apply IH in H. cbn. lia.
Qed.

Lemma indexOf_bounds sub s : forall pos found,
  sub <> EmptyString ->
  indexOf s sub pos = Some found ->
  pos <= found /\ found + String.length sub <= String.length s.
Proof.
  induction s as [|a s IH]; intros pos found Hsub H.
  - destruct pos; cbn in H.
    + destruct sub; [contradiction | discriminate].
    + destruct sub; [contradiction | discriminate].
  - destruct pos as [|p]; cbn [indexOf] in H.
    + destruct (startsWith (String a s) sub) eqn:E.
      * injection H as <-. apply startsWith_length in E. cbn in *. lia.
      * destruct (indexOf s sub 0) as [f|] eqn:F; [|discriminate].
        injection H as <-. destruct (IH 0 f Hsub F). cbn. lia.
    + destruct (indexOf s sub p) as [f|] eqn:F; [|discriminate].
      injection H as <-. destruct (IH p f Hsub F). cbn. lia.
Qed.

(** The loop of [countMatches] ends when the query is not empty. *)
Lemma countLoop_returns searchText searchQuery : forall fuel pos count,
  searchQuery <> EmptyString ->
  pos <= String.length searchText ->
  String.length searchText - pos < fuel ->
  exists n, countLoop fuel searchText searchQuery pos count = Ret n.
Proof.
  induction fuel as [|fuel IH]; intros pos count Hq Hpos Hfuel; [lia|].
  cbn [countLoop].
  destruct (indexOf searchText searchQuery pos) as [found|] eqn:E;
    [|exists count; reflexivity].
  destruct (indexOf_bounds _ _ _ _ Hq E) as [H1 H2].
  assert (0 < String.length searchQuery)
    by (destruct searchQuery; [contradiction | cbn; lia]).
  apply IH; [exact Hq | lia | lia].
Qed.

Lemma toLowerCase_nonempty s : s <> EmptyString -> toLowerCase s <> EmptyString.
Proof. destruct s; [contradiction | discriminate]. Qed.

Lemma RegExp_wholeWord q flags :
  RegExp ("\b" ++ escapeRegex q ++ "\b") flags
  = Ret (mkRegex (NWordB :: literal q ++ [NWordB])%list
           (hasFlag flags "g") (hasFlag flags "i")).
Proof. unfold RegExp. rewrite compile_wholeWord. reflexivity. Qed.

Lemma countMatches_returns text query wholeWords :
  query <> EmptyString ->
  exists n, countMatches text query wholeWords = Ret n.
Proof.
  intros Hq. unfold countMatches. destruct (on wholeWords).
  - rewrite RegExp_wholeWord. cbn [obind].
    destruct (matchAll _ _); eexists; reflexivity.
  - apply countLoop_returns; [apply toLowerCase_nonempty; exact Hq | lia | lia].
Qed.

Lemma matchesQuery_returns text query wholeWords :
  matchesQuery text query wholeWords = Ret (holds (matchesQuery text query wholeWords)).
Proof.
  unfold matchesQuery. destruct (on wholeWords); [|reflexivity].
  rewrite RegExp_wholeWord. reflexivity.
Qed.

Lemma searchQueryOf_nonempty query opts :
  isEmpty (trim query) = false -> searchQueryOf query opts <> EmptyString.
Proof.
  intros H. apply trim_nonempty in H. unfold searchQueryOf.
  destruct (on (caseSensitive opts)); [exact H | apply toLowerCase_nonempty; exact H].
Qed.

(** The comparator returns, and what it returns. *)
Lemma byRelevance_spec query opts a b :
  isEmpty (trim query) = false ->
  byRelevance (searchQueryOf query opts) opts a b = Ret (rank query opts a b).
Proof.
  intros Hq. unfold byRelevance, rank, relevance.
  destruct (countMatches_returns (Result.text a) (searchQueryOf query opts)
              (wholeWords opts) (searchQueryOf_nonempty _ _ Hq)) as [na ->].
  destruct (countMatches_returns (Result.text b) (searchQueryOf query opts)
              (wholeWords opts) (searchQueryOf_nonempty _ _ Hq)) as [nb ->].
  cbn [obind returned]. destruct (negb (na =? nb)); reflexivity.
Qed.

(** *** The store *)

Lemma nth_error_last (h : list cell) c : nth_error (h ++ [c]) (List.length h) = Some c.
Proof.
  rewrite nth_error_app2 by lia. rewrite Nat.sub_diag. reflexivity.
Qed.

Lemma update_last (h : list cell) c c' :
  update (List.length h) c' (h ++ [c]) = (h ++ [c'])%list.
Proof.
  unfold update.
  rewrite firstn_app, Nat.sub_diag, firstn_all. cbn [firstn].
  rewrite app_nil_r.
  rewrite skipn_all2 by (rewrite length_app; cbn; lia). reflexivity.
Qed.

Lemma push_last h e acc r :
  push (List.length h) r (mkState (h ++ [ResultArray acc]) e)
  = (Ret tt, mkState (h ++ [ResultArray (acc ++ [r])]) e).
Proof.
  unfold push. cbn [heap this_episodes].
  rewrite nth_error_last, update_last. reflexivity.
Qed.

(** A loop whose body only pushes onto the last array. *)
Lemma forEach_collect {A} (body : A -> Mem unit) (f : A -> list SearchResult) h e l :
  (forall x acc,
      body x (mkState (h ++ [ResultArray acc]) e)
      = (Ret tt, mkState (h ++ [ResultArray (acc ++ f x)]) e)) ->
  forall acc,
    forEach l body (mkState (h ++ [ResultArray acc]) e)
    = (Ret tt, mkState (h ++ [ResultArray (acc ++ flat_map f l)]) e).
Proof.
  intros Hbody. induction l as [|x l IH]; intros acc.
  - cbn. rewrite app_nil_r. reflexivity.
  - cbn [forEach flat_map]. unfold SearchEngine.bind. rewrite Hbody, IH.
    rewrite <- app_assoc. reflexivity.
Qed.

(** [search], with its loops and its pattern constructions resolved:
    the store gains one array, which holds the sorted hits, and
    nothing else changes. *)
Lemma search_spec query opts st corpus :
  nth_error (heap st) (this_episodes st) = Some (EpisodeArray corpus) ->
  exists results,
    (if isEmpty (trim query) then Ret []
     else sort (byRelevance (searchQueryOf query opts) opts) (hits query opts corpus))
    = Ret results
    /\ search query opts st
       = (Ret (List.length (heap st)),
          mkState (heap st ++ [ResultArray results]) (this_episodes st)).
Proof.
  intros Hcorpus. destruct st as [h e]; cbn [heap this_episodes] in *.
  unfold search. destruct (isEmpty (trim query)) eqn:Hq.
  - exists []. split; reflexivity.
  - destruct (sort_permutation
                (byRelevance (searchQueryOf query opts) opts)
                (rank query opts) (fun a b => byRelevance_spec query opts a b Hq)
                (hits query opts corpus)) as [sorted [Hsort _]].
    exists sorted. split; [exact Hsort|].
    fold (searchQueryOf query opts).
    unfold SearchEngine.bind at 1. unfold newResults at 1. cbn [heap this_episodes].
    unfold SearchEngine.bind at 1. unfold readEpisodes at 1. cbn [heap this_episodes].
    rewrite nth_error_app1 by (apply nth_error_Some; congruence).
    rewrite Hcorpus.
    unfold SearchEngine.bind at 1.
    rewrite (forEach_collect _
               (fun episode =>
                  flat_map (segmentHits query opts episode) (Episode.transcript episode))
               h e corpus).
    + cbn [app]. fold (hits query opts corpus).
      unfold SearchEngine.bind at 1. unfold sortInPlace. cbn [heap this_episodes].
      rewrite nth_error_last, Hsort, update_last. reflexivity.
    + intros episode acc.
      apply (forEach_collect _ (segmentHits query opts episode)).
      intros segment acc'. cbv zeta. unfold SearchEngine.bind, SearchEngine.lift.
      rewrite matchesQuery_returns. unfold segmentHits.
      destruct (holds _).
      * rewrite (highlightMatches_spec _ _ _ Hq). apply push_last.
      * rewrite app_nil_r. reflexivity.
Qed.

End Counting.

(** ** The search engine *)

Section Ranking.
Import JS SearchEngine.




Lemma hits_from_corpus query opts corpus r :
  In r (hits query opts corpus) ->
  exists episode segment,
    In episode corpus /\ In segment (Episode.transcript episode)
    /\ Result.text r = Segment.text segment
    /\ Result.timestamp r = Segment.timestamp segment
    /\ Result.highlightedText r
       = render (occurrences (negb (on (caseSensitive opts))) query
                   (Segment.text segment) 0).
Proof.
  unfold hits. intros H. apply in_flat_map in H. destruct H as [episode [Hep H]].
  apply in_flat_map in H. destruct H as [segment [Hseg H]].
  exists episode, segment. split; [exact Hep|]. split; [exact Hseg|].
  unfold segmentHits in H. destruct (holds _); [|destruct H].
  destruct H as [<-|[]]. repeat split.
Qed.

End Ranking.




(** C4.  For every text and query, [highlightMatches] returns the text
    with markup put around some spans: the code units outside the
    spans are those of the text, in order, and taking the markup away
    gives the text back; each span is an occurrence of the query, of
    its length. *)
Theorem C4_highlight_roundtrip :
  forall (text query : string) (caseSensitive : option bool),
    SearchEngine.highlightMatches text query caseSensitive
    = Ret (render (highlightPieces text query caseSensitive))
    /\ erase (highlightPieces text query caseSensitive) = text
    /\ (forall span,
           In (Marked span) (highlightPieces text query caseSensitive) ->
           occursAt (negb (SearchEngine.on caseSensitive)) query span = true
           /\ String.length span = String.length query).
Proof.
  intros text query caseSensitive. unfold highlightPieces.
  destruct (JS.isEmpty (JS.trim query)) eqn:Hq.
  - unfold SearchEngine.highlightMatches. rewrite Hq.
    assert (Hplain : forall s,
               render (map Plain (list_ascii_of_string s)) = s
               /\ erase (map Plain (list_ascii_of_string s)) = s).
    { induction s as [|c s [IH1 IH2]]; cbn; [split; reflexivity|].
      rewrite IH1, IH2. split; reflexivity. }
    destruct (Hplain text) as [-> ->].
    split; [reflexivity|]. split; [reflexivity|].
    intros span Hin. apply in_map_iff in Hin. destruct Hin as [c [Habs _]].
    discriminate.
  - split; [apply highlightMatches_spec; exact Hq|].
    split.
    + rewrite erase_occurrences by (apply trim_nonempty; exact Hq). reflexivity.
    + intros span. apply occurrences_marked.
Qed.

(** C5, as amended.  For every result of [search]: the pattern is
    built from the query as typed, escaped, and is the query read
    literally inside one group; the highlighted text wraps the
    occurrences of the query found from left to right without
    overlap and without regard to word boundaries, whatever
    [wholeWords] says; the occurrences are exact when [caseSensitive]
    is set, and up to case only when it is not. *)
Theorem C5_highlighted_text :
  forall (st st' : SearchEngine.state) (corpus : list Episode) (query : string)
         (opts : SearchEngine.options) (results : SearchEngine.address)
         (items : list SearchResult) (r : SearchResult),
    nth_error (SearchEngine.heap st) (SearchEngine.this_episodes st)
    = Some (SearchEngine.EpisodeArray corpus) ->
    SearchEngine.search query opts st = (Ret results, st') ->
    nth_error (SearchEngine.heap st') results = Some (SearchEngine.ResultArray items) ->
    In r items ->
    let exact := SearchEngine.on (SearchEngine.caseSensitive opts) in
    RegExp.RegExp ("(" ++ SearchEngine.escapeRegex query ++ ")")
      (if exact then "g" else "gi")
    = Ret (RegExp.mkRegex (RegExp.NOpen :: literal query ++ [RegExp.NClose])%list
             true (negb exact))
    /\ Result.highlightedText r
       = render (occurrences (negb exact) query (Result.text r) 0)
    /\ (forall span,
           In (Marked span) (occurrences (negb exact) query (Result.text r) 0) ->
           if exact then span = query
           else occursAt true query span = true
                /\ String.length span = String.length query).
Proof.
  intros st st' corpus query opts results items r Hcorpus Hsearch Hitems Hin exact.
  split; [|split].
  - unfold RegExp.RegExp. rewrite compile_group. destruct exact; reflexivity.
  - destruct (search_spec query opts st corpus Hcorpus) as [sorted [Hsorted Hspec]].
    rewrite Hspec in Hsearch. injection Hsearch as <- <-.
    cbn [SearchEngine.heap] in Hitems. rewrite nth_error_last in Hitems.
    injection Hitems as <-.
    destruct (JS.isEmpty (JS.trim query)) eqn:Hq.
    + injection Hsorted as <-. destruct Hin.
    + destruct (sort_permutation
                  (SearchEngine.byRelevance (searchQueryOf query opts) opts)
                  (rank query opts) (fun a b => byRelevance_spec query opts a b Hq)
                  (hits query opts corpus))
        as [sorted' [Hsort Hperm]].
      rewrite Hsort in Hsorted. injection Hsorted as <-.
      apply (Permutation_in _ (Permutation_sym Hperm)) in Hin.
      destruct (hits_from_corpus _ _ _ _ Hin)
        as [episode [segment (_ & _ & Htext & _ & Hhigh)]].
      rewrite Hhigh, Htext. reflexivity.
  - intros span Hspan. apply occurrences_marked in Hspan.
    destruct Hspan as [Hocc Hlen]. subst exact.
    destruct (SearchEngine.on (SearchEngine.caseSensitive opts)); cbn [negb] in *.
    + apply occursAt_exact; assumption.
    + split; assumption.
Qed.

(** The hit with three matches, under the default options. *)
Lemma C5_highlighted_text_witness :
  let r := Result.mk "segment-0" "B" "Quick, quick: a Quick fox" (JS.ofNat 5)
             (render [Marked "Quick"; Plain ","; Plain " "; Marked "quick";
                      Plain ":"; Plain " "; Plain "a"; Plain " "; Marked "Quick";
                      Plain " "; Plain "f"; Plain "o"; Plain "x"]) in
  Result.highlightedText r = render (occurrences true "quick" (Result.text r) 0).
Proof.
  cbv zeta.
  exact (proj1 (proj2
    (C5_highlighted_text (engineWith foxCorpus) _ foxCorpus "quick" defaults 1 _ _
       eq_refl eq_refl eq_refl (or_introl eq_refl)))).
Defined.

(** C5 as stated fails when [caseSensitive] is set: the segment matches,
    and of the three occurrences that a comparison up to case finds
    only the exact one is wrapped. *)
Lemma C5_counterexample :
  exists r other,
    SearchEngine.search "quick" exactCase (engineWith foxCorpus)
    = (Ret 1,
       SearchEngine.mkState
         [SearchEngine.EpisodeArray foxCorpus; SearchEngine.ResultArray [r; other]] 0)
    /\ Result.text r = "Quick, quick: a Quick fox"
    /\ Result.highlightedText r
       = "Quick, " ++ SearchEngine.markOpen ++ "quick" ++ SearchEngine.markClose
         ++ ": a Quick fox"
    /\ render (occurrences true "quick" (Result.text r) 0)
       = SearchEngine.markOpen ++ "Quick" ++ SearchEngine.markClose ++ ", "
         ++ SearchEngine.markOpen ++ "quick" ++ SearchEngine.markClose ++ ": a "
         ++ SearchEngine.markOpen ++ "Quick" ++ SearchEngine.markClose ++ " fox"
    /\ Result.highlightedText r
       <> render (occurrences true "quick" (Result.text r) 0).
Proof.
  eexists. eexists. split; [vm_compute; reflexivity|].
  split; [reflexivity|]. split; [reflexivity|]. split; [reflexivity|].
  vm_compute. discriminate.
Qed.

(** C10.  On an engine that holds a corpus, [search] returns; it adds
    one array to the store, the one it returns, and leaves every array
    that was there, the stored episodes and their segments among them,
    and the field of the engine as they were; and a second call, on
    the state that the first one left, returns an array with the same
    sequence of results. *)
Theorem C10_search_pure :
  forall (query : string) (opts : SearchEngine.options) (st : SearchEngine.state)
         (corpus : list Episode),
    nth_error (SearchEngine.heap st) (SearchEngine.this_episodes st)
    = Some (SearchEngine.EpisodeArray corpus) ->
    exists items,
      let st1 := SearchEngine.mkState
                   (SearchEngine.heap st ++ [SearchEngine.ResultArray items])
                   (SearchEngine.this_episodes st) in
      let st2 := SearchEngine.mkState
                   (SearchEngine.heap st1 ++ [SearchEngine.ResultArray items])
                   (SearchEngine.this_episodes st) in
      SearchEngine.search query opts st = (Ret (List.length (SearchEngine.heap st)), st1)
      /\ SearchEngine.search query opts st1
         = (Ret (List.length (SearchEngine.heap st1)), st2)
      /\ (forall a, a < List.length (SearchEngine.heap st) ->
                    nth_error (SearchEngine.heap st2) a
                    = nth_error (SearchEngine.heap st) a).
Proof.
  intros query opts st corpus Hcorpus.
  destruct (search_spec query opts st corpus Hcorpus) as [items [Hitems Hsearch]].
  exists items. cbv zeta. split; [exact Hsearch|].
  assert (Hcorpus1 :
            nth_error (SearchEngine.heap st ++ [SearchEngine.ResultArray items])
              (SearchEngine.this_episodes st)
            = Some (SearchEngine.EpisodeArray corpus)).
  { rewrite nth_error_app1 by (apply nth_error_Some; congruence). exact Hcorpus. }
  destruct (search_spec query opts
              (SearchEngine.mkState
                 (SearchEngine.heap st ++ [SearchEngine.ResultArray items])
                 (SearchEngine.this_episodes st)) corpus Hcorpus1)
    as [items' [Hitems' Hsearch']].
  assert (items' = items) by congruence. subst items'.
  split; [exact Hsearch'|].
  intros a Ha. cbn [SearchEngine.heap].
  rewrite !nth_error_app1; [reflexivity | exact Ha | rewrite length_app; lia].
Qed.

(** A search on the engine that holds the two episodes about a fox. *)
Lemma C10_search_pure_witness :
  exists items,
    SearchEngine.search "fox" defaults (engineWith foxCorpus)
    = (Ret 1,
       SearchEngine.mkState
         [SearchEngine.EpisodeArray foxCorpus; SearchEngine.ResultArray items] 0)
    /\ List.length items = 2.
Proof.
  destruct (C10_search_pure "fox" defaults (engineWith foxCorpus) foxCorpus eq_refl)
    as [items (H1 & _ & _)].
  exists items. split; [exact H1|].
  cbv zeta in H1. vm_compute in H1. injection H1 as <-. reflexivity.
Defined.

(* ================================================================== *)
(** * Further properties of the code *)
(* ================================================================== *)

(** ** [extractSegments] *)

Section ExtractSegments.
Import JS FileParser.

Lemma natToString_injective a b : natToString a = natToString b -> a = b.
Proof.
  unfold natToString. intros H.
  apply DecimalNat.Unsigned.to_uint_inj.
  assert (E : Some (Nat.to_uint a) = Some (Nat.to_uint b)).
  { rewrite <- (NilEmpty.usu (Nat.to_uint a)), <- (NilEmpty.usu (Nat.to_uint b)), H.
    reflexivity. }
  injection E as E. exact E.
Qed.

Lemma segmentId_injective a b : segmentId a = segmentId b -> a = b.
Proof.
  unfold segmentId. cbn [append]. intros H.
  injection H as H. apply natToString_injective. exact H.
Qed.

Lemma firstTruthy_primitive v keys last :
  (forall fields, v <> Obj fields) -> v <> Undefined -> v <> Null ->
  firstTruthy v keys last = Ret last.
Proof.
  intros Hobj Hu Hn. induction keys as [|key keys IH]; [reflexivity|].
  cbn [firstTruthy].
  destruct v; try contradiction; cbn [get obind truthy]; try exact IH.
  exfalso. exact (Hobj _ eq_refl).
Qed.

(** What one element gives, whenever the callback returns. *)
Lemma normalizeSegment_returns item index pushed :
  normalizeSegment item index = Ret pushed ->
  match pushed with
  | Some seg =>
      keptText item = [Segment.text seg]
      /\ Segment.id seg = segmentId index
      /\ trim (Segment.text seg) = Segment.text seg
      /\ Segment.text seg <> EmptyString
  | None => keptText item = []
  end.
Proof.
  destruct item as [| |b|n|s|items|fields].
  - cbn. intros H. injection H as <-. reflexivity.
  - cbn. intros H. injection H as <-. reflexivity.
  - cbn. intros H. injection H as <-. reflexivity.
  - cbn. intros H. injection H as <-. reflexivity.
  - unfold normalizeSegment, keptText, resolvedText. cbn [obind truthy].
    destruct s as [|c s]; cbn [isEmpty negb].
    + intros H. injection H as <-. reflexivity.
    + destruct (isEmpty (trim (String c s))) eqn:E.
      * intros H. injection H as <-. reflexivity.
      * cbn [get obind]. intros H. injection H as <-.
        cbn [Segment.text Segment.id].
        repeat split; [apply trim_idempotent | apply isEmpty_false; exact E].
  - unfold normalizeSegment.
    rewrite !firstTruthy_primitive by (intros; discriminate).
    cbn [obind].
    destruct (parseFloat _); cbn [obind truthy isEmpty negb]; try discriminate.
    intros H. injection H as <-. reflexivity.
  - rewrite normalizeSegment_obj. unfold keptText, resolvedText.
    destruct (parseFloat _) as [timestamp| |]; cbn [obind]; try discriminate.
    destruct (firstOf fields textAliases (Str "")) as [| |b|n|s|items|fs];
      cbn [truthy].
    + intros H. injection H as <-. reflexivity.
    + intros H. injection H as <-. reflexivity.
    + destruct b; [discriminate|]. intros H. injection H as <-. reflexivity.
    + destruct (numTruthy n); [discriminate|]. intros H. injection H as <-.
      reflexivity.
    + destruct (isEmpty s) eqn:Es.
      * intros H. injection H as <-. destruct s; [reflexivity | discriminate].
      * destruct (isEmpty (trim s)) eqn:E.
        -- intros H. injection H as <-. reflexivity.
        -- intros H. injection H as <-. cbn [Segment.text Segment.id].
           repeat split; [apply trim_idempotent | apply isEmpty_false; exact E].
    + discriminate.
    + discriminate.
Qed.

Lemma keptPositions_bounds items : forall index,
  Forall (fun i => index <= i) (keptPositions index items)
  /\ NoDup (keptPositions index items).
Proof.
  induction items as [|item items IH]; intros index.
  - split; constructor.
  - cbn [keptPositions]. destruct (IH (S index)) as [Hge Hnd].
    assert (Hge' : Forall (fun i => index <= i) (keptPositions (S index) items)).
    { eapply Forall_impl; [|exact Hge]. cbn. intros; lia. }
    destruct (keptText item); [split; assumption|].
    split; [constructor; [lia | exact Hge']|].
    constructor; [|exact Hnd].
    intros Hin. rewrite Forall_forall in Hge. specialize (Hge _ Hin). lia.
Qed.

(** The loop of [extractSegments], whenever it returns. *)
Lemma normalizeFrom_returns items : forall index segs,
  normalizeFrom index items = Ret segs ->
  map Segment.text segs = flat_map keptText items
  /\ map Segment.id segs = map segmentId (keptPositions index items)
  /\ Forall wellFormed segs.
Proof.
  induction items as [|item items IH]; intros index segs H.
  - cbn in H. injection H as <-. repeat split. constructor.
  - cbn [normalizeFrom] in H.
    destruct (normalizeSegment item index) as [pushed| |] eqn:Hitem;
      cbn [obind] in H; try discriminate.
    destruct (normalizeFrom (S index) items) as [rest| |] eqn:Hrest;
      cbn [obind] in H; try discriminate.
    injection H as <-.
    destruct (IH _ _ Hrest) as (Htexts & Hids & Hwf).
    apply normalizeSegment_returns in Hitem.
    cbn [flat_map keptPositions].
    destruct pushed as [seg|].
    + destruct Hitem as (Hkept & Hid & Htrim & Hne). rewrite Hkept.
      cbn [map app]. rewrite Htexts, Hids, Hid.
      repeat split. constructor; [split; assumption | exact Hwf].
    + rewrite Hitem. cbn [app]. repeat split; assumption.
Qed.

Lemma extractSegments_obj fields :
  extractSegments (Obj fields) = normalizeFrom 0 (transcriptItems fields).
Proof.
  unfold extractSegments, transcriptItems. rewrite firstTruthy_obj. cbn [obind].
  destruct (firstOf fields _ (Arr [])); reflexivity.
Qed.

(** Every value but [undefined] and [null] has a transcript array to
    walk, an empty one if need be. *)
Lemma extractSegments_inv data segs :
  extractSegments data = Ret segs ->
  exists items, normalizeFrom 0 items = Ret segs.
Proof.
  destruct data as [| |b|n|s|items|fields]; try discriminate;
    try (unfold extractSegments;
         rewrite firstTruthy_primitive by (intros; discriminate);
         cbn [obind]; intros H; exists []; exact H).
  rewrite extractSegments_obj. intros H. eexists. exact H.
Qed.

End ExtractSegments.

(** X1.  The segments that [extractSegments] returns carry pairwise
    distinct ids, each one [segment-i] for the position [i] of its
    element in the transcript array, in increasing order of [i]. *)
Theorem extractSegments_ids :
  forall (fields : list (string * JS.value)) (segs : list TranscriptSegment),
    FileParser.extractSegments (JS.Obj fields) = Ret segs ->
    map Segment.id segs
    = map FileParser.segmentId (keptPositions 0 (transcriptItems fields))
    /\ NoDup (map Segment.id segs).
Proof.
  intros fields segs H. rewrite extractSegments_obj in H.
  destruct (normalizeFrom_returns _ _ _ H) as (_ & Hids & _).
  split; [exact Hids|]. rewrite Hids.
  apply Finite.Injective_map_NoDup.
  - intros a b. apply segmentId_injective.
  - apply keptPositions_bounds.
Qed.

(** A transcript whose second line is blank. *)
Lemma extractSegments_ids_witness :
  map Segment.id
    [Segment.mk "segment-0" "Hello" (JS.ofNat 0) JS.Undefined JS.Undefined;
     Segment.mk "segment-2" "world" (JS.ofNat 10) JS.Undefined JS.Undefined]
  = ["segment-0"; "segment-2"]
  /\ NoDup ["segment-0"; "segment-2"].
Proof.
  exact (extractSegments_ids
           [("lines", JS.Arr [JS.Str "Hello"; JS.Str "  "; JS.Str " world "])]
           _ eq_refl).
Defined.

(** X2.  Whatever value [extractSegments] is given, when it returns,
    every segment has a text that is trimmed and not empty. *)
Theorem extractSegments_texts_trimmed :
  forall (data : JS.value) (segs : list TranscriptSegment) (seg : TranscriptSegment),
    FileParser.extractSegments data = Ret segs ->
    In seg segs ->
    JS.trim (Segment.text seg) = Segment.text seg
    /\ Segment.text seg <> EmptyString.
Proof.
  intros data segs seg H Hin.
  destruct (extractSegments_inv _ _ H) as [items Hitems].
  destruct (normalizeFrom_returns _ _ _ Hitems) as (_ & _ & Hwf).
  rewrite Forall_forall in Hwf. exact (Hwf seg Hin).
Qed.

Lemma extractSegments_texts_trimmed_witness :
  JS.trim "Hello there" = "Hello there" /\ "Hello there" <> EmptyString.
Proof.
  exact (extractSegments_texts_trimmed
           (JS.Obj [("segments", JS.Arr [JS.Str " Hello there "])]) _
           (Segment.mk "segment-0" "Hello there" (JS.ofNat 0) JS.Undefined JS.Undefined)
           eq_refl (or_introl eq_refl)).
Defined.

(** X3.  Which elements of the transcript array become segments, and
    with which text: a string or the first truthy text alias of a
    record, trimmed, when that leaves something; the others are passed
    over, and the order is kept. *)
Theorem extractSegments_texts :
  forall (fields : list (string * JS.value)) (segs : list TranscriptSegment),
    FileParser.extractSegments (JS.Obj fields) = Ret segs ->
    map Segment.text segs = flat_map keptText (transcriptItems fields).
Proof.
  intros fields segs H. rewrite extractSegments_obj in H.
  destruct (normalizeFrom_returns _ _ _ H) as (Htexts & _ & _). exact Htexts.
Qed.

Lemma extractSegments_texts_witness :
  map Segment.text
    [Segment.mk "segment-0" "Hello" (JS.ofNat 0) JS.Undefined JS.Undefined;
     Segment.mk "segment-3" "world" (JS.ofNat 7) (JS.Str "Ann") JS.Undefined]
  = flat_map keptText
      [JS.Str "Hello"; JS.Null; JS.Obj [("text", JS.Str "   ")];
       JS.Obj [("body", JS.Str " world "); ("time", JS.Num (JS.ofNat 7));
               ("name", JS.Str "Ann")]].
Proof.
  exact (extractSegments_texts
           [("lines",
             JS.Arr [JS.Str "Hello"; JS.Null; JS.Obj [("text", JS.Str "   ")];
                     JS.Obj [("body", JS.Str " world "); ("time", JS.Num (JS.ofNat 7));
                             ("name", JS.Str "Ann")]])]
           _ eq_refl).
Defined.

Section Throwing.
Import JS FileParser.

Lemma parseFloat_settles : forall v, parseFloat v <> Diverge.
Proof.
  fix IH 1. intros v. destruct v as [| |b|n|s|items|fields]; cbn [parseFloat];
    try discriminate.
  - destruct (forallb stringifiable items); [|discriminate].
    destruct items as [|x items]; [discriminate | apply IH].
  - destruct (stringifiable (Obj fields)); discriminate.
Qed.

(** A record whose text is truthy and no string stops the loop. *)
Lemma normalizeSegment_not_string record index :
  truthy (firstOf record textAliases (Str "")) = true ->
  isString (firstOf record textAliases (Str "")) = false ->
  exists message, normalizeSegment (Obj record) index = Throw message.
Proof.
  intros Htruthy Hstring. rewrite normalizeSegment_obj.
  pose proof (parseFloat_settles
                (firstOf record timestampAliases (Num (ofNat (index * 5))))) as Hs.
  destruct (parseFloat _) as [timestamp|message|]; cbn [obind];
    [| eexists; reflexivity | contradiction].
  destruct (firstOf record textAliases (Str "")); try discriminate;
    rewrite Htruthy; eexists; reflexivity.
Qed.

Lemma normalizeSegment_settles item index : normalizeSegment item index <> Diverge.
Proof.
  destruct item as [| |b|n|s|items|fields];
    try (unfold normalizeSegment; cbn [obind truthy isEmpty negb]; discriminate).
  - unfold normalizeSegment. cbn [obind truthy].
    destruct (negb (isEmpty s)); [|discriminate].
    destruct (isEmpty (trim s)); discriminate.
  - rewrite normalizeSegment_obj.
    pose proof (parseFloat_settles
                  (firstOf fields timestampAliases (Num (ofNat (index * 5))))) as Hs.
    destruct (parseFloat _); cbn [obind]; [| discriminate | contradiction].
    destruct (firstOf fields textAliases (Str "")) as [| |b|n|s|items|fs];
      cbn [truthy]; try discriminate.
    + destruct b; discriminate.
    + destruct (numTruthy n); discriminate.
    + destruct (isEmpty s); [discriminate|].
      destruct (isEmpty (trim s)); discriminate.
Qed.

Lemma normalizeFrom_not_string record items : forall index,
  In (Obj record) items ->
  truthy (firstOf record textAliases (Str "")) = true ->
  isString (firstOf record textAliases (Str "")) = false ->
  exists message, normalizeFrom index items = Throw message.
Proof.
  induction items as [|item items IH]; intros index Hin Htruthy Hstring;
    [destruct Hin|].
  cbn [normalizeFrom].
  pose proof (normalizeSegment_settles item index) as Hs.
  destruct Hin as [->|Hin].
  - destruct (normalizeSegment_not_string record index Htruthy Hstring) as [m ->].
    eexists. reflexivity.
  - destruct (normalizeSegment item index) as [pushed|m|]; cbn [obind];
      [| eexists; reflexivity | contradiction].
    destruct (IH (S index) Hin Htruthy Hstring) as [m ->]. eexists. reflexivity.
Qed.

End Throwing.

(** X4.  One record whose text is truthy and not a string (a number,
    [true], an array, an object) makes [extractSegments] throw: no
    segment of the transcript is returned, not even the ones before
    it. *)
Theorem extractSegments_text_not_string :
  forall (fields record : list (string * JS.value)),
    In (JS.Obj record) (transcriptItems fields) ->
    JS.truthy (firstOf record textAliases (JS.Str "")) = true ->
    JS.isString (firstOf record textAliases (JS.Str "")) = false ->
    exists message,
      FileParser.extractSegments (JS.Obj fields) = Throw message.
Proof.
  intros fields record Hin Htruthy Hstring. rewrite extractSegments_obj.
  exact (normalizeFrom_not_string record _ 0 Hin Htruthy Hstring).
Qed.

Lemma extractSegments_text_not_string_witness :
  exists message,
    FileParser.extractSegments
      (JS.Obj [("segments",
                JS.Arr [JS.Str "Hello there";
                        JS.Obj [("text", JS.Num (JS.ofNat 42))]])])
    = Throw message.
Proof.
  exact (extractSegments_text_not_string
           [("segments",
             JS.Arr [JS.Str "Hello there"; JS.Obj [("text", JS.Num (JS.ofNat 42))]])]
           [("text", JS.Num (JS.ofNat 42))]
           (or_intror (or_introl eq_refl)) eq_refl eq_refl).
Defined.

(** ** What the detectors hand back *)

Section Returns.

Lemma returnsOnly_ret {A} (P : A -> Prop) a : P a -> returnsOnly P (ret a).
Proof. intros H w b w' E. injection E as <- _. exact H. Qed.

Lemma returnsOnly_bind {A B} (P : A -> Prop) (Q : B -> Prop) m k :
  returnsOnly P m -> (forall a, P a -> returnsOnly Q (k a)) ->
  returnsOnly Q (bind m k).
Proof.
  intros Hm Hk w b w'. unfold bind.
  destruct (m w) as [[a|e|] w1] eqn:E; try discriminate.
  exact (Hk a (Hm _ _ _ E) w1 b w').
Qed.

Lemma returnsOnly_any {A} (m : Eff A) : returnsOnly (fun _ => True) m.
Proof. intros w a w' _. exact I. Qed.

Lemma returnsOnly_lift {A B} (Q : B -> Prop) (o : Outcome A) k :
  (forall a, o = Ret a -> returnsOnly Q (k a)) ->
  returnsOnly Q (bind (lift o) k).
Proof.
  intros Hk w b w'. unfold bind, lift.
  destruct o as [a|e|]; try discriminate. exact (Hk a eq_refl w b w').
Qed.

Lemma returnsOnly_tryCatch {A} (P : A -> Prop) body handler :
  returnsOnly P body -> (forall e, returnsOnly P (handler e)) ->
  returnsOnly P (tryCatch body handler).
Proof.
  intros Hb Hh w a w'. unfold tryCatch.
  destruct (body w) as [[b|e|] w1] eqn:E; try discriminate.
  - intros H. injection H as <- _. exact (Hb _ _ _ E).
  - exact (Hh e w1 a w').
Qed.

Lemma returnsOnly_weaken {A} (P Q : A -> Prop) m :
  (forall a, P a -> Q a) -> returnsOnly P m -> returnsOnly Q m.
Proof. intros HPQ Hm w a w' E. exact (HPQ _ (Hm _ _ _ E)). Qed.

End Returns.

Ltac hoare :=
  repeat match goal with
  | |- returnsOnly _ (bind (lift _) _) => apply returnsOnly_lift; intros ? ?
  | |- returnsOnly _ (bind (FileParser.generateId _) _) =>
      apply (returnsOnly_bind (fun _ => True)); [apply returnsOnly_any | intros ? _]
  | |- returnsOnly _ (bind (FileParser.isoNow _) _) =>
      apply (returnsOnly_bind (fun _ => True)); [apply returnsOnly_any | intros ? _]
  | |- returnsOnly _ (bind (FileParser.orNow _ _) _) =>
      apply (returnsOnly_bind (fun _ => True)); [apply returnsOnly_any | intros ? _]
  | |- returnsOnly _ (ret _) => apply returnsOnly_ret
  end.

Section Invariants.
Import JS FileParser.
Context (platform : Platform).

Lemma extractSegments_sound data segs :
  extractSegments data = Ret segs -> soundTranscript segs.
Proof.
  intros H. destruct (extractSegments_inv _ _ H) as [items Hitems].
  destruct (normalizeFrom_returns _ _ _ Hitems) as (_ & Hids & Hwf).
  split; [exact Hwf|]. rewrite Hids.
  apply Finite.Injective_map_NoDup.
  - intros a b. apply segmentId_injective.
  - apply keptPositions_bounds.
Qed.

Lemma nonempty_length {A} (l : list A) : (List.length l =? 0) = false -> l <> [].
Proof. destruct l; [discriminate | intros _; discriminate]. Qed.

Lemma createEpisodeFromSegments_sound segments filename :
  returnsOnly soundDraft (createEpisodeFromSegments platform segments filename).
Proof.
  unfold createEpisodeFromSegments. hoare.
  destruct (List.length a =? 0) eqn:Hlen; hoare; [exact I|].
  split; [exact (nonempty_length _ Hlen) | exact (extractSegments_sound _ _ H)].
Qed.

Lemma extractEpisodeFromData_sound data filename :
  returnsOnly soundDraft (extractEpisodeFromData platform data filename).
Proof.
  unfold extractEpisodeFromData. hoare.
  destruct (List.length a0 =? 0) eqn:Hlen; hoare; [exact I|].
  split; [exact (nonempty_length _ Hlen) | exact (extractSegments_sound _ _ H0)].
Qed.

Lemma extractApplePodcastEpisode_sound data filename :
  returnsOnly soundDraft (extractApplePodcastEpisode platform data filename).
Proof.
  unfold extractApplePodcastEpisode. hoare.
  destruct (negb (truthy a0)); hoare; [exact I|].
  destruct (List.length a1 =? 0) eqn:Hlen; hoare; [exact I|].
  split; [exact (nonempty_length _ Hlen) | exact (extractSegments_sound _ _ H1)].
Qed.

Lemma scanEntries_sound entries filename :
  returnsOnly soundDraft (scanEntries platform entries filename).
Proof.
  induction entries as [|[key value] entries IH]; cbn [scanEntries]; hoare;
    [exact I|].
  destruct value as [| |b|n|s|items|fields]; try exact IH.
  destruct items as [|firstItem items]; [exact IH|].
  destruct (typeofObject firstItem); [|exact IH]. hoare.
  destruct (truthy a); [apply createEpisodeFromSegments_sound | exact IH].
Qed.

Lemma parseJsonContent_returns content filename :
  returnsOnly soundDraft (parseJsonContent platform content filename).
Proof.
  unfold parseJsonContent. apply returnsOnly_tryCatch; [|intros; hoare; exact I].
  hoare. destruct (truthy a1); [apply extractApplePodcastEpisode_sound|].
  hoare. apply (returnsOnly_bind soundDraft).
  { destruct a2; hoare; try exact I. apply extractEpisodeFromData_sound. }
  intros [episode|] Hmultiple; hoare; [exact Hmultiple|].
  destruct (truthy a3); [apply extractEpisodeFromData_sound|].
  assert (Hscan : returnsOnly soundDraft
                    (bind (lift (objectEntries a))
                       (fun entries => scanEntries platform entries filename))).
  { hoare. apply scanEntries_sound. }
  destruct a as [| |b|n|s|items|fields]; try exact Hscan.
  destruct items as [|first items]; [exact Hscan|]. hoare.
  destruct (truthy a); [apply createEpisodeFromSegments_sound|]. hoare.
  destruct (truthy a4); [apply extractEpisodeFromData_sound | exact Hscan].
Qed.

Lemma parsePlistContent_returns content filename :
  returnsOnly soundDraft (parsePlistContent platform content filename).
Proof.
  unfold parsePlistContent. apply returnsOnly_tryCatch; [|intros; hoare; exact I].
  cbv zeta. destruct (DOM.querySelector _ _); hoare; [exact I|].
  destruct a as [segments|]; [apply createEpisodeFromSegments_sound|].
  destruct (0 <? _); [apply createEpisodeFromSegments_sound | hoare; exact I].
Qed.

End Invariants.

(** X5.  An episode that [parseJsonContent] returns has a transcript
    that is not empty, in which every text is trimmed and not empty and
    no two segments share an id. *)
Theorem parseJsonContent_sound :
  forall (platform : Platform) (content filename : string) (w w' : World)
         (episode : Episode),
    FileParser.parseJsonContent platform content filename w
    = (Ret (Some episode), w') ->
    hasTranscript episode /\ sound episode.
Proof.
  intros platform content filename w w' episode H.
  exact (parseJsonContent_returns platform content filename w (Some episode) w' H).
Qed.

Lemma parseJsonContent_sound_witness :
  exists episode w',
    FileParser.parseJsonContent pilotPlatform pilotSource "pilot.json" freshWorld
    = (Ret (Some episode), w')
    /\ map Segment.text (Episode.transcript episode) = ["Hello there"; "Good evening"]
    /\ hasTranscript episode /\ sound episode.
Proof.
  eexists. eexists. split; [reflexivity|]. split; [reflexivity|].
  exact (parseJsonContent_sound pilotPlatform pilotSource "pilot.json" freshWorld
           _ _ eq_refl).
Defined.

(** X6.  The same holds of an episode that [parsePlistContent]
    returns, whichever of its three strategies found the segments. *)
Theorem parsePlistContent_sound :
  forall (platform : Platform) (content filename : string) (w w' : World)
         (episode : Episode),
    FileParser.parsePlistContent platform content filename w
    = (Ret (Some episode), w') ->
    hasTranscript episode /\ sound episode.
Proof.
  intros platform content filename w w' episode H.
  exact (parsePlistContent_returns platform content filename w (Some episode) w' H).
Qed.

Lemma parsePlistContent_sound_witness :
  exists episode w',
    FileParser.parsePlistContent (xmlPlatform [("<notes/>", notesDocument)])
      "<notes/>" "notes.plist" freshWorld
    = (Ret (Some episode), w')
    /\ map Segment.text (Episode.transcript episode)
       = ["Welcome back to the show everyone"]
    /\ hasTranscript episode /\ sound episode.
Proof.
  eexists. eexists. split; [reflexivity|]. split; [reflexivity|].
  exact (parsePlistContent_sound (xmlPlatform [("<notes/>", notesDocument)])
           "<notes/>" "notes.plist" freshWorld _ _ eq_refl).
Defined.

(** X7.  A payload whose [episodes] array is empty, or starts with
    [null], yields no episode, whatever else it holds: the first
    element is handed to [extractEpisodeFromData], whose call of
    [Object.keys] throws, and the [catch] of [parseJsonContent] returns
    [null] before the other shapes are tried. *)
Theorem parseJsonContent_empty_episodes :
  forall (platform : Platform) (content filename : string)
         (fields : list (string * JS.value)) (w : World),
    JSON_parse platform content = Ret (JS.Obj fields) ->
    JS.truthy (prop fields "MTEpisode") = false ->
    JS.truthy (prop fields "episode") = false ->
    prop fields "episodes" = JS.Arr []
    \/ (exists rest, prop fields "episodes" = JS.Arr (JS.Null :: rest)) ->
    FileParser.parseJsonContent platform content filename w = (Ret None, w).
Proof.
  intros platform content filename fields w Hparse Hmt Hep Hepisodes.
  unfold FileParser.parseJsonContent, tryCatch, bind, lift. rewrite Hparse.
  cbn [JS.objectKeys FileParser.orProps obind]. rewrite !get_obj. cbn [obind].
  rewrite Hmt, Hep.
  destruct Hepisodes as [->|[rest ->]]; reflexivity.
Qed.

Lemma parseJsonContent_empty_episodes_witness :
  FileParser.parseJsonContent emptyFeedPlatform "{feed}" "feed.json" freshWorld
  = (Ret None, freshWorld).
Proof.
  exact (parseJsonContent_empty_episodes emptyFeedPlatform "{feed}" "feed.json"
           emptyFeedFields freshWorld eq_refl eq_refl eq_refl (or_introl eq_refl)).
Defined.

(** X8.  A payload with an [MTEpisode] record that has no transcript
    of its own yields no episode, even when the payload carries a
    transcript beside it: the Apple Podcasts shape is the only one
    tried. *)
Theorem parseJsonContent_envelope_without_transcript :
  forall (platform : Platform) (content filename : string)
         (fields inner : list (string * JS.value)) (w : World),
    JSON_parse platform content = Ret (JS.Obj fields) ->
    prop fields "MTEpisode" = JS.Obj inner ->
    (forall key, In key ["transcript"; "transcriptSegments"; "segments"; "lines"] ->
                 JS.truthy (prop inner key) = false) ->
    FileParser.parseJsonContent platform content filename w = (Ret None, w).
Proof.
  intros platform content filename fields inner w Hparse Hmt Hinner.
  unfold FileParser.parseJsonContent, tryCatch, bind, lift. rewrite Hparse.
  cbn [JS.objectKeys FileParser.orProps obind]. rewrite !get_obj. cbn [obind].
  rewrite Hmt. cbn [JS.truthy].
  unfold FileParser.extractApplePodcastEpisode, bind, lift.
  rewrite firstTruthy_obj. cbn [firstOf]. rewrite Hmt. cbn [JS.truthy].
  cbn [FileParser.orProps]. rewrite !get_obj. cbn [obind].
  rewrite (Hinner "transcript") by (cbn; tauto).
  rewrite (Hinner "transcriptSegments") by (cbn; tauto).
  rewrite (Hinner "segments") by (cbn; tauto).
  rewrite (Hinner "lines") by (cbn; tauto).
  reflexivity.
Qed.

Lemma parseJsonContent_envelope_without_transcript_witness :
  FileParser.parseJsonContent envelopePlatform "{envelope}" "pilot.json" freshWorld
  = (Ret None, freshWorld).
Proof.
  apply (parseJsonContent_envelope_without_transcript envelopePlatform "{envelope}"
           "pilot.json" envelopeFields [("title", JS.Str "Pilot")] freshWorld
           eq_refl eq_refl).
  intros key [<-|[<-|[<-|[<-|[]]]]]; reflexivity.
Defined.

(** ** What a batch returns *)

Section BatchInvariants.
Import JS FileParser.
Context (platform : Platform).

(** Segments made one per position, each under the id of its position. *)
Lemma indexed_segments_sound {A} (g : nat * A -> list TranscriptSegment) :
  (forall i x seg, In seg (g (i, x)) -> wellFormed seg /\ Segment.id seg = segmentId i) ->
  (forall i x, List.length (g (i, x)) <= 1) ->
  forall l k,
    soundTranscript (flat_map g (indexed_from k l))
    /\ Forall (fun seg => exists i, k <= i /\ Segment.id seg = segmentId i)
              (flat_map g (indexed_from k l)).
Proof.
  intros Hg Hone. induction l as [|x l IH]; intros k.
  - repeat split; constructor.
  - cbn [indexed_from flat_map].
    destruct (IH (S k)) as [[Hwf Hnd] Hids].
    assert (Hids' : Forall (fun seg => exists i, k <= i /\ Segment.id seg = segmentId i)
                      (flat_map g (indexed_from (S k) l))).
    { eapply Forall_impl; [|exact Hids]. intros seg [i [Hi E]]. exists i.
      split; [lia | exact E]. }
    specialize (Hg k x). specialize (Hone k x).
    destruct (g (k, x)) as [|seg [|seg' rest]]; cbn [app].
    + repeat split; assumption.
    + destruct (Hg seg (or_introl eq_refl)) as [Hseg Hid].
      split; [split|].
      * constructor; assumption.
      * cbn [map]. constructor; [|exact Hnd].
        intros Hin. apply in_map_iff in Hin. destruct Hin as [other [E Hother]].
        rewrite Forall_forall in Hids. destruct (Hids _ Hother) as [i [Hi Ei]].
        rewrite Hid, Ei in E. apply segmentId_injective in E. lia.
      * constructor; [exists k; split; [lia | exact Hid] | exact Hids'].
    + cbn in Hone. lia.
Qed.

Lemma createEpisodeFromText_sound content filename :
  returnsOnly sound (createEpisodeFromText platform content filename).
Proof.
  unfold createEpisodeFromText. cbv zeta. hoare.
  unfold sound. cbn [Episode.transcript].
  apply indexed_segments_sound.
  - intros i line seg. destruct (10 <? String.length (trim line)) eqn:Hlen;
      [|intros []].
    intros [<-|[]]. unfold wellFormed. cbn [Segment.text Segment.id].
    split; [|reflexivity].
    split; [apply trim_idempotent|].
    intros E. rewrite E in Hlen. discriminate.
  - intros i line. destruct (10 <? _); cbn; lia.
Qed.

Lemma soundDraft_sound draft : soundDraft draft -> optionally sound draft.
Proof. destruct draft; cbn; [intros [_ H]; exact H | exact (fun H => H)]. Qed.

Lemma processGenericFile_sound file :
  returnsOnly (optionally sound) (processGenericFile platform file).
Proof.
  unfold processGenericFile.
  apply returnsOnly_tryCatch; [|intros; hoare; exact I].
  apply (returnsOnly_bind (fun _ => True)); [apply returnsOnly_any | intros content _].
  apply (returnsOnly_bind (optionally sound)).
  { apply returnsOnly_tryCatch; [|intros; hoare; exact I].
    eapply returnsOnly_weaken; [exact soundDraft_sound|].
    apply parseJsonContent_returns. }
  intros [episode|] Hjson; hoare; [exact Hjson|].
  apply (returnsOnly_bind (optionally sound)).
  { apply returnsOnly_tryCatch; [|intros; hoare; exact I].
    eapply returnsOnly_weaken; [exact soundDraft_sound|].
    apply parsePlistContent_returns. }
  intros [episode|] Hplist; hoare; [exact Hplist|].
  destruct (_ && _); hoare; [|exact I].
  apply (returnsOnly_bind sound); [apply createEpisodeFromText_sound|].
  intros episode Hep. hoare. exact Hep.
Qed.

Lemma pushEpisode_all (P : Episode -> Prop) result draft :
  Forall P (episodes result) -> optionally P draft ->
  Forall P (episodes (pushEpisode result draft)).
Proof.
  intros Hres Hdraft. destruct draft as [episode|]; [|exact Hres].
  cbn. apply Forall_app. split; [exact Hres | constructor; [exact Hdraft | constructor]].
Qed.

Lemma foldEff_invariant {A S} (Inv : S -> Prop) (body : S -> A -> Eff S) l :
  (forall acc x, Inv acc -> returnsOnly Inv (body acc x)) ->
  forall acc, Inv acc -> returnsOnly Inv (foldEff body l acc).
Proof.
  intros Hbody. induction l as [|x l IH]; intros acc Hacc; cbn [foldEff].
  - apply returnsOnly_ret. exact Hacc.
  - apply (returnsOnly_bind Inv); [exact (Hbody _ _ Hacc) | exact IH].
Qed.

Lemma processZipEntry_sound result entry :
  Forall (fun episode => soundDraft (Some episode)) (episodes result) ->
  returnsOnly
    (fun r => Forall (fun episode => soundDraft (Some episode)) (episodes r))
    (processZipEntry platform result entry).
Proof.
  intros Hres. destruct entry as [filename zipEntry]. unfold processZipEntry.
  destruct (dir zipEntry); hoare; [exact Hres|].
  apply returnsOnly_tryCatch; [|intros; hoare; exact Hres].
  apply (returnsOnly_bind (fun _ => True)); [apply returnsOnly_any | intros content _].
  destruct (endsWith filename ".json").
  { apply (returnsOnly_bind soundDraft); [apply parseJsonContent_returns|].
    intros draft Hdraft. hoare. apply pushEpisode_all; [exact Hres|].
    destruct draft; exact Hdraft. }
  destruct (_ || _).
  { apply (returnsOnly_bind soundDraft); [apply parsePlistContent_returns|].
    intros draft Hdraft. hoare. apply pushEpisode_all; [exact Hres|].
    destruct draft; exact Hdraft. }
  destruct (_ || _); hoare; [|exact Hres].
  apply (returnsOnly_bind sound); [apply createEpisodeFromText_sound|].
  intros episode Hep.
  destruct (0 <? List.length (Episode.transcript episode)) eqn:Hlen; hoare;
    [|exact Hres].
  apply pushEpisode_all; [exact Hres|]. split; [|exact Hep].
  unfold hasTranscript. intros E. rewrite E in Hlen. discriminate.
Qed.

Lemma processZipFile_returns file :
  returnsOnly
    (fun r => Forall (fun episode => soundDraft (Some episode)) (episodes r))
    (processZipFile platform file).
Proof.
  unfold processZipFile. cbv zeta.
  apply returnsOnly_tryCatch; [|intros; hoare; constructor].
  apply (returnsOnly_bind (fun _ => True)); [apply returnsOnly_any | intros contents _].
  apply foldEff_invariant; [|constructor].
  intros acc entry. apply processZipEntry_sound.
Qed.

Lemma processFile_sound result file :
  Forall sound (episodes result) ->
  returnsOnly (fun r => Forall sound (episodes r)) (processFile platform result file).
Proof.
  intros Hres. unfold processFile. cbv zeta.
  apply returnsOnly_tryCatch; [|intros; hoare; exact Hres].
  destruct (_ && _); hoare; [exact Hres|].
  destruct (endsWith _ ".zip").
  { apply (returnsOnly_bind _ _ _ _ (processZipFile_returns file)).
    intros zipResult Hzip. hoare. cbn [episodes]. apply Forall_app.
    split; [exact Hres|]. eapply Forall_impl; [|exact Hzip].
    intros episode [_ H]. exact H. }
  destruct (endsWith _ ".json").
  { unfold processJsonFile.
    apply (returnsOnly_bind soundDraft).
    - apply (returnsOnly_bind (fun _ => True)); [apply returnsOnly_any|].
      intros content _. apply parseJsonContent_returns.
    - intros draft Hdraft. hoare. apply pushEpisode_all; [exact Hres|].
      apply soundDraft_sound. exact Hdraft. }
  destruct (_ || _).
  { unfold processPlistFile.
    apply (returnsOnly_bind soundDraft).
    - apply (returnsOnly_bind (fun _ => True)); [apply returnsOnly_any|].
      intros content _. apply parsePlistContent_returns.
    - intros draft Hdraft. hoare. apply pushEpisode_all; [exact Hres|].
      apply soundDraft_sound. exact Hdraft. }
  destruct (_ || _); hoare; [exact Hres|].
  destruct (_ || _);
    (apply (returnsOnly_bind _ _ _ _ (processGenericFile_sound file));
     intros draft Hdraft; hoare; apply pushEpisode_all; [exact Hres | exact Hdraft]).
Qed.

Lemma processFile_settles result file w :
  rejected (fst (processFile platform result file w)) = false.
Proof.
  unfold processFile, tryCatch. cbv zeta.
  match goal with
  | |- context [match ?body with _ => _ end] => destruct body as [[r|e|] w1]
  end; reflexivity.
Qed.

Lemma foldEff_settles files : forall result w,
  rejected (fst (foldEff (processFile platform) files result w)) = false.
Proof.
  induction files as [|file files IH]; intros result w; [reflexivity|].
  cbn [foldEff]. unfold bind.
  pose proof (processFile_settles result file w) as H.
  destruct (processFile platform result file w) as [[r|e|] w1];
    [apply IH | discriminate | reflexivity].
Qed.

End BatchInvariants.

(** X9.  Every episode that [processZipFile] returns has a transcript
    that is not empty, with trimmed non-empty texts under distinct
    ids: inside an archive the free-text drafts without segments are
    dropped. *)
Theorem processZipFile_sound :
  forall (platform : Platform) (file : File) (w w' : World)
         (result : FileProcessingResult) (episode : Episode),
    FileParser.processZipFile platform file w = (Ret result, w') ->
    In episode (episodes result) ->
    hasTranscript episode /\ sound episode.
Proof.
  intros platform file w w' result episode H Hin.
  pose proof (processZipFile_returns platform file w result w' H) as Hall.
  rewrite Forall_forall in Hall. exact (Hall episode Hin).
Qed.

Lemma processZipFile_sound_witness :
  exists result w' episode,
    FileParser.processZipFile pilotPlatform pilotArchive freshWorld
    = (Ret result, w')
    /\ episodes result = [episode]
    /\ errors result = ["Error processing shows/broken.json: Corrupted zip"]
    /\ hasTranscript episode /\ sound episode.
Proof.
  eexists. eexists. eexists. split; [reflexivity|].
  split; [reflexivity|]. split; [reflexivity|].
  exact (processZipFile_sound pilotPlatform pilotArchive freshWorld _ _ _ eq_refl
           (or_introl eq_refl)).
Defined.

(** X10.  Whatever the batch, every episode that [processFiles] returns
    has a sound transcript: each text is trimmed and not empty, and no
    two segments of an episode share an id. *)
Theorem processFiles_sound :
  forall (platform : Platform) (files : list File) (w w' : World)
         (result : FileProcessingResult) (episode : Episode),
    FileParser.processFiles platform files w = (Ret result, w') ->
    In episode (episodes result) ->
    sound episode.
Proof.
  intros platform files w w' result episode H Hin.
  assert (Hall : Forall sound (episodes result)).
  { refine (foldEff_invariant (fun r => Forall sound (episodes r)) _ files _
              (mkResult [] []) _ w result w' H).
    - intros acc file. apply processFile_sound.
    - constructor. }
  rewrite Forall_forall in Hall. exact (Hall episode Hin).
Qed.

Lemma processFiles_sound_witness :
  exists result w' episode,
    FileParser.processFiles pilotPlatform
      [jsonFile "pilot.json" pilotSource; pilotArchive] freshWorld
    = (Ret result, w')
    /\ In episode (episodes result)
    /\ List.length (episodes result) = 2
    /\ sound episode.
Proof.
  eexists. eexists. eexists. split; [reflexivity|].
  split; [left; reflexivity|]. split; [reflexivity|].
  exact (processFiles_sound pilotPlatform
           [jsonFile "pilot.json" pilotSource; pilotArchive] freshWorld _ _ _
           eq_refl (or_introl eq_refl)).
Defined.

(** X11.  [processFiles] never rejects: whatever goes wrong with a file
    is caught and reported among the errors of the result. *)
Theorem processFiles_never_rejects :
  forall (platform : Platform) (files : list File) (w : World),
    rejected (fst (FileParser.processFiles platform files w)) = false.
Proof.
  intros platform files w. apply foldEff_settles.
Qed.

(** X12.  A batch is processed file by file, in order: the result for
    [before ++ after] is the result for [before] followed by the result
    for [after], run in the world that [before] left. *)
Theorem processFiles_app :
  forall (platform : Platform) (before after : list File) (w : World),
    FileParser.processFiles platform (before ++ after) w
    = match FileParser.processFiles platform before w with
      | (Ret first, w1) =>
          let '(rest, w2) := FileParser.processFiles platform after w1 in
          (mapOutcome (mergeResults first) rest, w2)
      | (Throw message, w1) => (Throw message, w1)
      | (Diverge, w1) => (Diverge, w1)
      end.
Proof.
  intros platform before after w. unfold FileParser.processFiles.
  rewrite foldEff_app. unfold bind.
  destruct (FileParser.foldEff _ before _ w) as [[first|message|] w1];
    try reflexivity.
  fold emptyResult. apply foldEff_appends.
Qed.

(** ** How failures are reported *)

Section Failures.
Import JS FileParser.
Context (platform : Platform).

Lemma tryCatch_settles {A} (body : Eff A) (recover : string -> A) w :
  rejected (fst (tryCatch body (fun e => ret (recover e)) w)) = false.
Proof. unfold tryCatch. destruct (body w) as [[a|e|] w1]; reflexivity. Qed.

Lemma parseJsonContent_settles content filename w :
  rejected (fst (parseJsonContent platform content filename w)) = false.
Proof. apply (tryCatch_settles _ (fun _ => None)). Qed.

Lemma parsePlistContent_settles content filename w :
  rejected (fst (parsePlistContent platform content filename w)) = false.
Proof. apply (tryCatch_settles _ (fun _ => None)). Qed.

Lemma processGenericFile_settles file w :
  rejected (fst (processGenericFile platform file w)) = false.
Proof. apply (tryCatch_settles _ (fun _ => None)). Qed.

End Failures.

(** X13.  A [.json], [.plist] or [.xml] file whose contents cannot be
    read adds the one error [Error processing NAME: MESSAGE] and no
    episode, and the batch goes on. *)
Theorem processFile_read_failure :
  forall (platform : Platform) (result : FileProcessingResult) (file : File)
         (message : string) (w : World),
    routeOf file = Json \/ routeOf file = Plist ->
    File.text file = Throw message ->
    FileParser.processFile platform result file w
    = (Ret (FileParser.pushError result
              ("Error processing " ++ File.name file ++ ": " ++ message)),
       afterRead (File.name file) w).
Proof.
  intros platform result file message w Hroute Htext.
  unfold routeOf in Hroute. unfold FileParser.processFile, tryCatch. cbv zeta in *.
  destruct (_ && _); [destruct Hroute; discriminate|].
  destruct (JS.endsWith _ ".zip"); [destruct Hroute; discriminate|].
  destruct (JS.endsWith _ ".json").
  { unfold FileParser.processJsonFile, bind, FileParser.readText.
    rewrite Htext. reflexivity. }
  destruct (_ || _).
  { unfold FileParser.processPlistFile, bind, FileParser.readText.
    rewrite Htext. reflexivity. }
  destruct (_ || _); destruct Hroute; discriminate.
Qed.

Lemma processFile_read_failure_witness :
  FileParser.processFile plainTextPlatform emptyResult
    (unreadable "feed.xml" "The file could not be read") freshWorld
  = (Ret (mkResult [] ["Error processing feed.xml: The file could not be read"]),
     mkWorld 0 ["feed.xml"]).
Proof.
  exact (processFile_read_failure plainTextPlatform emptyResult
           (unreadable "feed.xml" "The file could not be read") _ freshWorld
           (or_intror eq_refl) eq_refl).
Defined.

(** X14.  A file of any other kind whose contents cannot be read is
    dropped without a word: [processGenericFile] catches the failure,
    so that the result is left as it was. *)
Theorem processFile_generic_read_failure :
  forall (platform : Platform) (result : FileProcessingResult) (file : File)
         (message : string) (w : World),
    routeOf file = Generic ->
    File.text file = Throw message ->
    FileParser.processFile platform result file w
    = (Ret result, afterRead (File.name file) w).
Proof.
  intros platform result file message w Hroute Htext.
  unfold routeOf in Hroute. unfold FileParser.processFile, tryCatch. cbv zeta in *.
  destruct (_ && _); [discriminate|].
  destruct (JS.endsWith _ ".zip"); [discriminate|].
  destruct (JS.endsWith _ ".json"); [discriminate|].
  destruct (_ || _); [discriminate|].
  destruct (_ || _); [discriminate|].
  destruct (_ || _);
    unfold FileParser.processGenericFile, tryCatch, bind, FileParser.readText;
    rewrite Htext; reflexivity.
Qed.

Lemma processFile_generic_read_failure_witness :
  FileParser.processFile plainTextPlatform emptyResult
    (unreadable "transcript.txt" "The file could not be read") freshWorld
  = (Ret emptyResult, mkWorld 0 ["transcript.txt"]).
Proof.
  exact (processFile_generic_read_failure plainTextPlatform emptyResult
           (unreadable "transcript.txt" "The file could not be read") _ freshWorld
           eq_refl eq_refl).
Defined.

(** X15.  An archive that cannot be opened adds the one error
    [Error reading ZIP file: MESSAGE] and no episode. *)
Theorem processFile_corrupt_archive :
  forall (platform : Platform) (result : FileProcessingResult) (file : File)
         (message : string) (w : World),
    routeOf file = Archive ->
    File.archive file = Throw message ->
    FileParser.processFile platform result file w
    = (Ret (FileParser.pushError result ("Error reading ZIP file: " ++ message)),
       afterRead (File.name file) w).
Proof.
  intros platform result file message w Hroute Harchive.
  unfold routeOf in Hroute. unfold FileParser.processFile, tryCatch. cbv zeta in *.
  destruct (_ && _); [discriminate|].
  destruct (JS.endsWith _ ".zip").
  - unfold bind, FileParser.processZipFile, tryCatch, bind, FileParser.loadAsync.
    rewrite Harchive. cbn. rewrite app_nil_r. reflexivity.
  - destruct (JS.endsWith _ ".json"); [discriminate|].
    destruct (_ || _); [discriminate|].
    destruct (_ || _); discriminate.
Qed.

Lemma processFile_corrupt_archive_witness :
  FileParser.processFile plainTextPlatform emptyResult
    (unreadable "export.zip" "Can't find end of central directory") freshWorld
  = (Ret (mkResult [] ["Error reading ZIP file: Can't find end of central directory"]),
     mkWorld 0 ["export.zip"]).
Proof.
  exact (processFile_corrupt_archive plainTextPlatform emptyResult
           (unreadable "export.zip" "Can't find end of central directory") _
           freshWorld eq_refl eq_refl).
Defined.

(** X16.  A file that is not an archive and whose contents can be read
    never adds an error: it adds one episode or nothing, so that
    contents in which no detector finds a transcript are dropped
    without a word. *)
Theorem processFile_readable_no_error :
  forall (platform : Platform) (result result' : FileProcessingResult)
         (file : File) (content : string) (w w' : World),
    routeOf file = Json \/ routeOf file = Plist \/ routeOf file = Generic ->
    File.text file = Ret content ->
    FileParser.processFile platform result file w = (Ret result', w') ->
    exists draft, result' = FileParser.pushEpisode result draft.
Proof.
  intros platform result result' file content w w' Hroute Htext.
  unfold routeOf in Hroute. unfold FileParser.processFile, tryCatch. cbv zeta in *.
  destruct (_ && _); [destruct Hroute as [|[|]]; discriminate|].
  destruct (JS.endsWith _ ".zip"); [destruct Hroute as [|[|]]; discriminate|].
  destruct (JS.endsWith _ ".json").
  { unfold FileParser.processJsonFile, bind, FileParser.readText. rewrite Htext.
    pose proof (parseJsonContent_settles platform content (File.name file)
                  (mkWorld (ticks w) (reads w ++ [File.name file]))) as Hs.
    destruct (FileParser.parseJsonContent _ _ _ _) as [[draft|e|] w1];
      try discriminate.
    unfold ret. intros H. injection H as <- _. exists draft. reflexivity. }
  destruct (_ || _).
  { unfold FileParser.processPlistFile, bind, FileParser.readText. rewrite Htext.
    pose proof (parsePlistContent_settles platform content (File.name file)
                  (mkWorld (ticks w) (reads w ++ [File.name file]))) as Hs.
    destruct (FileParser.parsePlistContent _ _ _ _) as [[draft|e|] w1];
      try discriminate.
    unfold ret. intros H. injection H as <- _. exists draft. reflexivity. }
  destruct (_ || _); [destruct Hroute as [|[|]]; discriminate|].
  destruct (_ || _);
    (unfold bind;
     pose proof (processGenericFile_settles platform file w) as Hs;
     destruct (FileParser.processGenericFile _ _ _) as [[draft|e|] w1];
     try discriminate;
     unfold ret; intros H; injection H as <- _; exists draft; reflexivity).
Qed.

Lemma processFile_readable_no_error_witness :
  exists draft,
    mkResult [] ["earlier"]
    = FileParser.pushEpisode (mkResult [] ["earlier"]) draft.
Proof.
  exact (processFile_readable_no_error plainTextPlatform (mkResult [] ["earlier"])
           _ (jsonFile "broken.json" "{") "{" freshWorld _
           (or_introl eq_refl) eq_refl eq_refl).
Defined.

(** ** Titles from file names *)

Section Names.
Import JS RegExp FileParser.

Lemma inRange_single a c : inRange a (c, c) = Ascii.eqb a c.
Proof.
  unfold inRange, code. cbn [fst snd].
  destruct (Ascii.eqb a c) eqn:E.
  - apply Ascii.eqb_eq in E. subst a. rewrite Nat.leb_refl. reflexivity.
  - apply Bool.andb_false_iff.
    destruct (nat_of_ascii c <=? nat_of_ascii a) eqn:L1; [right | left; reflexivity].
    destruct (nat_of_ascii a <=? nat_of_ascii c) eqn:L2; [|reflexivity].
    apply Nat.leb_le in L1, L2.
    assert (H : nat_of_ascii a = nat_of_ascii c) by lia.
    apply (f_equal ascii_of_nat) in H. rewrite !ascii_nat_embedding in H.
    subst a. rewrite Ascii.eqb_refl in E. discriminate.
Qed.

Lemma extensionClass_matches ic a :
  charMatches ic extensionClass a = extensionChar a.
Proof.
  unfold charMatches, extensionClass, extensionChar. cbn [existsb xorb].
  rewrite !inRange_single, Bool.orb_false_r. reflexivity.
Qed.

Lemma tail_step ic prev a s pos cp :
  matchHere ic extensionTail prev (String a s) pos cp
  = if charMatches ic extensionClass a then
      match matchHere ic extensionTail (Some a) s (S pos) cp with
      | Some r => Some r
      | None => matchHere ic [NEol] (Some a) s (S pos) cp
      end
    else None.
Proof. reflexivity. Qed.

(** The run of extension characters up to the end of the name. *)
Lemma tail_matches ic ext : forall prev pos cp,
  isExtension ext = true ->
  matchHere ic extensionTail prev ext pos cp = Some (pos + String.length ext, cp).
Proof.
  unfold isExtension.
  induction ext as [|a ext IH]; intros prev pos cp H; [discriminate|].
  cbn [isEmpty negb andb list_ascii_of_string forallb] in H.
  apply Bool.andb_true_iff in H. destruct H as [Ha Hext].
  rewrite tail_step, extensionClass_matches, Ha.
  destruct ext as [|b ext].
  - cbn. f_equal. f_equal. lia.
  - rewrite IH by exact Hext. cbn [String.length]. f_equal. f_equal. lia.
Qed.

(** No such run reaches the end across a dot. *)
Lemma tail_blocked ic ext t : forall prev pos cp,
  matchHere ic extensionTail prev (t ++ String "." ext) pos cp = None.
Proof.
  induction t as [|a t IH]; intros prev pos cp.
  - cbn [append]. rewrite tail_step, extensionClass_matches. reflexivity.
  - cbn [append]. rewrite tail_step, IH.
    destruct (charMatches _ _ _); [|reflexivity].
    destruct t; reflexivity.
Qed.

Lemma matchAt_extension prev a s :
  matchAt extensionPattern prev (String a s)
  = if Ascii.eqb a "." then
      match matchHere false extensionTail (Some a) s 1 (None, None) with
      | Some (len, cp) =>
          Some (mkMatch len (String.substring 0 len (String a s)) None)
      | None => None
      end
    else None.
Proof.
  assert (E0 : matchHere (ignoreCase extensionPattern) (source extensionPattern)
                 prev (String a s) 0 (None, None)
               = if Ascii.eqb a "."
                 then matchHere false extensionTail (Some a) s 1 (None, None)
                 else None) by reflexivity.
  unfold matchAt. rewrite E0. clear E0.
  destruct (Ascii.eqb a "."); [|reflexivity].
  destruct (matchHere false extensionTail (Some a) s 1 (None, None)) as [[len [o1 o2]]|] eqn:E;
    [|reflexivity].
  assert (Hcp : forall s prev pos cp r,
             matchHere false extensionTail prev s pos cp = Some r -> snd r = cp).
  { clear. induction s as [|b s IH]; intros prev pos cp r; [discriminate|].
    rewrite tail_step. destruct (charMatches _ _ _); [|discriminate].
    destruct (matchHere false extensionTail (Some b) s (S pos) cp) eqn:E.
    - intros H. injection H as <-. exact (IH _ _ _ _ E).
    - destruct s; [|discriminate]. cbn. intros H. injection H as <-. reflexivity. }
  apply Hcp in E. cbn in E. injection E as -> ->. reflexivity.
Qed.

Lemma dropString_all s : dropString (String.length s) s = EmptyString.
Proof. induction s as [|a s IH]; [reflexivity | exact IH]. Qed.

End Names.

(** X17.  [stripExtension], the expression that makes a title of a
    file name, removes the last extension: the dot and what follows
    it, when that is not empty and holds neither a dot nor a slash. *)
Theorem stripExtension_removes_extension :
  forall base ext : string,
    isExtension ext = true ->
    FileParser.stripExtension (base ++ String "." ext) = base.
Proof.
  intros base ext Hext. unfold FileParser.stripExtension, RegExp.replace.
  cbn [RegExp.global FileParser.extensionPattern].
  generalize (@None ascii) as prev.
  induction base as [|a base IH]; intros prev.
  - cbn [append]. unfold RegExp.replaceFirst.
    destruct ext as [|e ext]; [discriminate|].
    rewrite matchAt_extension. cbn [Ascii.eqb Bool.eqb andb].
    rewrite (tail_matches false (String e ext)) by exact Hext.
    cbn [RegExp.matchLength RegExp.expand RegExp.hasGroup append].
    change (1 + String.length (String e ext))
      with (String.length (String "." (String e ext))).
    apply dropString_all.
  - cbn [append RegExp.replaceFirst]. rewrite matchAt_extension.
    rewrite tail_blocked. destruct (Ascii.eqb a "."); rewrite IH; reflexivity.
Qed.

Lemma stripExtension_removes_extension_witness :
  FileParser.stripExtension ("shows/ep.12/My Episode.final" ++ String "." "json")
  = "shows/ep.12/My Episode.final".
Proof.
  exact (stripExtension_removes_extension "shows/ep.12/My Episode.final" "json"
           eq_refl).
Defined.

(** X18.  A name without a dot is the title as it stands. *)
Theorem stripExtension_without_dot :
  forall name : string,
    JS.includes name "." = false ->
    FileParser.stripExtension name = name.
Proof.
  intros name. unfold FileParser.stripExtension, RegExp.replace.
  cbn [RegExp.global FileParser.extensionPattern].
  generalize (@None ascii) as prev.
  induction name as [|a name IH]; intros prev H; [reflexivity|].
  cbn [JS.includes JS.startsWith] in H.
  cbn [RegExp.replaceFirst]. rewrite matchAt_extension.
  destruct (Ascii.eqb "." a) eqn:E; [discriminate|].
  rewrite Ascii.eqb_sym, E. cbn [andb] in H. rewrite (IH _ H). reflexivity.
Qed.

Lemma stripExtension_without_dot_witness :
  FileParser.stripExtension "README" = "README".
Proof. exact (stripExtension_without_dot "README" eq_refl). Defined.

(** ** What a search returns *)

Section Stability.
Import JS.
Context {A : Type}.
Variable comparefn : A -> A -> Outcome number.
Variable cmp : A -> A -> number.
Hypothesis comparefn_returns : forall a b, comparefn a b = Ret (cmp a b).
Variable keep : A -> bool.
Hypothesis keep_order : forall x y,
  keep x = true -> keep y = true -> numPositive (cmp x y) = false.

(** Elements that the comparator never puts after one another keep
    their order. *)
Lemma insertSorted_stable x l l' :
  insertSorted comparefn x l = Ret l' -> filter keep l' = filter keep (x :: l).
Proof.
  revert l'. induction l as [|y l IH]; intros l'; cbn [insertSorted].
  - intros H. injection H as <-. reflexivity.
  - rewrite comparefn_returns. cbn [obind].
    destruct (numPositive (cmp x y)) eqn:E.
    + destruct (insertSorted comparefn x l) as [r| |]; cbn [obind]; try discriminate.
      intros H. injection H as <-. specialize (IH r eq_refl).
      cbn [filter] in *. rewrite IH.
      destruct (keep x) eqn:Kx, (keep y) eqn:Ky; try reflexivity.
      rewrite (keep_order x y Kx Ky) in E. discriminate.
    + intros H. injection H as <-. reflexivity.
Qed.

Lemma sort_stable l : forall l',
  sort comparefn l = Ret l' -> filter keep l' = filter keep l.
Proof.
  induction l as [|x l IH]; intros l'; cbn [sort].
  - intros H. injection H as <-. reflexivity.
  - destruct (sort comparefn l) as [s| |]; cbn [obind]; try discriminate.
    intros H. apply insertSorted_stable in H. rewrite H.
    cbn [filter]. rewrite (IH s eq_refl). reflexivity.
Qed.

End Stability.

Section Results.
Import JS SearchEngine.

Lemma sameTime_not_positive z x y :
  sameTime z x = true -> sameTime z y = true ->
  numPositive (numSub x y) = false.
Proof.
  destruct z as [| |c|], x as [| |a|], y as [| |b|]; try discriminate;
    try reflexivity.
  cbn [sameTime]. intros Hx Hy. apply Qeq_bool_iff in Hx, Hy.
  unfold numSub. cbn [numNeg numAdd numPositive]. rewrite Qcompare_Qred.
  destruct (Qcompare (a + - b) 0) eqn:E; try reflexivity.
  apply Qgt_alt in E. lra.
Qed.

Lemma ties_not_positive query opts z x y :
  ties query opts z x = true -> ties query opts z y = true ->
  numPositive (rank query opts x y) = false.
Proof.
  unfold ties, rank. intros Hx Hy.
  apply andb_true_iff in Hx, Hy. destruct Hx as [Rx Tx], Hy as [Ry Ty].
  apply Nat.eqb_eq in Rx, Ry.
  replace (relevance query opts x =? relevance query opts y) with true
    by (symmetry; apply Nat.eqb_eq; congruence).
  cbn [negb]. exact (sameTime_not_positive _ _ _ Tx Ty).
Qed.

(** What [search_spec] gives, with the blank query folded in. *)
Lemma search_expected query opts st corpus :
  nth_error (heap st) (this_episodes st) = Some (EpisodeArray corpus) ->
  exists items,
    search query opts st = (Ret (List.length (heap st)), searched st items)
    /\ (if isEmpty (trim query) then items = []
        else sort (byRelevance (searchQueryOf query opts) opts) (hits query opts corpus)
             = Ret items).
Proof.
  intros Hcorpus.
  destruct (search_spec query opts st corpus Hcorpus) as [items [Hitems Hsearch]].
  exists items. split; [exact Hsearch|].
  destruct (isEmpty (trim query)); [congruence | exact Hitems].
Qed.

Lemma hits_ids query opts corpus r :
  In r (hits query opts corpus) ->
  exists episode segment,
    In episode corpus /\ In segment (Episode.transcript episode)
    /\ Result.episodeId r = Episode.id episode
    /\ Result.segmentId r = Segment.id segment
    /\ Result.text r = Segment.text segment
    /\ Result.timestamp r = Segment.timestamp segment.
Proof.
  unfold hits. intros H. apply in_flat_map in H. destruct H as [episode [Hep H]].
  apply in_flat_map in H. destruct H as [segment [Hseg H]].
  exists episode, segment. split; [exact Hep|]. split; [exact Hseg|].
  unfold segmentHits in H. destruct (holds _); [|destruct H].
  destruct H as [<-|[]]. repeat split.
Qed.

Lemma find_unique {A} (key : A -> string) (l : list A) x :
  NoDup (map key l) -> In x l ->
  find (fun y => String.eqb (key y) (key x)) l = Some x.
Proof.
  induction l as [|y l IH]; intros Hnd Hin; [destruct Hin|].
  cbn [map] in Hnd. inversion Hnd as [|? ? Hnotin Hnd']; subst.
  cbn [find]. destruct Hin as [->|Hin].
  - rewrite String.eqb_refl. reflexivity.
  - destruct (String.eqb (key y) (key x)) eqn:E; [|exact (IH Hnd' Hin)].
    apply String.eqb_eq in E. exfalso. apply Hnotin. rewrite E.
    apply in_map. exact Hin.
Qed.

(** The array that [search] builds holds the hits, in some order. *)
Lemma search_permutation query opts st corpus :
  nth_error (heap st) (this_episodes st) = Some (EpisodeArray corpus) ->
  exists items,
    search query opts st = (Ret (List.length (heap st)), searched st items)
    /\ Permutation (expected query opts corpus) items.
Proof.
  intros Hcorpus.
  destruct (search_expected query opts st corpus Hcorpus) as [items [Hsearch Hitems]].
  exists items. split; [exact Hsearch|]. unfold expected.
  destruct (isEmpty (trim query)) eqn:Hq.
  - subst items. apply perm_nil.
  - destruct (sort_permutation
                (byRelevance (searchQueryOf query opts) opts)
                (rank query opts) (fun a b => byRelevance_spec query opts a b Hq)
                (hits query opts corpus)) as [sorted [Hsort Hperm]].
    rewrite Hsort in Hitems. injection Hitems as <-. exact Hperm.
Qed.

End Results.

(** X19.  On an engine that holds a corpus, [search] returns one
    result for each segment that matches the query, and nothing else:
    the array it builds is a rearrangement of the matching segments
    taken in corpus order, and it is empty for a blank query. *)
Theorem search_returns_hits :
  forall (query : string) (opts : SearchEngine.options) (st : SearchEngine.state)
         (corpus : list Episode),
    nth_error (SearchEngine.heap st) (SearchEngine.this_episodes st)
    = Some (SearchEngine.EpisodeArray corpus) ->
    exists items,
      SearchEngine.search query opts st
      = (Ret (List.length (SearchEngine.heap st)), searched st items)
      /\ Permutation (expected query opts corpus) items.
Proof.
  intros query opts st corpus. apply search_permutation.
Qed.

Lemma search_returns_hits_witness :
  exists items,
    SearchEngine.search "fox" defaults (engineWith foxCorpus)
    = (Ret 1, searched (engineWith foxCorpus) items)
    /\ Permutation (expected "fox" defaults foxCorpus) items.
Proof.
  exact (search_returns_hits "fox" defaults (engineWith foxCorpus) foxCorpus eq_refl).
Defined.

(** X20.  The sort of [search] is stable.  On a corpus without NaN
    among its timestamps, where the comparator is consistent, results
    with the same match count and the same timestamp come back in the
    order of the corpus. *)
Theorem search_stable :
  forall (query : string) (opts : SearchEngine.options) (st : SearchEngine.state)
         (corpus : list Episode) (key : SearchResult),
    nth_error (SearchEngine.heap st) (SearchEngine.this_episodes st)
    = Some (SearchEngine.EpisodeArray corpus) ->
    (forall episode segment,
        In episode corpus ->
        In segment (Episode.transcript episode) ->
        Segment.timestamp segment <> JS.NaN) ->
    exists items,
      SearchEngine.search query opts st
      = (Ret (List.length (SearchEngine.heap st)), searched st items)
      /\ filter (ties query opts key) items
         = filter (ties query opts key) (expected query opts corpus).
Proof.
  intros query opts st corpus key Hcorpus _.
  destruct (search_expected query opts st corpus Hcorpus) as [items [Hsearch Hitems]].
  exists items. split; [exact Hsearch|]. unfold expected.
  destruct (JS.isEmpty (JS.trim query)) eqn:Hq; [subst items; reflexivity|].
  exact (sort_stable _ (rank query opts)
           (fun a b => byRelevance_spec query opts a b Hq)
           (ties query opts key) (ties_not_positive query opts key) _ _ Hitems).
Qed.

(** Two segments that say the same at the same time, in two episodes. *)
Lemma search_stable_witness :
  exists items,
    SearchEngine.search "fox" defaults (engineWith twinCorpus)
    = (Ret 1, searched (engineWith twinCorpus) items)
    /\ filter (ties "fox" defaults (Result.mk "segment-0" "A" "A fox" (JS.ofNat 10) ""))
              items
       = filter (ties "fox" defaults
                   (Result.mk "segment-0" "A" "A fox" (JS.ofNat 10) ""))
                (expected "fox" defaults twinCorpus).
Proof.
  apply (search_stable "fox" defaults (engineWith twinCorpus) twinCorpus _ eq_refl).
  intros episode segment Hep Hseg. cbn in Hep.
  destruct Hep as [<-|[<-|[]]]; cbn in Hseg.
  - destruct Hseg as [<-|[<-|[]]]; discriminate.
  - destruct Hseg as [<-|[]]; discriminate.
Defined.

(** X21.  In a corpus whose ids are unique, every result of a search
    leads back to its segment: [getSegmentById] on the two ids of the
    result returns a segment with the text and the timestamp of the
    result, and leaves the state as it was. *)
Theorem search_results_resolve :
  forall (query : string) (opts : SearchEngine.options) (st : SearchEngine.state)
         (corpus : list Episode),
    nth_error (SearchEngine.heap st) (SearchEngine.this_episodes st)
    = Some (SearchEngine.EpisodeArray corpus) ->
    uniqueIds corpus ->
    exists items,
      SearchEngine.search query opts st
      = (Ret (List.length (SearchEngine.heap st)), searched st items)
      /\ forall r, In r items ->
           exists segment,
             SearchEngine.getSegmentById (Result.episodeId r) (Result.segmentId r)
               (searched st items)
             = (Ret (Some segment), searched st items)
             /\ Segment.text segment = Result.text r
             /\ Segment.timestamp segment = Result.timestamp r.
Proof.
  intros query opts st corpus Hcorpus [Hepisodes Hsegments].
  destruct (search_permutation query opts st corpus Hcorpus)
    as [items [Hsearch Hperm]].
  exists items. split; [exact Hsearch|]. intros r Hr.
  apply (Permutation_in _ (Permutation_sym Hperm)) in Hr.
  unfold expected in Hr. destruct (JS.isEmpty (JS.trim query)); [destruct Hr|].
  destruct (hits_ids _ _ _ _ Hr)
    as [episode [segment (Hep & Hseg & Heid & Hsid & Htext & Htime)]].
  exists segment. split; [|split; congruence].
  unfold SearchEngine.getSegmentById, SearchEngine.getEpisodeById,
    SearchEngine.bind, SearchEngine.readEpisodes, SearchEngine.ret, searched.
  cbn [SearchEngine.heap SearchEngine.this_episodes].
  rewrite nth_error_app1 by (apply nth_error_Some; congruence).
  rewrite Hcorpus, Heid, Hsid.
  rewrite (find_unique Episode.id corpus episode Hepisodes Hep).
  rewrite Forall_forall in Hsegments.
  rewrite (find_unique Segment.id _ segment (Hsegments _ Hep) Hseg).
  reflexivity.
Qed.

Lemma search_results_resolve_witness :
  exists items,
    SearchEngine.search "quick" defaults (engineWith foxCorpus)
    = (Ret 1, searched (engineWith foxCorpus) items)
    /\ forall r, In r items ->
         exists segment,
           SearchEngine.getSegmentById (Result.episodeId r) (Result.segmentId r)
             (searched (engineWith foxCorpus) items)
           = (Ret (Some segment), searched (engineWith foxCorpus) items)
           /\ Segment.text segment = Result.text r
           /\ Segment.timestamp segment = Result.timestamp r.
Proof.
  apply (search_results_resolve "quick" defaults (engineWith foxCorpus) foxCorpus
           eq_refl).
  split.
  - repeat constructor; cbn; intuition discriminate.
  - repeat constructor; cbn; intuition discriminate.
Defined.

(** ** Matching and counting together *)

Section Cases.
Import JS.

Lemma toLowerChar_idempotent c : toLowerChar (toLowerChar c) = toLowerChar c.
Proof. destruct c as [[] [] [] [] [] [] [] []]; vm_compute; reflexivity. Qed.

(** Lower-casing a lower-cased string changes nothing. *)
Lemma toLowerCase_idempotent s : toLowerCase (toLowerCase s) = toLowerCase s.
Proof.
  unfold toLowerCase. induction s as [|c s IH]; [reflexivity|].
  cbn [map_string]. rewrite toLowerChar_idempotent, IH. reflexivity.
Qed.

End Cases.

Section MatchAndCount.
Import JS RegExp SearchEngine.

Lemma indexOf_includes sub s :
  includes s sub = true -> exists found, indexOf s sub 0 = Some found.
Proof.
  induction s as [|a s IH]; cbn [includes indexOf].
  - destruct (startsWith "" sub); [eexists; reflexivity | discriminate].
  - destruct (startsWith (String a s) sub); [eexists; reflexivity|].
    intros H. destruct (IH H) as [found ->]. eexists. reflexivity.
Qed.

(** The loop of [countMatches] only counts up. *)
Lemma countLoop_grows searchText searchQuery : forall fuel pos count n,
  countLoop fuel searchText searchQuery pos count = Ret n -> count <= n.
Proof.
  induction fuel as [|fuel IH]; intros pos count n; [discriminate|].
  cbn [countLoop]. destruct (indexOf searchText searchQuery pos) as [found|].
  - intros H. apply IH in H. lia.
  - intros H. injection H as <-. lia.
Qed.

Lemma matchesQuery_wholeWord text query wholeWords :
  on wholeWords = true ->
  matchesQuery text query wholeWords = Ret (test (wholeWord query) text).
Proof.
  intros Hww. unfold matchesQuery. rewrite Hww, RegExp_wholeWord. reflexivity.
Qed.

Lemma countMatches_wholeWord text query wholeWords :
  on wholeWords = true ->
  countMatches text query wholeWords
  = Ret (List.length
           (matchesFrom (wholeWord (toLowerCase query)) None (toLowerCase text) 0)).
Proof.
  intros Hww. unfold countMatches. rewrite Hww, RegExp_wholeWord. cbn [obind].
  change (mkRegex _ (hasFlag "gi" "g") (hasFlag "gi" "i"))
    with (wholeWord (toLowerCase query)).
  unfold matchAll.
  destruct (matchesFrom _ _ _ _) as [|m ms]; [reflexivity|].
  rewrite length_map. reflexivity.
Qed.

(** Where [test] finds a match, [match] finds one too. *)
Lemma matchesFrom_nonempty re s : forall prev,
  testFrom re prev s = true -> matchesFrom re prev s 0 <> [].
Proof.
  induction s as [|a s IH]; intros prev; cbn [testFrom matchesFrom].
  - destruct (matchAt re prev ""); discriminate.
  - destruct (matchAt re prev (String a s)); [discriminate|]. apply IH.
Qed.

(** The text and the query as [search] hands them to [matchesQuery]:
    both in lower case unless the search is case-sensitive. *)
Lemma hits_match query opts corpus r :
  In r (hits query opts corpus) ->
  holds (matchesQuery
           (if on (caseSensitive opts) then Result.text r
            else toLowerCase (Result.text r))
           (searchQueryOf query opts) (wholeWords opts)) = true.
Proof.
  unfold hits. intros H. apply in_flat_map in H. destruct H as [episode [_ H]].
  apply in_flat_map in H. destruct H as [segment [_ H]].
  unfold segmentHits in H. destruct (holds _) eqn:E; [|destruct H].
  destruct H as [<-|[]]. exact E.
Qed.

(** Without [caseSensitive] the query that [countMatches] is given is
    in lower case already, so that it looks for what [matchesQuery]
    has found. *)
Lemma searchQueryOf_lower query opts :
  on (caseSensitive opts) = false ->
  toLowerCase (searchQueryOf query opts) = searchQueryOf query opts.
Proof.
  unfold searchQueryOf. intros ->. apply toLowerCase_idempotent.
Qed.

(** A text that matches counts at least once. *)
Lemma match_counts query opts text :
  isEmpty (trim query) = false ->
  on (caseSensitive opts) = false ->
  holds (matchesQuery (toLowerCase text) (searchQueryOf query opts)
           (wholeWords opts)) = true ->
  exists n,
    countMatches text (searchQueryOf query opts) (wholeWords opts) = Ret n
    /\ 1 <= n.
Proof.
  intros Hq Hcs Hmatch.
  pose proof (searchQueryOf_nonempty query opts Hq) as Hsq.
  destruct (on (wholeWords opts)) eqn:Hww.
  - rewrite (matchesQuery_wholeWord _ _ _ Hww) in Hmatch. cbn [holds] in Hmatch.
    rewrite (countMatches_wholeWord _ _ _ Hww), (searchQueryOf_lower _ _ Hcs).
    eexists. split; [reflexivity|].
    apply matchesFrom_nonempty in Hmatch.
    destruct (matchesFrom _ _ _ _); [contradiction | cbn; lia].
  - unfold matchesQuery in Hmatch. rewrite Hww in Hmatch. cbn [holds] in Hmatch.
    destruct (countMatches_returns text (searchQueryOf query opts) (wholeWords opts)
                Hsq) as [n Hn].
    exists n. split; [exact Hn|].
    unfold countMatches in Hn. rewrite Hww, (searchQueryOf_lower _ _ Hcs) in Hn.
    cbn [countLoop] in Hn.
    destruct (indexOf_includes _ _ Hmatch) as [found Hfound].
    rewrite Hfound in Hn. exact (countLoop_grows _ _ _ _ _ _ Hn).
Qed.

End MatchAndCount.

(** X22.  In a search without [caseSensitive], every result counts at
    least one match: the text and the query that [matchesQuery]
    accepted are the lower-cased ones that [countMatches] compares,
    with or without [wholeWords]. *)
Theorem search_results_count :
  forall (query : string) (opts : SearchEngine.options) (st : SearchEngine.state)
         (corpus : list Episode),
    nth_error (SearchEngine.heap st) (SearchEngine.this_episodes st)
    = Some (SearchEngine.EpisodeArray corpus) ->
    SearchEngine.on (SearchEngine.caseSensitive opts) = false ->
    exists items,
      SearchEngine.search query opts st
      = (Ret (List.length (SearchEngine.heap st)), searched st items)
      /\ forall r, In r items ->
           exists n,
             SearchEngine.countMatches (Result.text r) (JS.toLowerCase query)
               (SearchEngine.wholeWords opts) = Ret n
             /\ 1 <= n.
Proof.
  intros query opts st corpus Hcorpus Hcs.
  destruct (search_permutation query opts st corpus Hcorpus)
    as [items [Hsearch Hperm]].
  exists items. split; [exact Hsearch|]. intros r Hr.
  apply (Permutation_in _ (Permutation_sym Hperm)) in Hr.
  unfold expected in Hr.
  destruct (JS.isEmpty (JS.trim query)) eqn:Hq; [destruct Hr|].
  pose proof (hits_match _ _ _ _ Hr) as Hmatch.
  pose proof (match_counts query opts (Result.text r) Hq Hcs) as Hcount.
  unfold searchQueryOf in Hcount, Hmatch. rewrite Hcs in Hcount, Hmatch.
  exact (Hcount Hmatch).
Qed.

Lemma search_results_count_witness :
  exists items,
    SearchEngine.search "Quick" (SearchEngine.mkOptions None (Some true))
      (engineWith foxCorpus)
    = (Ret 1, searched (engineWith foxCorpus) items)
    /\ forall r, In r items ->
         exists n,
           SearchEngine.countMatches (Result.text r) (JS.toLowerCase "Quick")
             (Some true) = Ret n
           /\ 1 <= n.
Proof.
  exact (search_results_count "Quick" (SearchEngine.mkOptions None (Some true))
           (engineWith foxCorpus) foxCorpus eq_refl eq_refl).
Defined.

(** ** The free-text detector *)

Section FreeText.
Import JS FileParser.

Lemma textSegments_texts (lines : list string) : forall k,
  map Segment.text
    (flat_map (fun entry : nat * string =>
       let '(index, line) := entry in
       let trimmedLine := trim line in
       if 10 <? String.length trimmedLine
       then [Segment.mk (segmentId index) trimmedLine (ofNat (index * 5))
               Undefined Undefined]
       else []) (indexed_from k lines))
  = filter (fun line => 10 <? String.length line) (map trim lines).
Proof.
  induction lines as [|line lines IH]; intros k; [reflexivity|].
  cbn [indexed_from flat_map map filter]. cbv zeta. rewrite map_app, IH.
  destruct (10 <? String.length (trim line)); reflexivity.
Qed.

Lemma blank_lines_short (lines : list string) :
  filter (fun line => 10 <? String.length line)
    (map trim (filter (fun line => 0 <? String.length (trim line)) lines))
  = filter (fun line => 10 <? String.length line) (map trim lines).
Proof.
  induction lines as [|line lines IH]; [reflexivity|].
  cbn [filter map]. destruct (0 <? String.length (trim line)) eqn:E.
  - cbn [map filter]. rewrite IH. reflexivity.
  - rewrite IH. apply Nat.ltb_ge in E.
    replace (10 <? String.length (trim line)) with false; [reflexivity|].
    symmetry. apply Nat.ltb_ge. lia.
Qed.

End FreeText.

(** X26.  [createEpisodeFromText] always returns an episode; its
    segments are the lines of the payload that are longer than ten
    characters once trimmed, in order, and its duration is five seconds
    for each of them. *)
Theorem createEpisodeFromText_lines :
  forall (platform : Platform) (content filename : string) (w : World),
    exists episode w',
      FileParser.createEpisodeFromText platform content filename w
      = (Ret episode, w')
      /\ map Segment.text (Episode.transcript episode)
         = filter (fun line => 10 <? String.length line)
                  (map JS.trim (JS.split JS.LF content))
      /\ Episode.duration episode
         = JS.Num (JS.ofNat (List.length (Episode.transcript episode) * 5)).
Proof.
  intros platform content filename w.
  eexists. eexists. split; [reflexivity|].
  cbn [Episode.transcript Episode.duration]. split; [|reflexivity].
  rewrite textSegments_texts. apply blank_lines_short.
Qed.

(** ** What a batch reads *)

Section Reads.
Import JS FileParser.

Lemma quiet_ret {A} (a : A) : quiet (ret a).
Proof. intros w o w' H. injection H as _ <-. reflexivity. Qed.

Lemma quiet_lift {A} (o : Outcome A) : quiet (lift o).
Proof. intros w o' w' H. injection H as _ <-. reflexivity. Qed.

Lemma quiet_ask {A} (oracle : nat -> A) : quiet (ask oracle).
Proof. intros w o w' H. injection H as _ <-. reflexivity. Qed.

Lemma quiet_bind {A B} (m : Eff A) (k : A -> Eff B) :
  quiet m -> (forall a, quiet (k a)) -> quiet (bind m k).
Proof.
  intros Hm Hk w o w'. unfold bind.
  destruct (m w) as [[a|e|] w1] eqn:E.
  - intros H. rewrite (Hk a _ _ _ H). exact (Hm _ _ _ E).
  - intros H. injection H as _ <-. exact (Hm _ _ _ E).
  - intros H. injection H as _ <-. exact (Hm _ _ _ E).
Qed.

Lemma quiet_tryCatch {A} (body : Eff A) handler :
  quiet body -> (forall e, quiet (handler e)) -> quiet (tryCatch body handler).
Proof.
  intros Hb Hh w o w'. unfold tryCatch.
  destruct (body w) as [[a|e|] w1] eqn:E.
  - intros H. injection H as _ <-. exact (Hb _ _ _ E).
  - intros H. rewrite (Hh e _ _ _ H). exact (Hb _ _ _ E).
  - intros H. injection H as _ <-. exact (Hb _ _ _ E).
Qed.

End Reads.

Ltac quieten :=
  repeat match goal with
  | |- quiet (bind _ _) => apply quiet_bind; [|intros ?]
  | |- quiet (tryCatch _ _) => apply quiet_tryCatch; [|intros ?]
  | |- quiet (ret _) => apply quiet_ret
  | |- quiet (lift _) => apply quiet_lift
  | |- quiet (FileParser.ask _) => apply quiet_ask
  | |- quiet (FileParser.generateId _) => unfold FileParser.generateId
  | |- quiet (FileParser.isoNow _) => unfold FileParser.isoNow
  | |- quiet (FileParser.orNow _ _) => unfold FileParser.orNow
  | |- quiet (if ?b then _ else _) => destruct b
  end.

Section ReadsOfBatch.
Import JS FileParser.
Context (platform : Platform).

Lemma createEpisodeFromText_quiet content filename :
  quiet (createEpisodeFromText platform content filename).
Proof. unfold createEpisodeFromText. cbv zeta. quieten. Qed.

Lemma createEpisodeFromSegments_quiet segments filename :
  quiet (createEpisodeFromSegments platform segments filename).
Proof. unfold createEpisodeFromSegments. quieten. Qed.

Lemma extractEpisodeFromData_quiet data filename :
  quiet (extractEpisodeFromData platform data filename).
Proof. unfold extractEpisodeFromData. quieten. Qed.

Lemma extractApplePodcastEpisode_quiet data filename :
  quiet (extractApplePodcastEpisode platform data filename).
Proof. unfold extractApplePodcastEpisode. quieten. Qed.

Lemma scanEntries_quiet entries filename :
  quiet (scanEntries platform entries filename).
Proof.
  induction entries as [|[key value] entries IH]; cbn [scanEntries]; quieten.
  destruct value as [| |b|n|s|items|fields]; try exact IH.
  destruct items as [|firstItem items]; [exact IH|]. quieten; try exact IH.
  apply createEpisodeFromSegments_quiet.
Qed.

Lemma parseJsonContent_quiet content filename :
  quiet (parseJsonContent platform content filename).
Proof.
  unfold parseJsonContent. quieten.
  - apply extractApplePodcastEpisode_quiet.
  - destruct a2; quieten. apply extractEpisodeFromData_quiet.
  - destruct a3 as [episode|]; quieten; [apply extractEpisodeFromData_quiet|].
    assert (Hscan : quiet (bind (lift (objectEntries a))
                             (fun entries => scanEntries platform entries filename))).
    { quieten. apply scanEntries_quiet. }
    destruct a as [| |b|n|s|items|fields]; try exact Hscan.
    destruct items as [|first items]; [exact Hscan|]. quieten.
    + apply createEpisodeFromSegments_quiet.
    + apply extractEpisodeFromData_quiet.
    + apply scanEntries_quiet.
Qed.

Lemma parsePlistContent_quiet content filename :
  quiet (parsePlistContent platform content filename).
Proof.
  unfold parsePlistContent. cbv zeta. apply quiet_tryCatch; [|intros; quieten].
  destruct (DOM.querySelector _ _); quieten.
  destruct a as [segments|]; quieten; apply createEpisodeFromSegments_quiet.
Qed.

(** The contents of a file are asked for once, before anything else. *)
Lemma reading_readText {A} file (k : string -> Eff A) :
  (forall content, quiet (k content)) ->
  reading [File.name file] (bind (readText file) k).
Proof.
  intros Hk w o w'. unfold bind, readText.
  destruct (File.text file) as [content|e|].
  - intros H. rewrite (Hk content _ _ _ H). reflexivity.
  - intros H. injection H as _ <-. reflexivity.
  - intros H. injection H as _ <-. reflexivity.
Qed.

Lemma reading_readEntry {A} filename zipEntry (k : string -> Eff A) :
  (forall content, quiet (k content)) ->
  reading [filename] (bind (readEntry filename zipEntry) k).
Proof.
  intros Hk w o w'. unfold bind, readEntry.
  destruct (entryText zipEntry) as [content|e|].
  - intros H. rewrite (Hk content _ _ _ H). reflexivity.
  - intros H. injection H as _ <-. reflexivity.
  - intros H. injection H as _ <-. reflexivity.
Qed.

Lemma reading_tryCatch {A} names (body : Eff A) handler :
  reading names body -> (forall e, quiet (handler e)) ->
  reading names (tryCatch body handler).
Proof.
  intros Hb Hh w o w'. unfold tryCatch.
  destruct (body w) as [[a|e|] w1] eqn:E.
  - intros H. injection H as _ <-. exact (Hb _ _ _ E).
  - intros H. rewrite (Hh e _ _ _ H). exact (Hb _ _ _ E).
  - intros H. injection H as _ <-. exact (Hb _ _ _ E).
Qed.

Lemma reading_then {A B} names (m : Eff A) (k : A -> Eff B) :
  reading names m -> (forall a, quiet (k a)) -> reading names (bind m k).
Proof.
  intros Hm Hk w o w'. unfold bind.
  destruct (m w) as [[a|e|] w1] eqn:E.
  - intros H. rewrite (Hk a _ _ _ H). exact (Hm _ _ _ E).
  - intros H. injection H as _ <-. exact (Hm _ _ _ E).
  - intros H. injection H as _ <-. exact (Hm _ _ _ E).
Qed.

Lemma reading_returning {A} names (m : Eff A) : reading names m -> returning names m.
Proof. intros H w a w' E. exact (H _ _ _ E). Qed.

Lemma quiet_returning {A} (m : Eff A) : quiet m -> returning [] m.
Proof. intros H w a w' E. rewrite app_nil_r. exact (H _ _ _ E). Qed.

Lemma processJsonFile_reading file :
  reading [File.name file] (processJsonFile platform file).
Proof. apply reading_readText. intros. apply parseJsonContent_quiet. Qed.

Lemma processPlistFile_reading file :
  reading [File.name file] (processPlistFile platform file).
Proof. apply reading_readText. intros. apply parsePlistContent_quiet. Qed.

Lemma processGenericFile_reading file :
  reading [File.name file] (processGenericFile platform file).
Proof.
  unfold processGenericFile. apply reading_tryCatch; [|intros; quieten].
  apply reading_readText. intros content. quieten.
  - apply parseJsonContent_quiet.
  - destruct a as [episode|]; quieten.
    + apply parsePlistContent_quiet.
    + destruct a as [episode|]; quieten. apply createEpisodeFromText_quiet.
Qed.

Lemma processZipEntry_reading result entry :
  reading (entryRead entry) (processZipEntry platform result entry).
Proof.
  destruct entry as [filename zipEntry]. unfold processZipEntry, entryRead.
  cbn [fst snd]. destruct (dir zipEntry).
  - intros w o w' H. rewrite app_nil_r. exact (quiet_ret _ _ _ _ H).
  - apply reading_tryCatch; [|intros; quieten].
    apply reading_readEntry. intros content. quieten.
    + apply parseJsonContent_quiet.
    + apply parsePlistContent_quiet.
    + apply createEpisodeFromText_quiet.
Qed.

Lemma processZipEntry_settles result entry w :
  rejected (fst (processZipEntry platform result entry w)) = false.
Proof.
  destruct entry as [filename zipEntry]. unfold processZipEntry.
  destruct (dir zipEntry); [reflexivity|].
  apply (tryCatch_settles _
           (fun message =>
              pushError result ("Error processing " ++ filename ++ ": " ++ message))).
Qed.

Lemma foldEff_returning {A S} (f : A -> list string) (body : S -> A -> Eff S) l :
  (forall acc x, returning (f x) (body acc x)) ->
  forall acc, returning (flat_map f l) (foldEff body l acc).
Proof.
  intros Hbody. induction l as [|x l IH]; intros acc w a w'; cbn [foldEff flat_map].
  - intros H. injection H as _ <-. rewrite app_nil_r. reflexivity.
  - unfold bind. destruct (body acc x w) as [[acc'|e|] w1] eqn:E; try discriminate.
    intros H. rewrite (IH _ _ _ _ H), (Hbody _ _ _ _ _ E), app_assoc. reflexivity.
Qed.

Lemma foldEff_entries_settle entries : forall result w,
  rejected (fst (foldEff (processZipEntry platform) entries result w)) = false.
Proof.
  induction entries as [|entry entries IH]; intros result w; [reflexivity|].
  cbn [foldEff]. unfold bind.
  pose proof (processZipEntry_settles result entry w) as H.
  destruct (processZipEntry platform result entry w) as [[r|e|] w1];
    [apply IH | discriminate | reflexivity].
Qed.

Lemma processZipFile_returning file :
  returning
    (File.name file ::
     match File.archive file with
     | Ret entries => flat_map entryRead entries
     | _ => []
     end)
    (processZipFile platform file).
Proof.
  intros w result w'. unfold processZipFile, tryCatch, bind, loadAsync. cbv zeta.
  destruct (File.archive file) as [entries|e|]; [| |discriminate].
  - pose proof (foldEff_entries_settle entries (mkResult [] [])
                  (mkWorld (ticks w) (reads w ++ [File.name file]))) as Hs.
    destruct (foldEff _ entries _ _) as [[r|e|] w1] eqn:E; try discriminate.
    intros H. injection H as _ <-.
    rewrite (foldEff_returning entryRead _ entries
               (fun acc entry => reading_returning _ _
                                   (processZipEntry_reading acc entry))
               _ _ _ _ E).
    cbn [reads]. rewrite <- app_assoc. reflexivity.
  - unfold ret. intros H. injection H as _ <-. reflexivity.
Qed.

Lemma processZipFile_settles file w :
  rejected (fst (processZipFile platform file w)) = false.
Proof.
  unfold processZipFile. cbv zeta.
  apply (tryCatch_settles _
           (fun message =>
              pushError (mkResult [] []) ("Error reading ZIP file: " ++ message))).
Qed.

Lemma processFile_returning result file :
  returning (readsOf file) (processFile platform result file).
Proof.
  unfold readsOf, routeOf, processFile. cbv zeta.
  destruct (_ && _).
  { apply quiet_returning. quieten. }
  destruct (endsWith _ ".zip").
  { intros w r w'. unfold tryCatch, bind.
    pose proof (processZipFile_settles file w) as Hs.
    destruct (processZipFile platform file w) as [[zipResult|e|] w1] eqn:E;
      try discriminate.
    unfold ret. intros H. injection H as _ <-.
    exact (processZipFile_returning file _ _ _ E). }
  destruct (endsWith _ ".json").
  { apply reading_returning, reading_tryCatch; [|intros; quieten].
    apply reading_then; [apply processJsonFile_reading | intros; quieten]. }
  destruct (_ || _).
  { apply reading_returning, reading_tryCatch; [|intros; quieten].
    apply reading_then; [apply processPlistFile_reading | intros; quieten]. }
  destruct (_ || _).
  { apply quiet_returning. quieten. }
  destruct (_ || _);
    (apply reading_returning, reading_tryCatch; [|intros; quieten];
     apply reading_then; [apply processGenericFile_reading | intros; quieten]).
Qed.

End ReadsOfBatch.

(** X27.  What a batch reads: the contents of each file once, in the
    order of the batch, and after an archive the text of each of its
    entries that is no folder; nothing is read of a directory
    placeholder or of a database file. *)
Theorem processFiles_reads :
  forall (platform : Platform) (files : list File) (w w' : World)
         (result : FileProcessingResult),
    FileParser.processFiles platform files w = (Ret result, w') ->
    reads w' = (reads w ++ flat_map readsOf files)%list.
Proof.
  intros platform files w w' result H.
  exact (foldEff_returning readsOf (FileParser.processFile platform) files
           (fun acc file => processFile_returning platform acc file)
           (mkResult [] []) w result w' H).
Qed.

Lemma processFiles_reads_witness :
  exists result w',
    FileParser.processFiles pilotPlatform
      [jsonFile "pilot.json" pilotSource;
       textFile "library.sqlite" "SQLite format 3";
       pilotArchive] freshWorld
    = (Ret result, w')
    /\ reads w'
       = ["pilot.json"; "export.zip"; "shows/pilot.json"; "shows/broken.json"].
Proof.
  eexists. eexists. split; [reflexivity|].
  exact (processFiles_reads pilotPlatform
           [jsonFile "pilot.json" pilotSource;
            textFile "library.sqlite" "SQLite format 3";
            pilotArchive] freshWorld _ _ eq_refl).
Defined.
